(** * Face-Morphing: the warping engine of [Morphing.py]

    A shallow embedding of the classes [Affine], [Blender] and
    [ColorBlender] of [Morphing.py], the properties of the specification
    that they do or do not satisfy, and further properties of the code.

    Numbers.  The Python code computes on [numpy.float64].  Here a float is
    an exact rational ([Qc], canonical fractions with Leibniz equality):
    every arithmetic operation is the exact one, [nan] (which the code only
    obtains as the fill value of [interpn]) is the absent value of an
    [option].  Statements "within tolerance" are therefore proved as exact
    equalities, and the concrete runs below only use dyadic numbers of small
    magnitude, on which binary64 arithmetic is exact as well.

    Libraries.  [scipy.spatial.Delaunay] and [PIL.ImageDraw.polygon] are
    parameters of the development; [numpy.linalg.solve] and
    [numpy.linalg.inv] are Gaussian elimination with partial pivoting (what
    LAPACK's [gesv] does), [scipy.interpolate.interpn] is the bilinear
    interpolant on the regular grid. *)

From Stdlib Require Import ZArith QArith Qcanon Qround Qcabs Lia Lqa Ascii.
From stdpp Require Import base option list strings pretty numbers gmap.

Local Open Scope Qc_scope.

(** ** Python exceptions and the error monad *)

Inductive exn :=
  | TypeError
  | ValueError
  | IndexError
  | ZeroDivisionError
  | LinAlgError      (* numpy.linalg.LinAlgError("Singular matrix") *)
  | QhullError.      (* raised by scipy.spatial.Delaunay *)

Inductive result (A : Type) :=
  | Ok (a : A)
  | Err (e : exn).
Arguments Ok {A} a.
Arguments Err {A} e.

Definition rbind {A B} (m : result A) (f : A → result B) : result B :=
  match m with Ok a => f a | Err e => Err e end.

Notation "x ←ᵣ m ; k" := (rbind m (λ x, k))
  (at level 20, m at level 100, k at level 200, right associativity,
   format "x  ←ᵣ  m ;  '/' k").

#[global] Instance exn_eq_dec : EqDecision exn.
Proof. solve_decision. Defined.

(** ** Vectors and linear systems over the rationals *)

Module LinAlg.

Definition vec := list Qc.
(** An equation [a_1 x_1 + ... + a_n x_n = v] of a linear system. *)
Definition eqn : Type := vec * Qc.

Definition dot (u v : vec) : Qc := foldr Qcplus 0 (zip_with Qcmult u v).

(** [A @ x] for a matrix given by its rows. *)
Definition matvec (A : list vec) (x : vec) : vec := (λ r, dot r x) <$> A.

Definition hd_coef (r : eqn) : Qc := default 0 (head r.1).

(** Index of the first entry of largest absolute value (BLAS [idamax]). *)
Fixpoint argmax_abs (col : list Qc) : nat :=
  match col with
  | [] => O
  | x :: xs =>
      let j := argmax_abs xs in
      match xs !! j with
      | Some y => if decide (Qcabs x < Qcabs y) then S j else O
      | None => O
      end
  end.

(** Exchange of row [0] and row [i]. *)
Definition swap0 (i : nat) (rows : list eqn) : list eqn :=
  match i, rows with
  | S j, r0 :: rs =>
      match rs !! j with
      | Some ri => ri :: <[j := r0]> rs
      | None => rows
      end
  | _, _ => rows
  end.

(** Subtract from [r] the multiple of the pivot row [p] that clears the
    first unknown, and drop that unknown. *)
Definition eliminate (p r : eqn) : eqn :=
  let m := hd_coef r / hd_coef p in
  (zip_with (λ a b, a - m * b) (tail r.1) (tail p.1), r.2 - m * p.2).

(** Gaussian elimination with partial pivoting on [n] unknowns, followed
    by back substitution.  [None]: a pivot is exactly zero, the matrix is
    singular. *)
Fixpoint gauss (n : nat) (rows : list eqn) : option vec :=
  match n with
  | O => Some []
  | S n' =>
      match swap0 (argmax_abs (hd_coef <$> rows)) rows with
      | [] => None
      | p :: rest =>
          if decide (hd_coef p = 0) then None
          else
            xs ← gauss n' (eliminate p <$> rest);
            Some ((p.2 - dot (tail p.1) xs) / hd_coef p :: xs)
      end
  end.

(** [numpy.linalg.solve(A, b)] for a square [A]. *)
Definition solve (A : list vec) (b : vec) : result vec :=
  match gauss (length A) (zip A b) with
  | Some x => Ok x
  | None => Err LinAlgError
  end.

Definition unit_vec (n j : nat) : vec :=
  (λ i, if decide (i = j) then 1 else 0) <$> seq 0 n.

Fixpoint mapM {A B} (f : A → result B) (l : list A) : result (list B) :=
  match l with
  | [] => Ok []
  | a :: l' => b ←ᵣ f a; bs ←ᵣ mapM f l'; Ok (b :: bs)
  end.

Definition column (j : nat) (cols : list vec) : vec :=
  (λ c, default 0 (c !! j)) <$> cols.

(** [numpy.linalg.inv(M)]: the system [M X = I] solved column by column;
    row [i] of the result collects entry [i] of every solution. *)
Definition inv (M : list vec) : result (list vec) :=
  let n := length M in
  cols ←ᵣ mapM (λ j, solve M (unit_vec n j)) (seq 0 n);
  Ok ((λ i, column i cols) <$> seq 0 n).

(** *** Solutions of a system *)

Definition sat (x : vec) (rows : list eqn) : Prop :=
  Forall (λ r : eqn, dot r.1 x = r.2) rows.
Definition kernel (k : vec) (rows : list eqn) : Prop :=
  Forall (λ r : eqn, dot r.1 k = 0) rows.
Definition wf (n : nat) (rows : list eqn) : Prop :=
  Forall (λ r : eqn, length r.1 = n) rows.

End LinAlg.

(** ** numpy scalars: rounding and casts *)

Module NumPy.

(** [float(z)] *)
Definition of_int (z : Z) : Qc := Qc_of_Z z.

(** The largest integer below a float and the smallest one above it. *)
Definition floor (q : Qc) : Z := Qfloor q.
Definition ceil (q : Qc) : Z := Qceiling q.

(** [numpy.round]: to the nearest integer, ties to the even one; the result
    is still a float. *)
Definition round (q : Qc) : Qc :=
  let f := floor q in
  let d := q - of_int f in
  if decide (d < Q2Qc (1 # 2)) then of_int f
  else if decide (Q2Qc (1 # 2) < d) then of_int (f + 1)
  else if Z.even f then of_int f else of_int (f + 1).

(** The C conversion of a float to an integer drops the fraction. *)
Definition trunc (q : Qc) : Z :=
  if decide (0 <= q) then floor q else ceil q.

(** What a [nan] becomes when it is stored into a [uint8] array: the
    conversion is left open by C, numpy on x86-64 and on AArch64 stores 0
    (and, from numpy 1.24 on, warns "invalid value encountered in cast"). *)
Definition nan_as_uint8 : Z := 0.

(** [x.astype('uint8')], and the cast of an assignment into a [uint8]
    array; [None] is [nan]. *)
Definition astype_uint8 (x : option Qc) : Z :=
  match x with
  | Some q => (trunc q) `mod` 256
  | None => nan_as_uint8
  end.

End NumPy.

(** ** Pixel buffers *)

(** A pixel is [nchan] values of type [uint8]: one for the mode ['L'] of
    [Blender], three for the mode ['RGB'] of [ColorBlender]. *)
Class Pixel (P : Type) := {
  nchan : nat;
  chans : P → list Z;
  of_chans : list Z → P;
  of_chans_chans p : of_chans (chans p) = p;
  chans_of_chans l : length l = nchan → chans (of_chans l) = l;
  length_chans p : length (chans p) = nchan
}.

#[global, refine] Instance gray : Pixel Z :=
  {| nchan := 1; chans z := [z]%list; of_chans l := default 0%Z (head l) |}.
Proof.
  - done.
  - by intros [|z [|??]].
  - done.
Defined.

#[global, refine] Instance rgb : Pixel (Z * Z * Z) :=
  {| nchan := 3;
     chans p := [p.1.1; p.1.2; p.2];
     of_chans l := (default 0%Z (l !! 0%nat), default 0%Z (l !! 1%nat),
                    default 0%Z (l !! 2%nat)) |}.
Proof.
  - by intros [[??]?].
  - by intros [|r [|g [|b [|??]]]].
  - done.
Defined.

(** A [height x width (x nchan)] array, as the list of its rows. *)
Abbreviation image P := (list (list P)).

Section image.
Context {P : Type} `{Pixel P}.

(** Channel [k] of a pixel, and the pixel with given channels. *)
Definition ch (p : P) (k : nat) : Z := default 0%Z (chans p !! k).
Definition pixel_of (f : nat → Z) : P := of_chans (f <$> seq 0 nchan).

Definition height (img : image P) : nat := length img.
Definition width (img : image P) : nat := length (default [] (head img)).

(** The array of a rectangular image, with samples in the range of
    [uint8]. *)
Definition rectangular (img : image P) : Prop :=
  Forall (λ row, length row = width img) img.
Definition uint8_image (img : image P) : Prop :=
  Forall (Forall (λ p, Forall (λ v, 0 ≤ v < 256)%Z (chans p))) img.

(** [np.array(Image.new(mode, (w, h), 0), np.uint8)] *)
Definition Image_new (w h : nat) : image P :=
  replicate h (replicate w (pixel_of (λ _, 0%Z))).

Definition getpixel (img : image P) (r c : nat) : option P :=
  row ← img !! r; row !! c.

(** [img[r, c] = p] *)
Definition setpixel (img : image P) (r c : nat) (p : P) : image P :=
  match img !! r with
  | Some row => <[r := <[c := p]> row]> img
  | None => img
  end.

End image.

(** ** scipy: [sparse.find] and [interpolate.interpn] *)

Module SciPy.

(** [find(mask)]: the positions [(row, column)] of the entries that are not
    zero, here in row-major order (the one write of [transform] that uses
    them does not depend on their order). *)
Definition find (mask : list (list Z)) : list (nat * nat) :=
  concat (imap (λ r row,
    omap id (imap (λ c v, if decide (v = 0%Z) then None else Some (r, c)) row))
    mask).

(** [searchsorted(arange(n), x) - 1], clipped to [0 .. n-2]: the cell of the
    grid in which [x] is interpolated, and the distance of [x] to the lower
    end of the cell. *)
Definition find_indices (n : nat) (x : Qc) : Z * Qc :=
  let s := (Z.min (Z.max (NumPy.ceil x) 0) (Z.of_nat n) - 1)%Z in
  let i := (if decide (s < 0)%Z then 0 else s)%Z in
  let i := (if decide (Z.of_nat n - 2 < i)%Z then Z.of_nat n - 2 else i)%Z in
  (i, x - NumPy.of_int i).

Definition out_of_bounds (n : nat) (x : Qc) : bool :=
  bool_decide (x < 0) || bool_decide (NumPy.of_int (Z.of_nat n - 1) < x).

Section interpn.
Context {P : Type} `{Pixel P}.

Definition value_at (values : image P) (i j : Z) (k : nat) : Qc :=
  match getpixel values (Z.to_nat i) (Z.to_nat j) with
  | Some p => NumPy.of_int (ch p k)
  | None => 0
  end.

(** [interpn((arange(h), arange(w)), values, [(y, x)], bounds_error=False)]
    at one point: multilinear interpolation of every channel, [nan] in all
    channels outside of the grid. *)
Definition interpn (values : image P) (xi : Qc * Qc) : nat → option Qc :=
  let '(y, x) := xi in
  if out_of_bounds (height values) y || out_of_bounds (width values) x
  then λ _, None
  else
    let '(i, ty) := find_indices (height values) y in
    let '(j, tx) := find_indices (width values) x in
    λ k, Some (value_at values i j k * ((1 - ty) * (1 - tx))
             + value_at values i (j + 1) k * ((1 - ty) * tx)
             + value_at values (i + 1) j k * (ty * (1 - tx))
             + value_at values (i + 1) (j + 1) k * (ty * tx)).

End interpn.
End SciPy.

(** ** class Affine *)

(** A point [(x, y)]; an [n x 2] array of [float64] is a list of points. *)
Definition point : Type := Qc * Qc.
Definition points : Type := list point.

(** [a[i, 0]] and [a[i, 1]] *)
Definition px (a : points) (i : nat) : Qc := (default (0, 0) (a !! i)).1.
Definition py (a : points) (i : nat) : Qc := (default (0, 0) (a !! i)).2.

(** Twice the signed area of the triangle [a[0], a[1], a[2]]. *)
Definition area2 (a : points) : Qc :=
  (px a 1 - px a 0) * (py a 2 - py a 0) - (px a 2 - px a 0) * (py a 1 - py a 0).

Module Affine.

Record t := {
  source : points;
  destination : points;
  matrix : list LinAlg.vec;
  inverseMatrix : list LinAlg.vec
}.

(** The system [A H = b] of [_CreateMatrix]. *)
Definition system_A (source : points) : list LinAlg.vec :=
  [ [px source 0; py source 0; 1; 0; 0; 0];
    [0; 0; 0; px source 0; py source 0; 1];
    [px source 1; py source 1; 1; 0; 0; 0];
    [0; 0; 0; px source 1; py source 1; 1];
    [px source 2; py source 2; 1; 0; 0; 0];
    [0; 0; 0; px source 2; py source 2; 1] ].

Definition system_b (destination : points) : LinAlg.vec :=
  [ px destination 0; py destination 0;
    px destination 1; py destination 1;
    px destination 2; py destination 2 ].

(** The homogeneous matrix of the map [(x, y) -> (h0 x + h1 y + h2,
    h3 x + h4 y + h5)]. *)
Definition affine_matrix (h0 h1 h2 h3 h4 h5 : Qc) : list LinAlg.vec :=
  [[h0; h1; h2]; [h3; h4; h5]; [0; 0; 1]].

Definition _CreateMatrix (source destination : points) : result (list LinAlg.vec) :=
  H ←ᵣ LinAlg.solve (system_A source) (system_b destination);
  let h i := default 0 (H !! i) in
  Ok (affine_matrix (h 0%nat) (h 1%nat) (h 2%nat) (h 3%nat) (h 4%nat) (h 5%nat)).

(** [Affine(source, destination)].  The arguments are arrays of [float64]
    with two columns by their type; the test on the shape is the one on
    the number of rows. *)
Definition __init__ (source destination : points) : result t :=
  if negb (bool_decide (length source = 3%nat ∧ length destination = 3%nat))
  then Err ValueError
  else
    matrix ←ᵣ _CreateMatrix source destination;
    inverseMatrix ←ᵣ LinAlg.inv matrix;
    Ok {| source := source; destination := destination;
          matrix := matrix; inverseMatrix := inverseMatrix |}.

(** The corners of the destination triangle, as [_Mask] hands them to
    [polygon]. *)
Definition vertices (self : t) : points :=
  [ (px (destination self) 0, py (destination self) 0);
    (px (destination self) 1, py (destination self) 1);
    (px (destination self) 2, py (destination self) 2) ].

Section transform.
Context {P : Type} `{Pixel P}.

(** [ImageDraw.Draw(image).polygon(vertices, outline=255, fill=255)] on a
    black image: [polygon vertices x y] tells whether the pixel of column
    [x] and row [y] is painted. *)
Variable polygon : points → nat → nat → bool.

Definition _Mask (self : t) (destinationImage : image P) : list (list Z) :=
  let vertices := vertices self in
  (λ y, (λ x, if polygon vertices x y then 255%Z else 0%Z)
          <$> seq 0 (width destinationImage))
    <$> seq 0 (height destinationImage).

(** The sample written at row [r] and column [c]: the column of
    [inverseMatrix @ destArray] for this pixel gives the point of the source
    image, read as (row, column) by [interpn]; the value is rounded and
    stored as [uint8]. *)
Definition valuePoint (self : t) (rc : nat * nat) : Qc * Qc :=
  let destArray := [NumPy.of_int (Z.of_nat rc.2); NumPy.of_int (Z.of_nat rc.1); 1] in
  let result := LinAlg.matvec (inverseMatrix self) destArray in
  (default 0 (result !! 1%nat), default 0 (result !! 0%nat)).

Definition sample (self : t) (sourceImage : image P) (rc : nat * nat) : P :=
  let results := SciPy.interpn sourceImage (valuePoint self rc) in
  pixel_of (λ k, NumPy.astype_uint8 (NumPy.round <$> results k)).

(** [destinationImage[rows, cols] = values] *)
Definition assign (destinationImage : image P) (sparse : list (nat * nat))
    (values : list P) : image P :=
  foldl (λ img '(rc, v), setpixel img rc.1 rc.2 v) destinationImage
        (zip sparse values).

(** [transform] updates [destinationImage] in place: the result is the
    array after the call. *)
Definition transform (self : t) (sourceImage destinationImage : image P) : image P :=
  let mask := _Mask self destinationImage in
  let sparse := SciPy.find mask in
  let values := sample self sourceImage <$> sparse in
  assign destinationImage sparse values.

End transform.
End Affine.

(** ** class Blender (and ColorBlender) *)

(** A Python value that is, or is not, a [numpy.ndarray]. *)
Inductive pyobj (A : Type) :=
  | ndarray (a : A)
  | other.
Arguments ndarray {A} a.
Arguments other {A}.

Definition is_ndarray {A} (o : pyobj A) : bool :=
  match o with ndarray _ => true | other => false end.

(** ['frame{:03d}.jpg'.format(number)]: the sign, then the decimal digits
    padded with zeros to three characters in all. *)
Definition format_03d (number : Z) : string :=
  let digits := pretty (Z.abs_N number) in
  let sign := if decide (number < 0)%Z then "-" else "" in
  let pad := (3 - String.length sign - String.length digits)%nat in
  sign +:+ String.concat "" (replicate pad "0") +:+ digits.

(** The directory of frames, the calls of [_SaveImage] in order, and the
    frames appended to [morph.mp4]. *)
Record world (P : Type) := {
  disk : gmap string (image P);
  saved : list (string * image P);
  video : list (option (image P))
}.
Arguments disk {P} w.
Arguments saved {P} w.
Arguments video {P} w.

Module Blender.

Record t (P : Type) := {
  startImage : image P;
  startPoints : points;
  endImage : image P;
  endPoints : points;
  triangles : list (nat * nat * nat)
}.
Arguments startImage {P} _.
Arguments startPoints {P} _.
Arguments endImage {P} _.
Arguments endPoints {P} _.
Arguments triangles {P} _.

Section blender.
Context {P : Type} `{Pixel P}.

(** [scipy.spatial.Delaunay(points).simplices], or the error it raises. *)
Variable Delaunay : points → result (list (nat * nat * nat)).
Variable polygon : points → nat → nat → bool.

(** [Blender(startImage, startPoints, endImage, endPoints)]; the first
    component lists the point sets handed to [Delaunay]. *)
Definition __init__ (startImage : pyobj (image P)) (startPoints : pyobj points)
    (endImage : pyobj (image P)) (endPoints : pyobj points)
    : list points * result (t P) :=
  match startImage, startPoints, endImage, endPoints with
  | ndarray si, ndarray sp, ndarray ei, ndarray ep =>
      ([sp]%list,
       triangles ←ᵣ Delaunay sp;
       Ok {| startImage := si; startPoints := sp; endImage := ei;
             endPoints := ep; triangles := triangles |})
  | _, _, _, _ => ([], Err TypeError)
  end.

Definition lerp (alpha : Qc) (p q : point) : point :=
  ((1 - alpha) * p.1 + alpha * q.1, (1 - alpha) * p.2 + alpha * q.2).

(** [(1 - alpha) * self.startPoints + alpha * self.endPoints], with the
    broadcasting of numpy on the number of rows. *)
Definition targetPoints (self : t P) (alpha : Qc) : result points :=
  let sp := startPoints self in
  let ep := endPoints self in
  if decide (length sp = length ep) then Ok (zip_with (lerp alpha) sp ep)
  else match sp, ep with
       | p :: [], _ => Ok ((λ q, lerp alpha p q) <$> ep)
       | _, q :: [] => Ok ((λ p, lerp alpha p q) <$> sp)
       | _, _ => Err ValueError
       end.

(** [np.array([[a[tri[0], 0], a[tri[0], 1]], ...], np.float64)] *)
Definition corners (a : points) (tri : nat * nat * nat) : result points :=
  match a !! tri.1.1, a !! tri.1.2, a !! tri.2 with
  | Some p0, Some p1, Some p2 => Ok [p0; p1; p2]
  | _, _, _ => Err IndexError
  end.

(** The pixel of row [r] and column [c] lies in the rasterized mask of one
    of the triangles [tris], with corners taken in [pts]. *)
Definition covered (pts : points) (tris : list (nat * nat * nat)) (r c : nat) : bool :=
  existsb (λ tri, match corners pts tri with
                  | Ok vertices => polygon vertices c r
                  | Err _ => false
                  end) tris.

(** The triangle [tri] of the point set [pts] exists and is not flat. *)
Definition nondegenerate (pts : points) (tri : nat * nat * nat) : Prop :=
  match corners pts tri with
  | Ok vertices => area2 vertices ≠ 0
  | Err _ => False
  end.

(** The sessions of the specification: two point sets of one length whose
    triangles are not flat, and two 8-bit images of one shape, with at least
    two rows and two columns. *)
Definition valid (self : t P) : Prop :=
  length (startPoints self) = length (endPoints self)
  ∧ Forall (λ tri, nondegenerate (startPoints self) tri
                   ∧ nondegenerate (endPoints self) tri) (triangles self)
  ∧ rectangular (startImage self) ∧ uint8_image (startImage self)
  ∧ uint8_image (endImage self)
  ∧ length <$> endImage self = length <$> startImage self
  ∧ (2 ≤ height (startImage self))%nat ∧ (2 ≤ width (startImage self))%nat.

(** The body of the loop over [self.triangles.simplices], on the two
    intermediate images. *)
Definition warp_triangle (self : t P) (targetPoints : points)
    (targets : image P * image P) (tri : nat * nat * nat)
    : result (image P * image P) :=
  currentStartPoints ←ᵣ corners (startPoints self) tri;
  currentEndPoints ←ᵣ corners (endPoints self) tri;
  currentTargetPoints ←ᵣ corners targetPoints tri;
  a1 ←ᵣ Affine.__init__ currentStartPoints currentTargetPoints;
  let targetStart := Affine.transform polygon a1 (startImage self) targets.1 in
  a2 ←ᵣ Affine.__init__ currentEndPoints currentTargetPoints;
  let targetEnd := Affine.transform polygon a2 (endImage self) targets.2 in
  Ok (targetStart, targetEnd).

Fixpoint warp_all (self : t P) (targetPoints : points)
    (targets : image P * image P) (tris : list (nat * nat * nat))
    : result (image P * image P) :=
  match tris with
  | [] => Ok targets
  | tri :: tris' =>
      targets' ←ᵣ warp_triangle self targetPoints targets tri;
      warp_all self targetPoints targets' tris'
  end.

(** [((1 - alpha) * targetStart + alpha * targetEnd).astype(dtype='uint8')];
    arrays of different shapes do not add (the broadcasting of an axis of
    length 1 is left out). *)
Definition dissolve_pixel (alpha : Qc) (p q : P) : P :=
  pixel_of (λ k, NumPy.astype_uint8
    (Some ((1 - alpha) * NumPy.of_int (ch p k) + alpha * NumPy.of_int (ch q k)))).

Definition cross_dissolve (alpha : Qc) (targetStart targetEnd : image P)
    : result (image P) :=
  if bool_decide (length <$> targetStart = length <$> targetEnd)
  then Ok (zip_with (zip_with (dissolve_pixel alpha)) targetStart targetEnd)
  else Err ValueError.

Definition getBlendedImage (self : t P) (alpha : Qc) : result (image P) :=
  targetPoints ←ᵣ targetPoints self alpha;
  let targetStart := Image_new (width (startImage self)) (height (startImage self)) in
  let targetEnd := Image_new (width (endImage self)) (height (endImage self)) in
  targets ←ᵣ warp_all self targetPoints (targetStart, targetEnd) (triangles self);
  cross_dissolve alpha targets.1 targets.2.

Definition _FrameName (number : Z) : string :=
  "frame" +:+ format_03d number +:+ ".jpg".

(** [_SaveImage]: the array is what the file holds (the encoding as JPEG
    is the work of PIL). *)
Definition _SaveImage (npArray : image P) (fileName : string) (w : world P) : world P :=
  {| disk := <[fileName := npArray]> (disk w);
     saved := saved w ++ [(fileName, npArray)]%list;
     video := video w |}.

(** The local variables of [generateMorphVideo]. *)
Record frame_state := {
  fs_world : world P;
  alpha_acc : Qc;
  imageList : list (image P);
  fileList : list string
}.

(** The loop [for i in range(sequenceLength - 2)], from index [i] on, with
    [rounds] rounds to go.  An exception of [getBlendedImage] leaves what
    has been written. *)
Fixpoint blend_loop (self : t P) (targetFolderPath : string) (increment : Qc)
    (rounds : nat) (i : Z) (st : frame_state) : frame_state * result unit :=
  match rounds with
  | O => (st, Ok ())
  | S rounds' =>
      let alpha := alpha_acc st + increment in
      match getBlendedImage self alpha with
      | Err e => ({| fs_world := fs_world st; alpha_acc := alpha;
                     imageList := imageList st; fileList := fileList st |}, Err e)
      | Ok image =>
          let name := targetFolderPath +:+ "/" +:+ _FrameName (i + 1) in
          blend_loop self targetFolderPath increment rounds' (i + 1)
            {| fs_world := _SaveImage image name (fs_world st);
               alpha_acc := alpha;
               imageList := imageList st ++ [image]%list;
               fileList := fileList st ++ [name]%list |}
      end
  end.

(** The loop [for image in reversed(imageList)]. *)
Fixpoint reversed_loop (targetFolderPath : string) (images : list (image P))
    (seqNum : Z) (st : frame_state) : frame_state :=
  match images with
  | [] => st
  | image :: images' =>
      let name := targetFolderPath +:+ "/" +:+ _FrameName seqNum in
      reversed_loop targetFolderPath images' (seqNum + 1)
        {| fs_world := _SaveImage image name (fs_world st);
           alpha_acc := alpha_acc st;
           imageList := imageList st;
           fileList := fileList st ++ [name]%list |}
  end.

(** [writer.append_data(io.imread(im))] for every path of [fileList]. *)
Definition write_video (files : list string) (w : world P) : world P :=
  {| disk := disk w; saved := saved w;
     video := video w ++ ((λ im, disk w !! im) <$> files) |}.

(** [generateMorphVideo(targetFolderPath, sequenceLength, includeReversed)]
    in a directory that exists: the world after the call and the exception,
    if any; on success, the final [fileList]. *)
Definition generateMorphVideo (self : t P) (targetFolderPath : string)
    (sequenceLength : Z) (includeReversed : bool) (w : world P)
    : world P * result (list string) :=
  let name1 := targetFolderPath +:+ "/" +:+ _FrameName 1 in
  let st := {| fs_world := _SaveImage (startImage self) name1 w;
               alpha_acc := 0;
               imageList := [startImage self]%list;
               fileList := [name1]%list |} in
  if decide ((sequenceLength - 2) + 1 = 0)%Z
  then (fs_world st, Err ZeroDivisionError)
  else
    let increment := 1 / NumPy.of_int ((sequenceLength - 2) + 1) in
    match blend_loop self targetFolderPath increment
            (Z.to_nat (sequenceLength - 2)) 0 st with
    | (st, Err e) => (fs_world st, Err e)
    | (st, Ok _) =>
        let nameL := targetFolderPath +:+ "/" +:+ _FrameName sequenceLength in
        let st := {| fs_world := _SaveImage (endImage self) nameL (fs_world st);
                     alpha_acc := alpha_acc st;
                     imageList := imageList st ++ [endImage self]%list;
                     fileList := fileList st ++ [nameL]%list |} in
        let st := if includeReversed
                  then reversed_loop targetFolderPath (reverse (imageList st))
                         (sequenceLength + 1) st
                  else st in
        (write_video (fileList st) (fs_world st), Ok (fileList st))
    end.

End blender.
End Blender.

(** [ColorBlender] inherits everything but [getBlendedImage], whose body is
    the one of [Blender] with the blank images and the transforms of mode
    ['RGB']: it is [Blender] at three channels. *)
Module ColorBlender.
Definition t := Blender.t (Z * Z * Z).
Definition getBlendedImage := Blender.getBlendedImage (P := Z * Z * Z).
Definition generateMorphVideo := Blender.generateMorphVideo (P := Z * Z * Z).
End ColorBlender.

(** ** The tests of [Affine] on its arguments

    [Affine.__init__] and [Affine.transform] above are given arrays.  The
    methods of the class are handed any Python values and test them first:
    here an argument is an array, with its shape, its [dtype] and its items,
    or something else. *)

Inductive dtype := float64 | float32 | int64 | uint8.

#[global] Instance dtype_eq_dec : EqDecision dtype.
Proof. solve_decision. Defined.

Record array := {
  shape : list nat;
  array_dtype : dtype;
  item : nat → nat → Qc      (* [a[i, j]] *)
}.

(** The rows of an array of two columns. *)
Definition points_of (a : array) : points :=
  (λ i, (item a i 0, item a i 1)) <$> seq 0 (default 0%nat (head (shape a))).

Module PyAffine.

Definition __init__ (source destination : pyobj array) : result Affine.t :=
  match source, destination with
  | ndarray s, ndarray d =>
      if bool_decide (shape s ≠ [3; 2]%nat ∨ shape d ≠ [3; 2]%nat) then Err ValueError
      else if bool_decide (array_dtype s ≠ float64 ∨ array_dtype d ≠ float64)
      then Err ValueError
      else Affine.__init__ (points_of s) (points_of d)
  | _, _ => Err ValueError
  end.

Definition transform {P} `{Pixel P} (polygon : points → nat → nat → bool)
    (self : Affine.t) (sourceImage destinationImage : pyobj (image P))
    : result (image P) :=
  match sourceImage, destinationImage with
  | ndarray src, ndarray dst => Ok (Affine.transform polygon self src dst)
  | _, _ => Err TypeError
  end.

(** What [__init__] accepts. *)
Definition accepted (o : pyobj array) : bool :=
  match o with
  | ndarray a => bool_decide (shape a = [3; 2]%nat) && bool_decide (array_dtype a = float64)
  | other => false
  end.

End PyAffine.

(** The points [pts] moved by [dx] columns and [dy] rows. *)
Definition shift (dx dy : Z) (pts : points) : points :=
  (λ p, (p.1 + NumPy.of_int dx, p.2 + NumPy.of_int dy)) <$> pts.

(** ** The channels of an image

    Channel [k] of an image, as a gray image, and the session on channel
    [k] of the two images of a session. *)
Definition rmap {A B} (f : A → B) (m : result A) : result B :=
  match m with Ok a => Ok (f a) | Err e => Err e end.

Section channel.
Context {P : Type} `{Pixel P}.

Definition channel (k : nat) (img : image P) : image Z :=
  (λ row : list P, (λ p, ch p k) <$> row) <$> img.

Definition channels2 (k : nat) (targets : image P * image P) : image Z * image Z :=
  (channel k targets.1, channel k targets.2).

Definition channel_session (k : nat) (self : Blender.t P) : Blender.t Z :=
  {| Blender.startImage := channel k (Blender.startImage self);
     Blender.startPoints := Blender.startPoints self;
     Blender.endImage := channel k (Blender.endImage self);
     Blender.endPoints := Blender.endPoints self;
     Blender.triangles := Blender.triangles self |}.

End channel.

(** The directory after the files [entries] have been written, in order. *)
Definition write_all {P} (entries : list (string * image P))
    (d : gmap string (image P)) : gmap string (image P) :=
  foldl (λ d e, <[e.1 := e.2]> d) d entries.

(** The digits of a frame number below 1000. *)
Definition three_digits (n : Z) : string :=
  let digit d := Ascii.ascii_of_nat (48 + Z.to_nat d) in
  String (digit (n `div` 100)%Z)
    (String (digit ((n `div` 10) `mod` 10)%Z) (String (digit (n `mod` 10)%Z) "")).

(** The state [st'] of [generateMorphVideo] is the state [st] after some
    calls of [_SaveImage], each with its path appended to [fileList]. *)
Definition extends {P} (st st' : Blender.frame_state (P := P)) : Prop :=
  ∃ new,
    saved (Blender.fs_world st') = saved (Blender.fs_world st) ++ new
    ∧ disk (Blender.fs_world st') = write_all new (disk (Blender.fs_world st))
    ∧ video (Blender.fs_world st') = video (Blender.fs_world st)
    ∧ Blender.fileList st' = Blender.fileList st ++ new.*1.

(** The numbers of the frames that follow the first one in the list of
    files: the blends, the end image and the reversed pass. *)
Definition tail_numbers (L : Z) (n : nat) (includeReversed : bool) : list Z :=
  ((λ j : nat, (1 + Z.of_nat j)%Z) <$> seq 0 n)
  ++ [L]%list
  ++ (if includeReversed then (λ j : nat, (L + 1 + Z.of_nat j)%Z) <$> seq 0 (S (S n))
      else []).

(** An empty directory. *)
Definition empty_world {P} : world P := {| disk := ∅; saved := []; video := [] |}.

(** ** Reference instances of the two library parameters

    They stand for the libraries in the concrete runs of this file. *)

Module Reference.

Definition orient (a b c : point) : Qc :=
  (b.1 - a.1) * (c.2 - a.2) - (c.1 - a.1) * (b.2 - a.2).

(** The pixels of the closed triangle.  On the triangles of the runs below,
    with corners on the pixel grid and sides that are horizontal, vertical
    or diagonal, these are the pixels that [ImageDraw.polygon] fills and
    outlines. *)
Definition polygon (vertices : points) (x y : nat) : bool :=
  match vertices with
  | [a; b; c] =>
      let p := (NumPy.of_int (Z.of_nat x), NumPy.of_int (Z.of_nat y)) in
      let d1 := orient a b p in
      let d2 := orient b c p in
      let d3 := orient c a p in
      (bool_decide (0 <= d1) && bool_decide (0 <= d2) && bool_decide (0 <= d3))
      || (bool_decide (d1 <= 0) && bool_decide (d2 <= 0) && bool_decide (d3 <= 0))
  | _ => false
  end.

(** [d] lies strictly inside the circle through [a], [b], [c]. *)
Definition in_circle (a b c d : point) : bool :=
  let lift (p : point) := (p.1 - d.1, p.2 - d.2,
                           (p.1 - d.1) * (p.1 - d.1) + (p.2 - d.2) * (p.2 - d.2)) in
  let '(ax, ay, az) := lift a in
  let '(bx, by_, bz) := lift b in
  let '(cx, cy, cz) := lift c in
  let det := ax * (by_ * cz - bz * cy) - ay * (bx * cz - bz * cx)
             + az * (bx * cy - by_ * cx) in
  bool_decide (0 < det * orient a b c).

(** The triangles whose circle contains no point of the set: for points in
    general position, the simplices of the Delaunay triangulation (in some
    order).  Fewer than three points, or points on one line, are an error
    of Qhull. *)
Definition Delaunay (pts : points) : result (list (nat * nat * nat)) :=
  let n := length pts in
  let at_ i := default (0, 0) (pts !! i) in
  let tris :=
    i ← seq 0 n; j ← seq 0 n; k ← seq 0 n;
    if bool_decide (i < j < k)%nat
       && negb (bool_decide (orient (at_ i) (at_ j) (at_ k) = 0))
       && forallb (λ d, negb (in_circle (at_ i) (at_ j) (at_ k) d)) pts
    then [(i, j, k)]%list else [] in
  match tris with
  | [] => Err QhullError
  | _ => Ok tris
  end.

End Reference.

(** [targetFolderPath + '/' + self._FrameName(number)] *)
Definition frame_path (folder : string) (number : Z) : string :=
  folder +:+ "/" +:+ Blender._FrameName number.

(** The paths of the frames numbered [first], [first + 1], ... *)
Definition frame_paths (folder : string) (first : Z) (n : nat) : list string :=
  (λ j, frame_path folder (first + Z.of_nat j)) <$> seq 0 n.

(** The images and the paths of the forward pass with [n] blends, in the
    order in which [generateMorphVideo] saves them: the blends are numbered
    from 1 again. *)
Definition forward_images {P} (self : Blender.t P) (blends : nat → image P) (n : nat)
    : list (image P) :=
  [Blender.startImage self]%list ++ (blends <$> seq 0 n) ++ [Blender.endImage self]%list.

Definition forward_paths (folder : string) (L : Z) (n : nat) : list string :=
  [frame_path folder 1]%list ++ frame_paths folder 1 n ++ [frame_path folder L]%list.

(** ** Concrete sessions

    Three landmarks on images of three rows and three columns; the
    triangle [small] covers the six pixels with [x + y <= 2]. *)

Module Example.

Definition p (x y : Z) : point := (NumPy.of_int x, NumPy.of_int y).

Definition small : points := [p 0 0; p 2 0; p 0 2].
Definition large : points := [p 0 0; p 4 0; p 0 4].
Definition flat : points := [p 0 0; p 1 1; p 2 2].

Definition ramp : image Z := [[1; 2; 3]; [4; 5; 6]; [7; 8; 9]]%Z.
Definition sevens : image Z := [[7; 7; 7]; [7; 7; 7]; [7; 7; 7]]%Z.

(** The session [Blender(ramp, small, sevens, small)]. *)
Definition session : Blender.t Z :=
  {| Blender.startImage := ramp; Blender.startPoints := small;
     Blender.endImage := sevens; Blender.endPoints := small;
     Blender.triangles := [(0, 1, 2)%nat]%list |}.

(** The same session on two colour images. *)
Definition colour (v : Z) : Z * Z * Z := (v, (2 * v)%Z, (255 - v)%Z).

Definition colour_session : ColorBlender.t :=
  {| Blender.startImage := map (map colour) ramp; Blender.startPoints := small;
     Blender.endImage := map (map colour) sevens; Blender.endPoints := small;
     Blender.triangles := [(0, 1, 2)%nat]%list |}.

(** The start landmarks with the last two exchanged, and the session whose
    triangle turns over on the way: half way its three target points lie on
    one line. *)
Definition crossed : points := [p 0 0; p 0 2; p 2 0].

Definition crossing : Blender.t Z :=
  {| Blender.startImage := ramp; Blender.startPoints := small;
     Blender.endImage := sevens; Blender.endPoints := crossed;
     Blender.triangles := [(0, 1, 2)%nat]%list |}.

(** Two end points for three start points. *)
Definition short : points := [p 0 0; p 2 0].

Definition mismatched : Blender.t Z :=
  {| Blender.startImage := ramp; Blender.startPoints := small;
     Blender.endImage := sevens; Blender.endPoints := short;
     Blender.triangles := [(0, 1, 2)%nat]%list |}.

Definition half : Qc := Q2Qc (1 # 2).

End Example.

(** * Properties *)

Module LinAlgFacts.
Import LinAlg.

Lemma dot_nil_l v : dot [] v = 0.
Proof. done. Qed.

Lemma dot_cons a u b v : dot (a :: u) (b :: v) = a * b + dot u v.
Proof. done. Qed.

Lemma dot_zip_sub (m : Qc) (u w x : vec) :
  length u = length w →
  dot (zip_with (λ a b, a - m * b) u w) x = dot u x - m * dot w x.
Proof.
  revert w x. induction u as [|a u IH]; intros [|b w] x Hlen; simplify_eq/=.
  - rewrite !dot_nil_l. ring.
  - destruct x as [|c x]; [unfold dot; simpl; ring|].
    rewrite !dot_cons, IH by done. ring.
Qed.

Lemma swap0_perm i rows : swap0 i rows ≡ₚ rows.
Proof.
  destruct i as [|j], rows as [|r0 rs]; simpl; try done.
  destruct (rs !! j) as [ri|] eqn:Hj; [|done].
  rewrite <- (take_drop_middle rs j ri Hj) at 2.
  rewrite insert_take_drop by (by eapply lookup_lt_Some).
  rewrite (Permutation_middle (take j rs)).
  rewrite (Permutation_middle (take j rs) _ r0).
  apply Permutation_app_head, perm_swap.
Qed.

Lemma argmax_abs_lt (col : list Qc) : col ≠ [] → (argmax_abs col < length col)%nat.
Proof.
  induction col as [|x xs IH]; [done|]; intros _; simpl.
  destruct (xs !! argmax_abs xs) eqn:E; [|lia].
  apply lookup_lt_Some in E. case_decide; lia.
Qed.

Lemma argmax_abs_max (col : list Qc) m :
  col !! argmax_abs col = Some m → Forall (λ x, Qcabs x <= Qcabs m) col.
Proof.
  revert m. induction col as [|x xs IH]; intros m; [done|]. simpl.
  destruct (xs !! argmax_abs xs) as [y|] eqn:E.
  - specialize (IH y eq_refl). case_decide as Hlt; simpl.
    + rewrite E. intros [= <-]. constructor; [by apply Qclt_le_weak|done].
    + intros [= <-]. apply Qcnot_lt_le in Hlt. constructor; [apply Qcle_refl|].
      eapply Forall_impl; [exact IH|]. intros z Hz; simpl in Hz.
      by eapply Qcle_trans.
  - simpl. intros [= <-]. constructor; [apply Qcle_refl|].
    destruct xs as [|z xs]; [done|].
    pose proof (argmax_abs_lt (z :: xs) ltac:(done)) as Hlt.
    apply lookup_lt_is_Some_2 in Hlt. rewrite E in Hlt. by destruct Hlt.
Qed.

Lemma swap0_lookup i rows p rest :
  (i < length rows)%nat → swap0 i rows = p :: rest → rows !! i = Some p.
Proof.
  destruct i as [|j], rows as [|r0 rs]; simpl; intros Hi; try lia.
  - by intros [= -> ->].
  - destruct (rs !! j) as [ri|] eqn:Hj.
    + by intros [= -> _].
    + apply lookup_ge_None in Hj. lia.
Qed.

(** With partial pivoting, a zero pivot means a zero column. *)
Lemma pivot_zero rows p rest :
  swap0 (argmax_abs (hd_coef <$> rows)) rows = p :: rest →
  hd_coef p = 0 → Forall (λ r, hd_coef r = 0) rows.
Proof.
  intros Hsw Hp.
  assert (rows ≠ []) as Hne.
  { intros ->. by destruct (argmax_abs _). }
  assert (hd_coef <$> rows ≠ []) as Hne' by (by destruct rows).
  pose proof (argmax_abs_lt _ Hne') as Hlt. rewrite length_fmap in Hlt.
  pose proof (swap0_lookup _ _ _ _ Hlt Hsw) as Hi.
  pose proof (argmax_abs_max (hd_coef <$> rows) (hd_coef p)) as Hmax.
  rewrite list_lookup_fmap, Hi in Hmax. specialize (Hmax eq_refl).
  rewrite Forall_fmap in Hmax. eapply Forall_impl; [exact Hmax|].
  intros r Hr; simpl in Hr. rewrite Hp in Hr.
  apply Qcabs_null. apply Qcle_antisym; [exact Hr|apply Qcabs_nonneg].
Qed.

Lemma dot_zeros (u : vec) n : dot u (replicate n 0) = 0.
Proof.
  revert n. induction u as [|a u IH]; intros [|n]; try done.
  simpl. rewrite dot_cons, IH. ring.
Qed.

Lemma wf_eliminate n p rest :
  wf (S n) (p :: rest) → wf n (eliminate p <$> rest).
Proof.
  unfold wf. rewrite Forall_cons, Forall_fmap. intros [Hp Hrest].
  eapply Forall_impl; [exact Hrest|]. intros r Hr; simpl in *.
  rewrite length_zip_with, !length_tl. lia.
Qed.

(** One elimination step preserves the solutions: [y0 :: ys] solves the
    pivot row and [r] exactly when it solves the pivot row and [ys] solves
    [r] with the first unknown eliminated. *)
Lemma eliminate_dot (p r : eqn) (ys : vec) :
  length r.1 = length p.1 →
  dot (eliminate p r).1 ys
  = dot (tail r.1) ys - hd_coef r / hd_coef p * dot (tail p.1) ys.
Proof.
  intros Hlen. unfold eliminate; simpl. apply dot_zip_sub.
  by rewrite !length_tl, Hlen.
Qed.

Lemma gauss_sound n : ∀ rows x,
  length rows = n → wf n rows → gauss n rows = Some x →
  length x = n ∧ sat x rows ∧ ∀ y, length y = n → sat y rows → y = x.
Proof.
  induction n as [|n IH]; intros rows x Hlen Hwf; simpl.
  { intros [= <-]. destruct rows; [|done]. split; [done|]. split; [constructor|].
    by intros [|??]. }
  destruct (swap0 _ rows) as [|p rest] eqn:Hsw; [done|].
  case_decide as Hc; [done|].
  destruct (gauss n (eliminate p <$> rest)) as [xs|] eqn:Hrec; [|done].
  simpl. intros [= <-].
  pose proof (swap0_perm (argmax_abs (hd_coef <$> rows)) rows) as Hperm.
  rewrite Hsw in Hperm.
  assert (wf (S n) (p :: rest)) as Hwf' by (unfold wf; by rewrite Hperm).
  assert (length rest = n) as Hlen'.
  { apply Permutation_length in Hperm. simpl in Hperm. lia. }
  assert (length (eliminate p <$> rest) = n) as Hlen'' by (by rewrite length_fmap).
  destruct (IH _ _ Hlen'' (wf_eliminate _ _ _ Hwf') Hrec) as (Hxs & Hsat & Huniq).
  destruct p as [[|c cs] v]; [by inversion Hwf'|].
  change (hd_coef (c :: cs, v)) with c in *.
  unfold wf in Hwf'. apply Forall_cons in Hwf' as [Hp Hrest]. simpl in Hp.
  split; [simpl; lia|]. split.
  - unfold sat. rewrite <- Hperm. constructor; simpl.
    + rewrite dot_cons. field. done.
    + unfold sat in Hsat. rewrite Forall_fmap in Hsat.
      eapply Forall_impl; [exact (List.Forall_and Hsat Hrest)|].
      intros [[|c' cs'] v'] [Hr Hr']; simpl in Hr'; [done|].
      cbv beta delta [compose] in Hr.
      rewrite eliminate_dot in Hr by (simpl; lia).
      simpl in Hr |- *.
      change (hd_coef (c' :: cs', v')) with c' in Hr.
      change (hd_coef (c :: cs, v)) with c in Hr.
      rewrite dot_cons.
      assert (dot cs' xs = v' - c' / c * v + c' / c * dot cs xs) as ->
        by (rewrite <- Hr; field; done).
      field. done.
  - intros [|y0 ys] Hy Hsaty; [done|]. simpl in Hy.
    unfold sat in Hsaty. rewrite <- Hperm in Hsaty.
    apply Forall_cons in Hsaty as [Hp0 Hrest0]. simpl in Hp0. rewrite dot_cons in Hp0.
    assert (ys = xs) as ->.
    { apply Huniq; [lia|]. unfold sat. rewrite Forall_fmap.
      eapply Forall_impl; [exact (List.Forall_and Hrest0 Hrest)|].
      intros [[|c' cs'] v'] [Hr Hr']; simpl in Hr'; [done|].
      cbv beta delta [compose].
      rewrite eliminate_dot by (simpl; lia).
      simpl in Hr |- *.
      change (hd_coef (c' :: cs', v')) with c'.
      change (hd_coef (c :: cs, v)) with c.
      rewrite dot_cons in Hr.
      rewrite <- Hr, <- Hp0. field. done. }
    f_equal. simpl. rewrite <- Hp0. field. done.
Qed.

(** When the elimination stops on a zero pivot, the homogeneous system has
    a solution other than zero. *)
Lemma gauss_complete n : ∀ rows,
  length rows = n → wf n rows → gauss n rows = None →
  ∃ k, length k = n ∧ k ≠ replicate n 0 ∧ kernel k rows.
Proof.
  induction n as [|n IH]; intros rows Hlen Hwf; simpl; [done|].
  pose proof (swap0_perm (argmax_abs (hd_coef <$> rows)) rows) as Hperm.
  destruct (swap0 _ rows) as [|p rest] eqn:Hsw.
  { apply Permutation_length in Hperm. simpl in Hperm. lia. }
  assert (wf (S n) (p :: rest)) as Hwf' by (unfold wf; by rewrite Hperm).
  assert (length rest = n) as Hlen'.
  { apply Permutation_length in Hperm. simpl in Hperm. lia. }
  case_decide as Hc.
  - intros _. exists (1 :: replicate n 0). split; [simpl; by rewrite length_replicate|].
    split; [done|].
    pose proof (pivot_zero _ _ _ Hsw Hc) as Hz.
    eapply Forall_impl; [exact (List.Forall_and Hz Hwf)|].
    intros [[|c cs] v] [Hr Hr']; simpl in *; [done|].
    unfold hd_coef in Hr; simpl in Hr. rewrite dot_cons, dot_zeros, Hr. ring.
  - destruct (gauss n (eliminate p <$> rest)) as [xs|] eqn:Hrec; [done|].
    intros _.
    assert (length (eliminate p <$> rest) = n) as Hlen'' by (by rewrite length_fmap).
    destruct (IH _ Hlen'' (wf_eliminate _ _ _ Hwf') Hrec) as (k & Hk & Hnz & Hker).
    destruct p as [[|c cs] v]; [by inversion Hwf'|].
    change (hd_coef (c :: cs, v)) with c in *.
    unfold wf in Hwf'. apply Forall_cons in Hwf' as [Hp Hrest]. simpl in Hp.
    exists (- (dot cs k) / c :: k). split; [simpl; lia|]. split.
    { simpl. intros [= _ Hk']. done. }
    unfold kernel. rewrite <- Hperm. constructor; simpl.
    + rewrite dot_cons. field. done.
    + unfold kernel in Hker. rewrite Forall_fmap in Hker.
      eapply Forall_impl; [exact (List.Forall_and Hker Hrest)|].
      intros [[|c' cs'] v'] [Hr Hr']; simpl in Hr'; [done|].
      cbv beta delta [compose] in Hr.
      rewrite eliminate_dot in Hr by (simpl; lia).
      simpl in Hr |- *.
      change (hd_coef (c' :: cs', v')) with c' in Hr.
      change (hd_coef (c :: cs, v)) with c in Hr.
      rewrite dot_cons.
      transitivity (dot cs' k - c' / c * dot cs k); [field; done|]. exact Hr.
Qed.

Lemma dot_zip_add (r x k : vec) :
  length x = length k → dot r (zip_with Qcplus x k) = dot r x + dot r k.
Proof.
  revert x k. induction r as [|a r IH]; intros [|b x] [|c k] Hlen; simplify_eq/=;
    rewrite ?dot_nil_l; try ring.
  - unfold dot; simpl; ring.
  - rewrite !dot_cons, IH by done. ring.
Qed.

Lemma zip_add_id (x k : vec) :
  length x = length k → zip_with Qcplus x k = x → k = replicate (length k) 0.
Proof.
  revert k. induction x as [|a x IH]; intros [|c k] Hlen; simplify_eq/=; [done|].
  intros [= Ha Hx]. f_equal; [|by apply IH].
  transitivity (a + c - a); [ring|]. rewrite Ha. ring.
Qed.

(** A system with a nonzero solution of its homogeneous part is found
    singular, whatever its right-hand side. *)
Lemma gauss_singular n rows k :
  length rows = n → wf n rows →
  length k = n → k ≠ replicate n 0 → kernel k rows →
  gauss n rows = None.
Proof.
  intros Hlen Hwf Hk Hnz Hker.
  destruct (gauss n rows) as [x|] eqn:Hg; [|done]. exfalso.
  destruct (gauss_sound _ _ _ Hlen Hwf Hg) as (Hx & Hsat & Huniq).
  apply Hnz. rewrite <- Hk. apply (zip_add_id x); [lia|].
  apply Huniq; [rewrite length_zip_with; lia|].
  eapply Forall_impl; [exact (List.Forall_and Hsat Hker)|].
  intros r [Hr Hr']; simpl in *. rewrite dot_zip_add by lia. rewrite Hr, Hr'. ring.
Qed.

Lemma sat_zip (A : list vec) (b x : vec) :
  length A = length b → sat x (zip A b) ↔ matvec A x = b.
Proof.
  unfold sat, matvec. revert b. induction A as [|r A IH]; intros [|v b] Hlen;
    simplify_eq/=.
  - split; [done|constructor].
  - rewrite Forall_cons, IH by done. simpl. split.
    + by intros [-> ->].
    + by intros [= -> ->].
Qed.

Lemma kernel_zip (A : list vec) (b k : vec) :
  length A = length b →
  kernel k (zip A b) ↔ matvec A k = replicate (length A) 0.
Proof.
  unfold kernel, matvec. revert b. induction A as [|r A IH]; intros [|v b] Hlen;
    simplify_eq/=.
  - split; [done|constructor].
  - rewrite Forall_cons, IH by done. simpl. split.
    + by intros [-> ->].
    + by intros [= -> ->].
Qed.

Lemma wf_zip (A : list vec) (b : vec) n :
  Forall (λ r, length r = n) A → wf n (zip A b).
Proof.
  unfold wf. revert b. induction A as [|r A IH]; intros [|v b] HA; simpl;
    try constructor; inversion HA; subst; auto.
Qed.

(** [numpy.linalg.solve] on a square matrix: it raises exactly on the
    singular ones and returns the one solution otherwise. *)
Lemma solve_Ok_inv (A : list vec) (b x : vec) :
  length b = length A → Forall (λ r, length r = length A) A →
  solve A b = Ok x →
  length x = length A ∧ matvec A x = b
  ∧ ∀ y, length y = length A → matvec A y = b → y = x.
Proof.
  intros Hb HA. unfold solve.
  destruct (gauss _ _) as [x'|] eqn:Hg; [|done]. intros [= ->].
  assert (length (zip A b) = length A) as Hlen by (rewrite length_zip; lia).
  destruct (gauss_sound _ _ _ Hlen (wf_zip _ _ _ HA) Hg) as (Hx & Hsat & Huniq).
  split; [done|]. split; [by apply sat_zip|].
  intros y Hy Hsy. apply Huniq; [done|]. by apply sat_zip.
Qed.

Lemma solve_regular (A : list vec) (b : vec) :
  length b = length A → Forall (λ r, length r = length A) A →
  (∀ k, length k = length A → matvec A k = replicate (length A) 0 →
        k = replicate (length A) 0) →
  ∃ x, solve A b = Ok x.
Proof.
  intros Hb HA Hinj. unfold solve.
  destruct (gauss _ _) as [x'|] eqn:Hg; [by eexists|]. exfalso.
  assert (length (zip A b) = length A) as Hlen by (rewrite length_zip; lia).
  destruct (gauss_complete _ _ Hlen (wf_zip _ _ _ HA) Hg) as (k & Hk & Hnz & Hker).
  apply Hnz, Hinj; [done|]. by apply (kernel_zip A b).
Qed.

Lemma solve_singular (A : list vec) (b k : vec) :
  length b = length A → Forall (λ r, length r = length A) A →
  length k = length A → k ≠ replicate (length A) 0 →
  matvec A k = replicate (length A) 0 →
  solve A b = Err LinAlgError.
Proof.
  intros Hb HA Hk Hnz Hker. unfold solve.
  assert (length (zip A b) = length A) as Hlen by (rewrite length_zip; lia).
  rewrite (gauss_singular _ _ k Hlen (wf_zip _ _ _ HA) Hk Hnz); [done|].
  by apply (kernel_zip A b).
Qed.

End LinAlgFacts.

(** ** The affine fit *)

Module AffineFacts.
Import LinAlg LinAlgFacts Affine.

Lemma Qc_mul_zero_l (a d : Qc) : d ≠ 0 → a * d = 0 → a = 0.
Proof.
  intros Hd Ha. transitivity (a * d / d); [field; done|]. rewrite Ha. field. done.
Qed.

Lemma cons_inv {A} (x y : A) (l l' : list A) : x :: l = y :: l' → x = y ∧ l = l'.
Proof. by intros [= -> ->]. Qed.

Ltac unroll :=
  unfold area2, px, py in *;
  cbn [matvec dot fmap list_fmap zip_with foldr replicate length
       lookup list_lookup default from_option id fst snd] in *.

(** The homogeneous system of a triangle that is not flat has the zero
    solution only. *)
Lemma triangle_regular (x0 y0 x1 y1 x2 y2 a b c : Qc) :
  (x1 - x0) * (y2 - y0) - (x2 - x0) * (y1 - y0) ≠ 0 →
  x0 * a + y0 * b + c = 0 → x1 * a + y1 * b + c = 0 → x2 * a + y2 * b + c = 0 →
  a = 0 ∧ b = 0 ∧ c = 0.
Proof.
  intros HD E0 E1 E2.
  assert (a = 0) as ->.
  { apply (Qc_mul_zero_l _ _ HD).
    transitivity ((y2 - y0) * ((x1 * a + y1 * b + c) - (x0 * a + y0 * b + c))
                  - (y1 - y0) * ((x2 * a + y2 * b + c) - (x0 * a + y0 * b + c)));
      [ring|]. rewrite E0, E1, E2. ring. }
  assert (b = 0) as ->.
  { apply (Qc_mul_zero_l _ _ HD).
    transitivity ((x1 - x0) * ((x2 * 0 + y2 * b + c) - (x0 * 0 + y0 * b + c))
                  - (x2 - x0) * ((x1 * 0 + y1 * b + c) - (x0 * 0 + y0 * b + c)));
      [ring|]. rewrite E0, E1, E2. ring. }
  split; [done|]. split; [done|]. rewrite <- E0. ring.
Qed.

Lemma system_A_regular (source : points) (k : vec) :
  length source = 3%nat → area2 source ≠ 0 →
  length k = 6%nat →
  matvec (Affine.system_A source) k = replicate 6 0 → k = replicate 6 0.
Proof.
  intros Hs HD Hk Hker.
  destruct source as [|[x0 y0] [|[x1 y1] [|[x2 y2] [|? ?]]]]; try done.
  destruct k as [|a [|b [|c [|d [|e [|f [|??]]]]]]]; try done.
  unfold Affine.system_A in Hker. unroll.
  apply cons_inv in Hker as [E0 Hker]. apply cons_inv in Hker as [F0 Hker].
  apply cons_inv in Hker as [E1 Hker]. apply cons_inv in Hker as [F1 Hker].
  apply cons_inv in Hker as [E2 Hker]. apply cons_inv in Hker as [F2 _].
  destruct (triangle_regular x0 y0 x1 y1 x2 y2 a b c HD) as (-> & -> & ->);
    [rewrite <- E0; ring | rewrite <- E1; ring | rewrite <- E2; ring |].
  destruct (triangle_regular x0 y0 x1 y1 x2 y2 d e f HD) as (-> & -> & ->);
    [rewrite <- F0; ring | rewrite <- F1; ring | rewrite <- F2; ring |].
  done.
Qed.

Lemma system_A_shape (source : points) :
  Forall (λ r : vec, length r = length (Affine.system_A source)) (Affine.system_A source).
Proof. unfold Affine.system_A. repeat constructor. Qed.

(** What a successful [_CreateMatrix] returns: the six coefficients are the
    one affine map that sends corner [i] of the source to corner [i] of the
    destination. *)
Lemma CreateMatrix_Ok_inv (source destination : points) M :
  Affine._CreateMatrix source destination = Ok M →
  ∃ h0 h1 h2 h3 h4 h5,
    M = [[h0; h1; h2]; [h3; h4; h5]; [0; 0; 1]]
    ∧ (∀ i, (i < 3)%nat →
         h0 * px source i + h1 * py source i + h2 = px destination i
         ∧ h3 * px source i + h4 * py source i + h5 = py destination i)
    ∧ (∀ g0 g1 g2 g3 g4 g5,
         (∀ i, (i < 3)%nat →
            g0 * px source i + g1 * py source i + g2 = px destination i
            ∧ g3 * px source i + g4 * py source i + g5 = py destination i) →
         [g0; g1; g2; g3; g4; g5] = [h0; h1; h2; h3; h4; h5]).
Proof.
  unfold Affine._CreateMatrix.
  destruct (solve _ _) as [H|] eqn:Hs; [|done]. simpl. intros [= <-].
  destruct (solve_Ok_inv (Affine.system_A source) (Affine.system_b destination) H
              eq_refl (system_A_shape source) Hs) as (HH & Hsat & Huniq).
  destruct H as [|h0 [|h1 [|h2 [|h3 [|h4 [|h5 [|??]]]]]]]; try done.
  exists h0, h1, h2, h3, h4, h5. split; [done|].
  unfold Affine.system_A, Affine.system_b in *. split.
  - cbn [matvec dot fmap list_fmap zip_with foldr] in Hsat.
    apply cons_inv in Hsat as [E0 Hsat]. apply cons_inv in Hsat as [F0 Hsat].
    apply cons_inv in Hsat as [E1 Hsat]. apply cons_inv in Hsat as [F1 Hsat].
    apply cons_inv in Hsat as [E2 Hsat]. apply cons_inv in Hsat as [F2 _].
    intros [|[|[|i]]] Hi; try lia.
    + split; [rewrite <- E0|rewrite <- F0]; ring.
    + split; [rewrite <- E1|rewrite <- F1]; ring.
    + split; [rewrite <- E2|rewrite <- F2]; ring.
  - intros g0 g1 g2 g3 g4 g5 Hg. apply Huniq; [done|].
    cbn [matvec dot fmap list_fmap zip_with foldr].
    destruct (Hg 0%nat ltac:(lia)) as [E0 F0].
    destruct (Hg 1%nat ltac:(lia)) as [E1 F1].
    destruct (Hg 2%nat ltac:(lia)) as [E2 F2].
    rewrite <- E0, <- F0, <- E1, <- F1, <- E2, <- F2.
    repeat (apply (f_equal2 cons); [ring|]). done.
Qed.

Lemma CreateMatrix_regular (source destination : points) :
  length source = 3%nat → area2 source ≠ 0 →
  ∃ M, Affine._CreateMatrix source destination = Ok M.
Proof.
  intros Hs HD. unfold Affine._CreateMatrix.
  destruct (solve_regular (Affine.system_A source) (Affine.system_b destination)
              eq_refl (system_A_shape source)) as [H HH].
  { intros k Hk. by apply system_A_regular. }
  rewrite HH. simpl. by eexists.
Qed.

Lemma linear_part_regular (h0 h1 h3 h4 u v : Qc) :
  h0 * h4 - h1 * h3 ≠ 0 → h0 * u + h1 * v = 0 → h3 * u + h4 * v = 0 →
  u = 0 ∧ v = 0.
Proof.
  intros Hdet E0 E1. split; apply (Qc_mul_zero_l _ _ Hdet).
  - transitivity (h4 * (h0 * u + h1 * v) - h1 * (h3 * u + h4 * v)); [ring|].
    rewrite E0, E1. ring.
  - transitivity (h0 * (h3 * u + h4 * v) - h3 * (h0 * u + h1 * v)); [ring|].
    rewrite E0, E1. ring.
Qed.

Lemma affine_matrix_regular (h0 h1 h2 h3 h4 h5 : Qc) (k : vec) :
  h0 * h4 - h1 * h3 ≠ 0 → length k = 3%nat →
  matvec (affine_matrix h0 h1 h2 h3 h4 h5) k = replicate 3 0 → k = replicate 3 0.
Proof.
  intros Hdet Hk Hker. destruct k as [|u [|v [|w [|??]]]]; try done.
  unfold affine_matrix in Hker. unroll.
  apply cons_inv in Hker as [E0 Hker]. apply cons_inv in Hker as [E1 Hker].
  apply cons_inv in Hker as [E2 _].
  assert (w = 0) as -> by (rewrite <- E2; ring).
  destruct (linear_part_regular h0 h1 h3 h4 u v Hdet) as [-> ->];
    [rewrite <- E0; ring | rewrite <- E1; ring | done].
Qed.

Lemma affine_matrix_shape h0 h1 h2 h3 h4 h5 :
  Forall (λ r : vec, length r = length (affine_matrix h0 h1 h2 h3 h4 h5))
         (affine_matrix h0 h1 h2 h3 h4 h5).
Proof. unfold affine_matrix. repeat constructor. Qed.

(** A successful [inv] of a matrix with three rows: its columns solve the
    three systems [M c = e_j]. *)
Lemma inv_Ok_inv (M N : list vec) :
  length M = 3%nat → inv M = Ok N →
  ∃ c0 c1 c2,
    solve M (unit_vec 3 0) = Ok c0 ∧ solve M (unit_vec 3 1) = Ok c1
    ∧ solve M (unit_vec 3 2) = Ok c2
    ∧ N = [column 0 [c0; c1; c2]; column 1 [c0; c1; c2]; column 2 [c0; c1; c2]].
Proof.
  intros HM. unfold inv. rewrite HM. cbn [seq mapM].
  destruct (solve M (unit_vec 3 0)) as [c0|]; [|done].
  destruct (solve M (unit_vec 3 1)) as [c1|]; [|done].
  destruct (solve M (unit_vec 3 2)) as [c2|]; [|done].
  simpl. intros [= <-]. by exists c0, c1, c2.
Qed.

Lemma inv_regular h0 h1 h2 h3 h4 h5 :
  h0 * h4 - h1 * h3 ≠ 0 → ∃ N, inv (affine_matrix h0 h1 h2 h3 h4 h5) = Ok N.
Proof.
  intros Hdet. unfold inv. cbn [length affine_matrix seq mapM].
  pose proof (λ b Hb, solve_regular (affine_matrix h0 h1 h2 h3 h4 h5) b Hb
     (affine_matrix_shape _ _ _ _ _ _)
     (λ k Hk, affine_matrix_regular _ _ _ _ _ _ k Hdet Hk)) as Hsolve.
  destruct (Hsolve (unit_vec 3 0) eq_refl) as [c0 ->].
  destruct (Hsolve (unit_vec 3 1) eq_refl) as [c1 ->].
  destruct (Hsolve (unit_vec 3 2) eq_refl) as [c2 ->].
  simpl. by eexists.
Qed.

(** The inverse that [inv] returns undoes the matrix on every vector. *)
Lemma inv_affine_matrix h0 h1 h2 h3 h4 h5 N (x y w : Qc) :
  h0 * h4 - h1 * h3 ≠ 0 →
  inv (affine_matrix h0 h1 h2 h3 h4 h5) = Ok N →
  matvec N (matvec (affine_matrix h0 h1 h2 h3 h4 h5) [x; y; w]) = [x; y; w].
Proof.
  intros Hdet HN.
  destruct (inv_Ok_inv (affine_matrix h0 h1 h2 h3 h4 h5) N eq_refl HN) as (c0 & c1 & c2 & H0 & H1 & H2 & ->).
  destruct (solve_Ok_inv (affine_matrix h0 h1 h2 h3 h4 h5) (unit_vec 3 0) _ eq_refl
              (affine_matrix_shape _ _ _ _ _ _) H0)
    as (L0 & S0 & _).
  destruct (solve_Ok_inv (affine_matrix h0 h1 h2 h3 h4 h5) (unit_vec 3 1) _ eq_refl
              (affine_matrix_shape _ _ _ _ _ _) H1)
    as (L1 & S1 & _).
  destruct (solve_Ok_inv (affine_matrix h0 h1 h2 h3 h4 h5) (unit_vec 3 2) _ eq_refl
              (affine_matrix_shape _ _ _ _ _ _) H2)
    as (L2 & S2 & _).
  destruct c0 as [|c00 [|c01 [|c02 [|??]]]]; try done.
  destruct c1 as [|c10 [|c11 [|c12 [|??]]]]; try done.
  destruct c2 as [|c20 [|c21 [|c22 [|??]]]]; try done.
  change (unit_vec 3 0) with ([1; 0; 0] : vec) in *.
  change (unit_vec 3 1) with ([0; 1; 0] : vec) in *.
  change (unit_vec 3 2) with ([0; 0; 1] : vec) in *.
  clear HN H0 H1 H2 L0 L1 L2.
  unfold affine_matrix, column in *. unroll.
  apply cons_inv in S0 as [A0 S0]. apply cons_inv in S0 as [B0 S0].
  apply cons_inv in S0 as [C0 _].
  apply cons_inv in S1 as [A1 S1]. apply cons_inv in S1 as [B1 S1].
  apply cons_inv in S1 as [C1 _].
  apply cons_inv in S2 as [A2 S2]. apply cons_inv in S2 as [B2 S2].
  apply cons_inv in S2 as [C2 _].
  assert (c02 = 0) as -> by (rewrite <- C0; ring).
  assert (c12 = 0) as -> by (rewrite <- C1; ring).
  assert (c22 = 1) as -> by (rewrite <- C2; ring).
  clear C0 C1 C2.
  set (z0 := c00 * (h0 * x + h1 * y + h2 * w) + c10 * (h3 * x + h4 * y + h5 * w) + c20 * w).
  set (z1 := c01 * (h0 * x + h1 * y + h2 * w) + c11 * (h3 * x + h4 * y + h5 * w) + c21 * w).
  destruct (linear_part_regular h0 h1 h3 h4 (z0 - x) (z1 - y) Hdet) as [K0 K1].
  { transitivity
      ((h0 * c00 + (h1 * c01 + (h2 * 0 + 0))) * (h0 * x + h1 * y + h2 * w)
       + (h0 * c10 + (h1 * c11 + (h2 * 0 + 0))) * (h3 * x + h4 * y + h5 * w)
       + (h0 * c20 + (h1 * c21 + (h2 * 1 + 0))) * w
       - (h0 * x + h1 * y + h2 * w)); [unfold z0, z1; ring|].
    rewrite A0, A1, A2. ring. }
  { transitivity
      ((h3 * c00 + (h4 * c01 + (h5 * 0 + 0))) * (h0 * x + h1 * y + h2 * w)
       + (h3 * c10 + (h4 * c11 + (h5 * 0 + 0))) * (h3 * x + h4 * y + h5 * w)
       + (h3 * c20 + (h4 * c21 + (h5 * 1 + 0))) * w
       - (h3 * x + h4 * y + h5 * w)); [unfold z0, z1; ring|].
    rewrite B0, B1, B2. ring. }
  apply (f_equal2 cons); [|apply (f_equal2 cons); [|apply (f_equal2 cons); [|done]]].
  - transitivity (z0 - x + x); [unfold z0; ring|]. rewrite K0. ring.
  - transitivity (z1 - y + y); [unfold z1; ring|]. rewrite K1. ring.
  - ring.
Qed.

(** The linear part of the fitted map scales areas by the ratio of the two
    triangles. *)
Lemma fitted_determinant (source destination : points) (h0 h1 h2 h3 h4 h5 : Qc) :
  length source = 3%nat → length destination = 3%nat →
  (∀ i, (i < 3)%nat →
     h0 * px source i + h1 * py source i + h2 = px destination i
     ∧ h3 * px source i + h4 * py source i + h5 = py destination i) →
  (h0 * h4 - h1 * h3) * area2 source = area2 destination.
Proof.
  intros Hs Hd Hfit.
  destruct (Hfit 0%nat ltac:(lia)) as [E0 F0].
  destruct (Hfit 1%nat ltac:(lia)) as [E1 F1].
  destruct (Hfit 2%nat ltac:(lia)) as [E2 F2].
  unfold area2. rewrite <- E0, <- F0, <- E1, <- F1, <- E2, <- F2. ring.
Qed.

(** Two triangles that are not flat can be fitted. *)
Lemma init_regular (source destination : points) :
  length source = 3%nat → length destination = 3%nat →
  area2 source ≠ 0 → area2 destination ≠ 0 →
  ∃ a, Affine.__init__ source destination = Ok a.
Proof.
  intros Hs Hd HDs HDd. unfold Affine.__init__.
  rewrite bool_decide_eq_true_2 by done. simpl.
  destruct (CreateMatrix_regular source destination Hs HDs) as [M HM]. rewrite HM.
  destruct (CreateMatrix_Ok_inv _ _ _ HM) as (h0 & h1 & h2 & h3 & h4 & h5 & -> & Hfit & _).
  assert (h0 * h4 - h1 * h3 ≠ 0) as Hdet.
  { intros Hz. apply HDd. rewrite <- (fitted_determinant _ _ _ _ _ _ _ _ Hs Hd Hfit).
    rewrite Hz. ring. }
  fold (Affine.affine_matrix h0 h1 h2 h3 h4 h5).
  destruct (inv_regular h0 h1 h2 h3 h4 h5 Hdet) as [N HN]. simpl. rewrite HN. simpl.
  by eexists.
Qed.

(** A flat triangle gives a singular system. *)
Lemma system_A_singular (source : points) :
  length source = 3%nat → area2 source = 0 →
  ∃ k, length k = 6%nat ∧ k ≠ replicate 6 0
       ∧ matvec (Affine.system_A source) k = replicate 6 0.
Proof.
  intros Hs HD.
  destruct source as [|[x0 y0] [|[x1 y1] [|[x2 y2] [|? ?]]]]; try done.
  unfold Affine.system_A. unroll.
  assert (∀ a b c : Qc, (a, b, c) ≠ (0, 0, 0) → [a; b; c; 0; 0; 0] ≠ [0; 0; 0; 0; 0; 0])
    as Hnz.
  { intros a b c Hne Heq. apply Hne.
    apply cons_inv in Heq as [-> Heq]. apply cons_inv in Heq as [-> Heq].
    by apply cons_inv in Heq as [-> _]. }
  assert (∀ a b c : Qc,
            x0 * a + y0 * b + c = 0 → x1 * a + y1 * b + c = 0 →
            x2 * a + y2 * b + c = 0 →
            [x0 * a + (y0 * b + (1 * c + (0 * 0 + (0 * 0 + (0 * 0 + 0)))));
             0 * a + (0 * b + (0 * c + (x0 * 0 + (y0 * 0 + (1 * 0 + 0)))));
             x1 * a + (y1 * b + (1 * c + (0 * 0 + (0 * 0 + (0 * 0 + 0)))));
             0 * a + (0 * b + (0 * c + (x1 * 0 + (y1 * 0 + (1 * 0 + 0)))));
             x2 * a + (y2 * b + (1 * c + (0 * 0 + (0 * 0 + (0 * 0 + 0)))));
             0 * a + (0 * b + (0 * c + (x2 * 0 + (y2 * 0 + (1 * 0 + 0)))))]
            = [0; 0; 0; 0; 0; 0]) as Hker.
  { intros a b c E0 E1 E2.
    repeat (apply (f_equal2 cons);
            [first [ring | etransitivity; [|exact E0]; ring
                   | etransitivity; [|exact E1]; ring
                   | etransitivity; [|exact E2]; ring]|]).
    done. }
  destruct (decide (y1 = y2)) as [Hy|Hy]; [destruct (decide (x1 = x2)) as [Hx|Hx]|].
  - (* the second and the third corner coincide *)
    subst x2 y2.
    destruct (decide (y0 = y1)) as [Hy0|Hy0]; [destruct (decide (x0 = x1)) as [Hx0|Hx0]|].
    + subst x1 y1. exists [1; 0; - x0; 0; 0; 0]. split; [done|]. split.
      * apply Hnz. intros Heq. by apply (f_equal (λ t, t.1.1)) in Heq.
      * apply Hker; ring.
    + exists [y0 - y1; x1 - x0; x0 * y1 - x1 * y0; 0; 0; 0]. split; [done|]. split.
      * apply Hnz. intros Heq. apply (f_equal (λ t, t.1.2)) in Heq. simpl in Heq.
        apply Hx0. transitivity (x1 - (x1 - x0)); [ring|]. rewrite Heq. ring.
      * apply Hker; ring.
    + exists [y0 - y1; x1 - x0; x0 * y1 - x1 * y0; 0; 0; 0]. split; [done|]. split.
      * apply Hnz. intros Heq. apply (f_equal (λ t, t.1.1)) in Heq. simpl in Heq.
        apply Hy0. transitivity (y0 - y1 + y1); [ring|]. rewrite Heq. ring.
      * apply Hker; ring.
  - exists [y1 - y2; x2 - x1; x1 * y2 - x2 * y1; 0; 0; 0]. split; [done|]. split.
    + apply Hnz. intros Heq. apply (f_equal (λ t, t.1.2)) in Heq. simpl in Heq.
      apply Hx. transitivity (x2 - (x2 - x1)); [ring|]. rewrite Heq. ring.
    + apply Hker; [|ring|ring].
      transitivity ((x1 - x0) * (y2 - y0) - (x2 - x0) * (y1 - y0)); [ring|done].
  - exists [y1 - y2; x2 - x1; x1 * y2 - x2 * y1; 0; 0; 0]. split; [done|]. split.
    + apply Hnz. intros Heq. apply (f_equal (λ t, t.1.1)) in Heq. simpl in Heq.
      apply Hy. transitivity (y1 - y2 + y2); [ring|]. rewrite Heq. ring.
    + apply Hker; [|ring|ring].
      transitivity ((x1 - x0) * (y2 - y0) - (x2 - x0) * (y1 - y0)); [ring|done].
Qed.

End AffineFacts.

(** ** Rounding, casts and channels *)

Module NumPyFacts.
Import NumPy.

Lemma floor_of_int (z : Z) : floor (of_int z) = z.
Proof.
  exact (Qfloor_Z z).
Qed.

Lemma ceil_of_int (z : Z) : ceil (of_int z) = z.
Proof.
  exact (Qceiling_Z z).
Qed.

Lemma of_int_sub_self (z : Z) : of_int z - of_int z = 0.
Proof. ring. Qed.

Lemma round_of_int (z : Z) : round (of_int z) = of_int z.
Proof.
  unfold round. rewrite floor_of_int, of_int_sub_self.
  by rewrite decide_True.
Qed.

Lemma trunc_of_int (z : Z) : trunc (of_int z) = z.
Proof. unfold trunc. case_decide; [apply floor_of_int|apply ceil_of_int]. Qed.

Lemma astype_uint8_of_int (z : Z) :
  (0 ≤ z < 256)%Z → astype_uint8 (Some (of_int z)) = z.
Proof. intros Hz. unfold astype_uint8. rewrite trunc_of_int. by apply Z.mod_small. Qed.

(** Rounding and storing a sample that is already a [uint8] value. *)
Lemma astype_round_of_int (z : Z) :
  (0 ≤ z < 256)%Z → astype_uint8 (round <$> Some (of_int z)) = z.
Proof. intros Hz. simpl. rewrite round_of_int. by apply astype_uint8_of_int. Qed.

Lemma floor_range (q : Qc) (lo hi : Z) :
  of_int lo <= q → q <= of_int hi → (lo ≤ floor q ≤ hi)%Z.
Proof.
  intros Hlo Hhi. split.
  - rewrite <- (floor_of_int lo). by apply Qfloor_resp_le.
  - rewrite <- (floor_of_int hi). by apply Qfloor_resp_le.
Qed.

End NumPyFacts.

Module PixelFacts.
Section pixel_facts.
Context {P : Type} `{Pixel P}.

Lemma chans_pixel_of (f : nat → Z) : chans (pixel_of f) = f <$> seq 0 nchan.
Proof. unfold pixel_of. apply chans_of_chans. by rewrite length_fmap, length_seq. Qed.

Lemma ch_pixel_of (f : nat → Z) (k : nat) : (k < nchan)%nat → ch (pixel_of f) k = f k.
Proof.
  intros Hk. unfold ch. rewrite chans_pixel_of, list_lookup_fmap.
  by rewrite lookup_seq_lt.
Qed.

Lemma pixel_ext (p q : P) : (∀ k, (k < nchan)%nat → ch p k = ch q k) → p = q.
Proof.
  intros Hpq. rewrite <- (of_chans_chans p), <- (of_chans_chans q). f_equal.
  apply list_eq. intros k. destruct (decide (k < nchan)%nat) as [Hk|Hk].
  - specialize (Hpq k Hk). unfold ch in Hpq.
    destruct (lookup_lt_is_Some_2 (chans p) k) as [a Ha]; [by rewrite length_chans|].
    destruct (lookup_lt_is_Some_2 (chans q) k) as [b Hb]; [by rewrite length_chans|].
    rewrite Ha, Hb in *. simpl in Hpq. by subst.
  - rewrite !lookup_ge_None_2; [done|rewrite length_chans; lia..].
Qed.

Lemma pixel_of_ch (p : P) : pixel_of (ch p) = p.
Proof. apply pixel_ext. intros k Hk. by rewrite ch_pixel_of. Qed.

Lemma pixel_of_ext (f g : nat → Z) :
  (∀ k, (k < nchan)%nat → f k = g k) → pixel_of f = pixel_of g.
Proof. intros Hfg. apply pixel_ext. intros k Hk. rewrite !ch_pixel_of by done. auto. Qed.

Lemma ch_in_chans (p : P) (k : nat) : (k < nchan)%nat → ch p k ∈ chans p.
Proof.
  intros Hk. unfold ch.
  destruct (lookup_lt_is_Some_2 (chans p) k) as [a Ha]; [by rewrite length_chans|].
  rewrite Ha. simpl. by eapply list_elem_of_lookup_2.
Qed.

Lemma uint8_image_getpixel (img : image P) (r c : nat) (p : P) (k : nat) :
  uint8_image img → getpixel img r c = Some p → (k < nchan)%nat →
  (0 ≤ ch p k < 256)%Z.
Proof.
  unfold uint8_image, getpixel. intros Himg Hp Hk.
  destruct (img !! r) as [row|] eqn:Hr; [|done]. simpl in Hp.
  rewrite Forall_forall in Himg. specialize (Himg row (list_elem_of_lookup_2 _ _ _ Hr)).
  rewrite Forall_forall in Himg. specialize (Himg p (list_elem_of_lookup_2 _ _ _ Hp)).
  rewrite Forall_forall in Himg. by apply Himg, ch_in_chans.
Qed.

Lemma getpixel_Image_new (w h r c : nat) :
  getpixel (Image_new (P := P) w h) r c
  = if decide ((r < h)%nat ∧ (c < w)%nat) then Some (pixel_of (λ _, 0%Z)) else None.
Proof.
  unfold getpixel, Image_new. case_decide as Hd.
  - destruct Hd. rewrite lookup_replicate_2 by done. simpl.
    by rewrite lookup_replicate_2.
  - destruct (decide (r < h)%nat).
    + rewrite lookup_replicate_2 by done. simpl. apply lookup_replicate_None. lia.
    + destruct (replicate h _ !! r) eqn:E; [|done].
      apply lookup_replicate in E. lia.
Qed.

Lemma getpixel_lt (img : image P) (r c : nat) (p : P) :
  rectangular img → getpixel img r c = Some p →
  (r < height img)%nat ∧ (c < width img)%nat.
Proof.
  unfold rectangular, getpixel, height. intros Hrect Hp.
  destruct (img !! r) as [row|] eqn:Hr; [|done]. simpl in Hp.
  split; [by eapply lookup_lt_Some|].
  rewrite Forall_forall in Hrect. rewrite <- (Hrect row (list_elem_of_lookup_2 _ _ _ Hr)).
  by eapply lookup_lt_Some.
Qed.

Lemma getpixel_is_Some (img : image P) (r c : nat) :
  rectangular img → (r < height img)%nat → (c < width img)%nat →
  is_Some (getpixel img r c).
Proof.
  unfold rectangular, getpixel, height. intros Hrect Hr Hc.
  destruct (lookup_lt_is_Some_2 img r Hr) as [row Hrow]. rewrite Hrow. simpl.
  apply lookup_lt_is_Some_2.
  rewrite Forall_forall in Hrect. by rewrite (Hrect row (list_elem_of_lookup_2 _ _ _ Hrow)).
Qed.

End pixel_facts.
End PixelFacts.

(** ** Pixel buffers and the write of [transform] *)

Module ImageFacts.
Section image_facts.
Context {P : Type} `{Pixel P}.

Lemma getpixel_setpixel (img : image P) (r c r' c' : nat) (p : P) :
  getpixel (setpixel img r c p) r' c'
  = if decide (r = r' ∧ c = c') then (λ _, p) <$> getpixel img r c
    else getpixel img r' c'.
Proof.
  unfold getpixel, setpixel. destruct (img !! r) as [row|] eqn:Hr; simpl.
  - destruct (decide (r = r')) as [<-|Hne].
    + rewrite list_lookup_insert_eq by (by eapply lookup_lt_Some). rewrite Hr. simpl.
      destruct (decide (c = c')) as [<-|Hne].
      * rewrite decide_True by done.
        destruct (row !! c) eqn:Hc; simpl.
        -- rewrite list_lookup_insert_eq; [done|by eapply lookup_lt_Some].
        -- apply lookup_ge_None in Hc. rewrite list_insert_ge by done.
           by apply lookup_ge_None.
      * rewrite decide_False by tauto. by rewrite list_lookup_insert_ne.
    + rewrite decide_False by tauto. by rewrite list_lookup_insert_ne.
  - case_decide as Hd; [|done]. destruct Hd as [<- <-]. by rewrite Hr.
Qed.

(** The one write of [transform], pixel by pixel. *)
Lemma getpixel_assign (f : nat * nat → P) (sparse : list (nat * nat))
    (img : image P) (r c : nat) :
  getpixel (Affine.assign img sparse (f <$> sparse)) r c
  = if decide ((r, c) ∈ sparse) then (λ _, f (r, c)) <$> getpixel img r c
    else getpixel img r c.
Proof.
  unfold Affine.assign. revert img.
  induction sparse as [|[r0 c0] sparse IH]; intros img.
  { rewrite decide_False; [done|]. apply not_elem_of_nil. }
  cbn [fmap list_fmap zip zip_with foldl] in *. rewrite IH, getpixel_setpixel.
  cbn [fst snd].
  destruct (decide ((r, c) ∈ sparse)) as [Hin|Hin].
  - rewrite (decide_True (P := (r, c) ∈ (r0, c0) :: sparse)) by (by right).
    case_decide as Heq; [|done]. destruct Heq as [-> ->].
    by destruct (getpixel img r c).
  - case_decide as Heq.
    + destruct Heq as [-> ->]. by rewrite (decide_True (P := (r, c) ∈ (r, c) :: sparse)) by left.
    + rewrite (decide_False (P := (r, c) ∈ (r0, c0) :: sparse)); [done|].
      rewrite elem_of_cons. intros [[= -> ->]|?]; tauto.
Qed.

Lemma elem_of_find (mask : list (list Z)) (r c : nat) :
  (r, c) ∈ SciPy.find mask ↔ ∃ row v, mask !! r = Some row ∧ row !! c = Some v ∧ v ≠ 0%Z.
Proof.
  unfold SciPy.find. rewrite list_elem_of_In, in_concat.
  setoid_rewrite <- list_elem_of_In. split.
  - intros (l & Hin & Hl). apply elem_of_lookup_imap in Hin as (r' & row & -> & Hrow).
    apply list_elem_of_omap in Hl as (o & Ho & Hid). simpl in Hid. subst o.
    apply elem_of_lookup_imap in Ho as (c' & v & Hv & Hc).
    case_decide; [done|]. simplify_eq. eauto.
  - intros (row & v & Hr & Hc & Hv). eexists. split.
    + apply elem_of_lookup_imap. eauto.
    + apply list_elem_of_omap. exists (Some (r, c)). split; [|done].
      apply elem_of_lookup_imap. exists c, v. split; [|done]. by rewrite decide_False.
Qed.

Variable polygon : points → nat → nat → bool.

Lemma elem_of_find_Mask (self : Affine.t) (dst : image P) (r c : nat) :
  (r, c) ∈ SciPy.find (Affine._Mask polygon self dst)
  ↔ (r < height dst)%nat ∧ (c < width dst)%nat ∧ polygon (Affine.vertices self) c r = true.
Proof.
  rewrite elem_of_find. unfold Affine._Mask. split.
  - intros (row & v & Hr & Hc & Hv).
    rewrite list_lookup_fmap in Hr. destruct (seq 0 (height dst) !! r) as [y|] eqn:Hy;
      [|done]. apply lookup_seq in Hy as [-> Hy]. simpl in Hr. simplify_eq.
    rewrite list_lookup_fmap in Hc. destruct (seq 0 (width dst) !! c) as [x|] eqn:Hx;
      [|done]. apply lookup_seq in Hx as [-> Hx]. simpl in Hc. simplify_eq.
    split; [done|]. split; [done|]. by destruct (polygon _ _ _).
  - intros (Hr & Hc & Hp). eexists _, 255%Z.
    rewrite list_lookup_fmap, lookup_seq_lt by done. simpl. split; [done|].
    rewrite list_lookup_fmap, lookup_seq_lt by done. simpl. by rewrite Hp.
Qed.

(** [transform], pixel by pixel: inside the mask the sample, elsewhere what
    was there. *)
Lemma getpixel_transform (self : Affine.t) (src dst : image P) (r c : nat) :
  getpixel (Affine.transform polygon self src dst) r c
  = if decide ((r < height dst)%nat ∧ (c < width dst)%nat
               ∧ polygon (Affine.vertices self) c r = true)
    then (λ _, Affine.sample self src (r, c)) <$> getpixel dst r c
    else getpixel dst r c.
Proof.
  unfold Affine.transform. rewrite getpixel_assign.
  destruct (decide (_ ∈ _)) as [Hin|Hin]; rewrite elem_of_find_Mask in Hin.
  - by rewrite decide_True.
  - by rewrite decide_False.
Qed.

End image_facts.
End ImageFacts.

(** ** Interpolation on the points of the grid *)

Module SciPyFacts.
Import NumPy NumPyFacts PixelFacts SciPy.
Section interpn_facts.
Context {P : Type} `{Pixel P}.

Lemma out_of_bounds_grid (n r : nat) :
  (r < n)%nat → out_of_bounds n (of_int (Z.of_nat r)) = false.
Proof.
  intros Hr. unfold out_of_bounds.
  rewrite !bool_decide_eq_false_2; [done|..].
  - unfold of_int. rewrite <- Z2Qc_inj_lt. lia.
  - rewrite <- Z2Qc_inj_0. unfold of_int. rewrite <- Z2Qc_inj_lt. lia.
Qed.

(** On a point of the grid the cell is the one that ends there (or the
    first one), and the point is an end of the cell. *)
Lemma find_indices_grid (n r : nat) :
  (2 ≤ n)%nat → (r < n)%nat →
  find_indices n (of_int (Z.of_nat r)) = (Z.of_nat r, 0)
  ∨ find_indices n (of_int (Z.of_nat r)) = ((Z.of_nat r - 1)%Z, 1) ∧ (1 ≤ r)%nat.
Proof.
  intros Hn Hr. unfold find_indices. rewrite ceil_of_int.
  destruct r as [|r].
  - left. simpl Z.of_nat. rewrite Z.max_id, Z.min_l by lia. simpl.
    rewrite decide_False by lia. f_equal; try (unfold of_int; ring).
  - right. split; [|lia].
    replace (Z.min (Z.max (Z.of_nat (S r)) 0) (Z.of_nat n) - 1)%Z
      with (Z.of_nat (S r) - 1)%Z by lia.
    rewrite (decide_False (P := (Z.of_nat (S r) - 1 < 0)%Z)) by lia.
    rewrite decide_False by lia.
    f_equal. unfold of_int. rewrite Z2Qc_inj_sub, Z2Qc_inj_1. ring.
Qed.

Lemma value_at_getpixel (values : image P) (r c : nat) (p : P) (k : nat) :
  getpixel values r c = Some p →
  value_at values (Z.of_nat r) (Z.of_nat c) k = of_int (ch p k).
Proof. intros Hp. unfold value_at. by rewrite !Nat2Z.id, Hp. Qed.

(** On a point of the grid, the interpolant is the sample of the grid. *)
Lemma interpn_grid (values : image P) (r c : nat) (p : P) (k : nat) :
  rectangular values → (2 ≤ height values)%nat → (2 ≤ width values)%nat →
  getpixel values r c = Some p →
  interpn values (of_int (Z.of_nat r), of_int (Z.of_nat c)) k = Some (of_int (ch p k)).
Proof.
  intros Hrect Hh Hw Hp.
  destruct (getpixel_lt _ _ _ _ Hrect Hp) as [Hr Hc].
  unfold interpn. rewrite !out_of_bounds_grid by done. cbn [orb].
  destruct (find_indices_grid (height values) r Hh Hr) as [->|[-> Hr1]];
    destruct (find_indices_grid (width values) c Hw Hc) as [->|[-> Hc1]];
    f_equal.
  - rewrite (value_at_getpixel _ _ _ _ _ Hp). ring.
  - replace (Z.of_nat c - 1 + 1)%Z with (Z.of_nat c) by lia.
    rewrite (value_at_getpixel _ _ _ _ _ Hp). ring.
  - replace (Z.of_nat r - 1 + 1)%Z with (Z.of_nat r) by lia.
    rewrite (value_at_getpixel _ _ _ _ _ Hp). ring.
  - replace (Z.of_nat r - 1 + 1)%Z with (Z.of_nat r) by lia.
    replace (Z.of_nat c - 1 + 1)%Z with (Z.of_nat c) by lia.
    rewrite (value_at_getpixel _ _ _ _ _ Hp). ring.
Qed.

(** With the identity as inverse matrix, [transform] copies the source. *)
Lemma valuePoint_identity (self : Affine.t) (rc : nat * nat) :
  Affine.inverseMatrix self = Affine.affine_matrix 1 0 0 0 1 0 →
  Affine.valuePoint self rc = (of_int (Z.of_nat rc.1), of_int (Z.of_nat rc.2)).
Proof.
  intros Hinv. unfold Affine.valuePoint. rewrite Hinv. unfold Affine.affine_matrix.
  cbn [LinAlg.matvec LinAlg.dot fmap list_fmap zip_with foldr
       lookup list_lookup default from_option id].
  f_equal; ring.
Qed.

Lemma sample_identity (self : Affine.t) (src : image P) (r c : nat) (p : P) :
  Affine.inverseMatrix self = Affine.affine_matrix 1 0 0 0 1 0 →
  rectangular src → uint8_image src →
  (2 ≤ height src)%nat → (2 ≤ width src)%nat →
  getpixel src r c = Some p →
  Affine.sample self src (r, c) = p.
Proof.
  intros Hinv Hrect Hu8 Hh Hw Hp. unfold Affine.sample.
  rewrite valuePoint_identity by done. simpl fst; simpl snd.
  transitivity (pixel_of (ch p)); [|apply pixel_of_ch].
  apply pixel_of_ext. intros k Hk.
  rewrite (interpn_grid _ _ _ p) by done.
  apply astype_round_of_int. by eapply uint8_image_getpixel.
Qed.

(** Outside of the source, [transform] stores what [nan] becomes. *)
Lemma sample_out_of_bounds (self : Affine.t) (src : image P) (rc : nat * nat) :
  out_of_bounds (height src) (Affine.valuePoint self rc).1
  || out_of_bounds (width src) (Affine.valuePoint self rc).2 = true →
  Affine.sample self src rc = pixel_of (λ _, nan_as_uint8).
Proof.
  intros Hoob. unfold Affine.sample, interpn.
  destruct (Affine.valuePoint self rc) as [y x]. simpl in Hoob. by rewrite Hoob.
Qed.

End interpn_facts.
End SciPyFacts.

(** ** The loop over the triangles *)

Module WarpFacts.
Import LinAlg LinAlgFacts AffineFacts NumPy NumPyFacts PixelFacts ImageFacts SciPyFacts.

Lemma init_Ok_inv (S T : points) (a : Affine.t) :
  Affine.__init__ S T = Ok a →
  length S = 3%nat ∧ length T = 3%nat ∧ Affine.destination a = T
  ∧ Affine._CreateMatrix S T = Ok (Affine.matrix a)
  ∧ inv (Affine.matrix a) = Ok (Affine.inverseMatrix a).
Proof.
  unfold Affine.__init__. case_bool_decide as Hlen; simpl; [|done].
  destruct (Affine._CreateMatrix S T) as [M|]; [|done]. simpl.
  destruct (inv M) as [N|] eqn:HN; [|done]. simpl. intros [= <-]. simpl.
  by destruct Hlen.
Qed.

Lemma vertices_destination (a : Affine.t) :
  length (Affine.destination a) = 3%nat → Affine.vertices a = Affine.destination a.
Proof.
  unfold Affine.vertices, px, py.
  destruct (Affine.destination a) as [|[??] [|[??] [|[??] [|??]]]]; done.
Qed.

(** Fitting a triangle onto itself gives the identity, and its inverse. *)
Lemma init_identity (T : points) (a : Affine.t) :
  Affine.__init__ T T = Ok a →
  Affine.inverseMatrix a = Affine.affine_matrix 1 0 0 0 1 0.
Proof.
  intros Ha. destruct (init_Ok_inv _ _ _ Ha) as (HT & _ & _ & HM & HN).
  destruct (CreateMatrix_Ok_inv _ _ _ HM) as (h0 & h1 & h2 & h3 & h4 & h5 & HMeq & _ & Huniq).
  specialize (Huniq 1 0 0 0 1 0). 
  assert ([1; 0; 0; 0; 1; 0] = [h0; h1; h2; h3; h4; h5]) as Heq.
  { apply Huniq. intros i _. split; ring. }
  apply cons_inv in Heq as [<- Heq]. apply cons_inv in Heq as [<- Heq].
  apply cons_inv in Heq as [<- Heq]. apply cons_inv in Heq as [<- Heq].
  apply cons_inv in Heq as [<- Heq]. apply cons_inv in Heq as [<- _].
  rewrite HMeq in HN. fold (Affine.affine_matrix 1 0 0 0 1 0) in HN.
  destruct (inv_Ok_inv (Affine.affine_matrix 1 0 0 0 1 0) _ eq_refl HN)
    as (c0 & c1 & c2 & H0 & H1 & H2 & ->).
  assert (∀ j c, (j < 3)%nat →
            solve (Affine.affine_matrix 1 0 0 0 1 0) (unit_vec 3 j) = Ok c →
            c = unit_vec 3 j) as Hcol.
  { intros j c Hj Hc.
    destruct (solve_Ok_inv (Affine.affine_matrix 1 0 0 0 1 0) (unit_vec 3 j) c
                (length_fmap _ _) (affine_matrix_shape _ _ _ _ _ _) Hc) as (_ & _ & Hu).
    symmetry. destruct j as [|[|[|j]]]; try lia; (apply Hu; [done|]);
      unfold Affine.affine_matrix;
      cbn [matvec dot fmap list_fmap zip_with foldr unit_vec seq];
      repeat (apply (f_equal2 cons); [simpl; ring|]); done. }
  rewrite (Hcol 0%nat c0), (Hcol 1%nat c1), (Hcol 2%nat c2) by (done || lia).
  done.
Qed.

Section warp_facts.
Context {P : Type} `{Pixel P}.
Variable polygon : points → nat → nat → bool.

Lemma shape_setpixel (img : image P) (r c : nat) (p : P) :
  length <$> setpixel img r c p = length <$> img.
Proof.
  unfold setpixel. destruct (img !! r) as [row|] eqn:Hr; [|done].
  rewrite list_fmap_insert, length_insert. apply list_insert_id.
  by rewrite list_lookup_fmap, Hr.
Qed.

Lemma shape_transform (self : Affine.t) (src dst : image P) :
  length <$> Affine.transform polygon self src dst = length <$> dst.
Proof.
  unfold Affine.transform, Affine.assign.
  generalize (zip (SciPy.find (Affine._Mask polygon self dst))
                  (Affine.sample self src <$> SciPy.find (Affine._Mask polygon self dst))).
  intros l. revert dst. induction l as [|[[r c] v] l IH]; intros dst; [done|].
  simpl. by rewrite IH, shape_setpixel.
Qed.

Lemma shape_Image_new (w h : nat) : length <$> Image_new (P := P) w h = replicate h w.
Proof. unfold Image_new. by rewrite fmap_replicate, length_replicate. Qed.

Lemma shape_rectangular (img : image P) :
  rectangular img → length <$> img = replicate (height img) (width img).
Proof.
  unfold rectangular, height. generalize (width img). intros w.
  induction 1 as [|row img Hrow _ IH]; [done|].
  rewrite fmap_cons, IH, Hrow. done.
Qed.

Lemma getpixel_is_Some_shape (img img' : image P) (r c : nat) :
  length <$> img = length <$> img' →
  is_Some (getpixel img r c) → is_Some (getpixel img' r c).
Proof.
  intros Hshape [p Hp]. unfold getpixel in *.
  destruct (img !! r) as [row|] eqn:Hr; [|done]. simpl in Hp.
  assert ((length <$> img') !! r = Some (length row)) as Hr'
    by (by rewrite <- Hshape, list_lookup_fmap, Hr).
  rewrite list_lookup_fmap in Hr'. destruct (img' !! r) as [row'|]; [|done].
  simpl in *. apply lookup_lt_is_Some_2. injection Hr' as ->.
  by eapply lookup_lt_Some.
Qed.

Lemma rectangular_shape (img img' : image P) :
  length <$> img = length <$> img' → rectangular img →
  rectangular img' ∧ height img' = height img ∧ width img' = width img.
Proof.
  intros Hshape Hrect.
  assert (height img' = height img) as Hh.
  { unfold height. by rewrite <- (length_fmap length img'), <- Hshape, length_fmap. }
  assert (width img' = width img) as Hw.
  { unfold width. destruct img as [|row img], img' as [|row' img']; try done.
    simpl in *. by injection Hshape as ->. }
  split; [|done]. unfold rectangular in *. rewrite Hw.
  apply (Forall_fmap length (λ n, n = width img)).
  rewrite <- Hshape. by apply Forall_fmap.
Qed.

Lemma rectangular_Image_new (w h : nat) :
  rectangular (Image_new (P := P) w h)
  ∧ length <$> Image_new (P := P) w h = replicate h w.
Proof.
  split; [|apply shape_Image_new].
  unfold rectangular, Image_new, width. destruct h as [|h]; [constructor|].
  simpl. rewrite length_replicate. constructor; [by rewrite length_replicate|].
  apply Forall_replicate. by rewrite length_replicate.
Qed.

Lemma corners_length (a : points) (tri : nat * nat * nat) (T : points) :
  Blender.corners a tri = Ok T → length T = 3%nat.
Proof.
  unfold Blender.corners.
  destruct (a !! tri.1.1), (a !! tri.1.2), (a !! tri.2); try done. by intros [= <-].
Qed.

(** One round of the loop leaves the pixels outside of the mask of its
    triangle as they were. *)
Lemma warp_triangle_outside (self : Blender.t P) (tp : points)
    (targets targets' : image P * image P) (tri : nat * nat * nat) (r c : nat) :
  Blender.warp_triangle polygon self tp targets tri = Ok targets' →
  Blender.covered polygon tp [tri]%list r c = false →
  getpixel targets'.1 r c = getpixel targets.1 r c
  ∧ getpixel targets'.2 r c = getpixel targets.2 r c.
Proof.
  unfold Blender.warp_triangle, Blender.covered. simpl. rewrite orb_false_r.
  destruct (Blender.corners (Blender.startPoints self) tri) as [S|]; [|done].
  destruct (Blender.corners (Blender.endPoints self) tri) as [E|]; [|done].
  destruct (Blender.corners tp tri) as [T|] eqn:HT; [|done]. simpl.
  destruct (Affine.__init__ S T) as [a1|] eqn:Ha1; [|done]. simpl.
  destruct (Affine.__init__ E T) as [a2|] eqn:Ha2; [|done]. simpl.
  intros [= <-] Hout. simpl.
  destruct (init_Ok_inv _ _ _ Ha1) as (_ & HT1 & Hd1 & _).
  destruct (init_Ok_inv _ _ _ Ha2) as (_ & HT2 & Hd2 & _).
  rewrite !getpixel_transform.
  rewrite !vertices_destination, Hd1, Hd2, Hout by congruence.
  rewrite !decide_False; [done|intros (_ & _ & ?); done..].
Qed.

Lemma warp_all_outside (self : Blender.t P) (tp : points)
    (tris : list (nat * nat * nat)) (r c : nat) :
  ∀ targets targets',
  Blender.warp_all polygon self tp targets tris = Ok targets' →
  Blender.covered polygon tp tris r c = false →
  getpixel targets'.1 r c = getpixel targets.1 r c
  ∧ getpixel targets'.2 r c = getpixel targets.2 r c.
Proof.
  induction tris as [|tri tris IH]; intros targets targets'; simpl.
  { by intros [= <-]. }
  destruct (Blender.warp_triangle polygon self tp targets tri) as [targets1|] eqn:H1;
    [|done]. simpl. intros Hall Hcov. apply orb_false_elim in Hcov as [Hc1 Hc2].
  destruct (IH _ _ Hall Hc2) as [-> ->].
  apply (warp_triangle_outside _ _ _ _ _ _ _ H1).
  unfold Blender.covered. simpl. by rewrite Hc1.
Qed.

Lemma warp_all_shape (self : Blender.t P) (tp : points)
    (tris : list (nat * nat * nat)) :
  ∀ targets targets',
  Blender.warp_all polygon self tp targets tris = Ok targets' →
  length <$> targets'.1 = length <$> targets.1
  ∧ length <$> targets'.2 = length <$> targets.2.
Proof.
  induction tris as [|tri tris IH]; intros targets targets'; simpl.
  { by intros [= <-]. }
  destruct (Blender.warp_triangle polygon self tp targets tri) as [targets1|] eqn:H1;
    [|done]. simpl. intros Hall. destruct (IH _ _ Hall) as [-> ->].
  unfold Blender.warp_triangle in H1.
  destruct (Blender.corners _ tri) as [S|]; [|done].
  destruct (Blender.corners _ tri) as [E|]; [|done].
  destruct (Blender.corners tp tri) as [T|]; [|done]. simpl in H1.
  destruct (Affine.__init__ S T) as [a1|]; [|done]. simpl in H1.
  destruct (Affine.__init__ E T) as [a2|]; [|done]. simpl in H1.
  injection H1 as <-. simpl. by rewrite !shape_transform.
Qed.

Lemma warp_triangle_shape (self : Blender.t P) (tp : points)
    (targets targets' : image P * image P) (tri : nat * nat * nat) :
  Blender.warp_triangle polygon self tp targets tri = Ok targets' →
  length <$> targets'.1 = length <$> targets.1
  ∧ length <$> targets'.2 = length <$> targets.2.
Proof.
  intros H1. apply (warp_all_shape self tp [tri]%list targets targets').
  simpl. by rewrite H1.
Qed.

Lemma covered_cons (pts : points) tri tris (r c : nat) :
  Blender.covered polygon pts (tri :: tris) r c
  = Blender.covered polygon pts [tri]%list r c || Blender.covered polygon pts tris r c.
Proof. unfold Blender.covered. simpl. by rewrite orb_false_r. Qed.

(** The copy of a source image by a triangle that stays where it is:
    [src], [pts] and [side] are the image, the points and the intermediate
    image of the start or of the end. *)
Lemma transform_fixed_triangle (T : points) (a : Affine.t) (src dst : image P)
    (r c : nat) (p : P) :
  Affine.__init__ T T = Ok a →
  rectangular src → uint8_image src →
  (2 ≤ height src)%nat → (2 ≤ width src)%nat →
  length <$> dst = length <$> src →
  getpixel src r c = Some p →
  getpixel (Affine.transform polygon a src dst) r c
  = if polygon T c r then Some p else getpixel dst r c.
Proof.
  intros Ha Hrect Hu8 Hh Hw Hshape Hp.
  destruct (init_Ok_inv _ _ _ Ha) as (_ & HT & Hd & _).
  destruct (rectangular_shape src dst (eq_sym Hshape) Hrect) as (Hrd & Hhd & Hwd).
  destruct (getpixel_lt _ _ _ _ Hrect Hp) as [Hr Hc].
  rewrite getpixel_transform, vertices_destination, Hd, Hhd, Hwd by congruence.
  destruct (polygon T c r) eqn:Hpoly.
  - rewrite decide_True by done.
    destruct (getpixel_is_Some_shape src dst r c (eq_sym Hshape)) as [q ->]; [by eexists|].
    simpl. f_equal. apply sample_identity; try done. by eapply init_identity.
  - rewrite decide_False; [done|]. by intros (_ & _ & ?).
Qed.

Lemma warp_all_copy_start (self : Blender.t P) (tp : points)
    (tris : list (nat * nat * nat)) (r c : nat) (p : P) :
  rectangular (Blender.startImage self) → uint8_image (Blender.startImage self) →
  (2 ≤ height (Blender.startImage self))%nat →
  (2 ≤ width (Blender.startImage self))%nat →
  getpixel (Blender.startImage self) r c = Some p →
  (∀ tri, Blender.corners tp tri = Blender.corners (Blender.startPoints self) tri) →
  ∀ targets targets',
  Blender.warp_all polygon self tp targets tris = Ok targets' →
  length <$> targets.1 = length <$> Blender.startImage self →
  getpixel targets'.1 r c
  = if Blender.covered polygon tp tris r c then Some p else getpixel targets.1 r c.
Proof.
  intros Hrect Hu8 Hh Hw Hp Hcorners.
  induction tris as [|tri tris IH]; intros targets targets'; cbn [Blender.warp_all].
  { by intros [= <-]. }
  destruct (Blender.warp_triangle polygon self tp targets tri) as [targets1|] eqn:H1;
    [|done]. cbn [rbind]. intros Hall Hshape.
  destruct (warp_triangle_shape _ _ _ _ _ H1) as [Hs1 _].
  rewrite (IH _ _ Hall) by congruence.
  rewrite covered_cons.
  destruct (Blender.covered polygon tp tris r c); [by rewrite orb_true_r|].
  rewrite orb_false_r. clear IH Hall.
  unfold Blender.warp_triangle in H1. unfold Blender.covered. simpl. rewrite orb_false_r.
  rewrite <- Hcorners in H1.
  destruct (Blender.corners tp tri) as [T|]; [|done]. simpl in H1.
  destruct (Blender.corners (Blender.endPoints self) tri) as [E|]; [|done]. simpl in H1.
  destruct (Affine.__init__ T T) as [a1|] eqn:Ha1; [|done]. simpl in H1.
  destruct (Affine.__init__ E T) as [a2|] eqn:Ha2; [|done]. simpl in H1.
  injection H1 as <-. simpl. by apply transform_fixed_triangle.
Qed.

Lemma warp_all_copy_end (self : Blender.t P) (tp : points)
    (tris : list (nat * nat * nat)) (r c : nat) (p : P) :
  rectangular (Blender.endImage self) → uint8_image (Blender.endImage self) →
  (2 ≤ height (Blender.endImage self))%nat →
  (2 ≤ width (Blender.endImage self))%nat →
  getpixel (Blender.endImage self) r c = Some p →
  (∀ tri, Blender.corners tp tri = Blender.corners (Blender.endPoints self) tri) →
  ∀ targets targets',
  Blender.warp_all polygon self tp targets tris = Ok targets' →
  length <$> targets.2 = length <$> Blender.endImage self →
  getpixel targets'.2 r c
  = if Blender.covered polygon tp tris r c then Some p else getpixel targets.2 r c.
Proof.
  intros Hrect Hu8 Hh Hw Hp Hcorners.
  induction tris as [|tri tris IH]; intros targets targets'; cbn [Blender.warp_all].
  { by intros [= <-]. }
  destruct (Blender.warp_triangle polygon self tp targets tri) as [targets1|] eqn:H1;
    [|done]. cbn [rbind]. intros Hall Hshape.
  destruct (warp_triangle_shape _ _ _ _ _ H1) as [_ Hs1].
  rewrite (IH _ _ Hall) by congruence.
  rewrite covered_cons.
  destruct (Blender.covered polygon tp tris r c); [by rewrite orb_true_r|].
  rewrite orb_false_r. clear IH Hall.
  unfold Blender.warp_triangle in H1. unfold Blender.covered. simpl. rewrite orb_false_r.
  rewrite <- Hcorners in H1.
  destruct (Blender.corners (Blender.startPoints self) tri) as [S|]; [|done]. simpl in H1.
  destruct (Blender.corners tp tri) as [T|]; [|done]. simpl in H1.
  destruct (Affine.__init__ S T) as [a1|] eqn:Ha1; [|done]. simpl in H1.
  destruct (Affine.__init__ T T) as [a2|] eqn:Ha2; [|done]. simpl in H1.
  injection H1 as <-. simpl. by apply transform_fixed_triangle.
Qed.

(** The loop does not raise on triangles that are not flat. *)
Lemma warp_all_succeeds (self : Blender.t P) (tp : points)
    (tris : list (nat * nat * nat)) :
  Forall (λ tri, Blender.nondegenerate (Blender.startPoints self) tri
                 ∧ Blender.nondegenerate (Blender.endPoints self) tri
                 ∧ Blender.nondegenerate tp tri) tris →
  ∀ targets, ∃ targets', Blender.warp_all polygon self tp targets tris = Ok targets'.
Proof.
  induction 1 as [|tri tris (Hs & He & Ht) _ IH]; intros targets; [by eexists|].
  cbn [Blender.warp_all]. unfold Blender.warp_triangle, Blender.nondegenerate in *.
  destruct (Blender.corners (Blender.startPoints self) tri) as [S|] eqn:HS; [|done].
  destruct (Blender.corners (Blender.endPoints self) tri) as [E|] eqn:HE; [|done].
  destruct (Blender.corners tp tri) as [T|] eqn:HT; [|done]. cbn [rbind].
  destruct (init_regular S T) as [a1 ->]; [by eapply corners_length..|done|done|].
  destruct (init_regular E T) as [a2 ->]; [by eapply corners_length..|done|done|].
  cbn [rbind]. apply IH.
Qed.

Lemma lerp_0 (p q : point) : Blender.lerp 0 p q = p.
Proof. destruct p. unfold Blender.lerp. simpl. f_equal; ring. Qed.

Lemma lerp_1 (p q : point) : Blender.lerp 1 p q = q.
Proof. destruct q. unfold Blender.lerp. simpl. f_equal; ring. Qed.

Lemma targetPoints_0 (self : Blender.t P) :
  length (Blender.startPoints self) = length (Blender.endPoints self) →
  Blender.targetPoints self 0 = Ok (Blender.startPoints self).
Proof.
  intros Hlen. unfold Blender.targetPoints. rewrite decide_True by done. f_equal.
  revert Hlen. generalize (Blender.endPoints self).
  induction (Blender.startPoints self) as [|p sp IH]; intros [|q ep] Hlen; try done.
  simpl. rewrite lerp_0, IH; [done|]. simpl in Hlen. lia.
Qed.

Lemma targetPoints_1 (self : Blender.t P) :
  length (Blender.startPoints self) = length (Blender.endPoints self) →
  Blender.targetPoints self 1 = Ok (Blender.endPoints self).
Proof.
  intros Hlen. unfold Blender.targetPoints. rewrite decide_True by done. f_equal.
  revert Hlen. generalize (Blender.endPoints self).
  induction (Blender.startPoints self) as [|p sp IH]; intros [|q ep] Hlen; try done.
  simpl. rewrite lerp_1, IH; [done|]. simpl in Hlen. lia.
Qed.

(** *** The cross-dissolve *)

Lemma cross_dissolve_Ok_inv (alpha : Qc) (ts te frame : image P) :
  Blender.cross_dissolve alpha ts te = Ok frame →
  length <$> ts = length <$> te
  ∧ frame = zip_with (zip_with (Blender.dissolve_pixel alpha)) ts te.
Proof.
  unfold Blender.cross_dissolve. case_bool_decide; [|done]. by intros [= <-].
Qed.

Lemma getpixel_zip_with (f : P → P → P) (ts te : image P) (r c : nat) :
  getpixel (zip_with (zip_with f) ts te) r c
  = match getpixel ts r c, getpixel te r c with
    | Some a, Some b => Some (f a b)
    | _, _ => None
    end.
Proof.
  unfold getpixel. rewrite lookup_zip_with.
  destruct (ts !! r) as [rs|]; simpl; [|done].
  destruct (te !! r) as [re|]; simpl.
  - rewrite lookup_zip_with. destruct (rs !! c); simpl; [|done]. by destruct (re !! c).
  - by destruct (rs !! c).
Qed.

Lemma of_int_0 : of_int 0 = 0.
Proof. apply Z2Qc_inj_0. Qed.

Lemma dissolve_pixel_0 (a b : P) :
  (∀ k, (k < nchan)%nat → (0 ≤ ch a k < 256)%Z) → Blender.dissolve_pixel 0 a b = a.
Proof.
  intros Ha. unfold Blender.dissolve_pixel.
  transitivity (pixel_of (ch a)); [|apply pixel_of_ch].
  apply pixel_of_ext. intros k Hk.
  replace ((1 - 0) * of_int (ch a k) + 0 * of_int (ch b k)) with (of_int (ch a k)) by ring.
  by apply astype_uint8_of_int, Ha.
Qed.

Lemma dissolve_pixel_1 (a b : P) :
  (∀ k, (k < nchan)%nat → (0 ≤ ch b k < 256)%Z) → Blender.dissolve_pixel 1 a b = b.
Proof.
  intros Hb. unfold Blender.dissolve_pixel.
  transitivity (pixel_of (ch b)); [|apply pixel_of_ch].
  apply pixel_of_ext. intros k Hk.
  replace ((1 - 1) * of_int (ch a k) + 1 * of_int (ch b k)) with (of_int (ch b k)) by ring.
  by apply astype_uint8_of_int, Hb.
Qed.

Lemma dissolve_pixel_black (alpha : Qc) :
  Blender.dissolve_pixel alpha (pixel_of (λ _, 0%Z)) (pixel_of (λ _, 0%Z))
  = pixel_of (P := P) (λ _, 0%Z).
Proof.
  unfold Blender.dissolve_pixel. apply pixel_of_ext. intros k Hk.
  rewrite ch_pixel_of by done.
  replace ((1 - alpha) * of_int 0 + alpha * of_int 0) with (of_int 0)
    by (rewrite of_int_0; ring).
  by apply astype_uint8_of_int.
Qed.

(** A weighted mean of two samples is in the range of [uint8]: the cast
    drops its fraction and nothing else. *)
Lemma astype_uint8_mean (alpha : Qc) (x y : Z) :
  0 <= alpha → alpha <= 1 → (0 ≤ x < 256)%Z → (0 ≤ y < 256)%Z →
  astype_uint8 (Some ((1 - alpha) * of_int x + alpha * of_int y))
  = floor ((1 - alpha) * of_int x + alpha * of_int y)
  ∧ (0 ≤ floor ((1 - alpha) * of_int x + alpha * of_int y) < 256)%Z.
Proof.
  intros Ha0 Ha1 Hx Hy.
  assert (0 <= 1 - alpha) as Hb0.
  { apply Qcle_minus_iff in Ha1. by replace (1 - alpha) with (1 + - alpha) by ring. }
  assert (of_int 0 <= of_int x ∧ of_int x <= of_int 255) as [Hx0 Hx1].
  { unfold of_int. rewrite <- !Z2Qc_inj_le. lia. }
  assert (of_int 0 <= of_int y ∧ of_int y <= of_int 255) as [Hy0 Hy1].
  { unfold of_int. rewrite <- !Z2Qc_inj_le. lia. }
  rewrite of_int_0 in Hx0, Hy0.
  set (m := (1 - alpha) * of_int x + alpha * of_int y).
  assert (0 <= m) as Hm0.
  { apply Qcplus_nonneg_nonneg; by apply Qcmult_nonneg_nonneg. }
  assert (m <= of_int 255) as Hm1.
  { replace (of_int 255) with ((1 - alpha) * of_int 255 + alpha * of_int 255) by ring.
    apply Qcplus_le_compat; by apply Qcmult_le_mono_nonneg_l. }
  assert (0 ≤ floor m ≤ 255)%Z as Hfl.
  { apply floor_range; [by rewrite of_int_0|done]. }
  split; [|lia]. unfold astype_uint8, trunc. rewrite decide_True by done.
  apply Z.mod_small. lia.
Qed.

End warp_facts.
End WarpFacts.

(** ** The two loops of [generateMorphVideo] *)

Module SequenceFacts.
Import NumPy.
Section sequence_facts.
Context {P : Type} `{Pixel P}.
Variable polygon : points → nat → nat → bool.

Lemma of_int_succ (j : nat) : of_int (Z.of_nat (S j)) = of_int (Z.of_nat j) + 1.
Proof.
  unfold of_int. by rewrite Nat2Z.inj_succ, <- Z.add_1_r, Z2Qc_inj_add, Z2Qc_inj_1.
Qed.

Lemma frame_paths_S folder first n :
  frame_paths folder first (S n)
  = frame_path folder first :: frame_paths folder (first + 1) n.
Proof.
  unfold frame_paths. cbn [seq]. rewrite fmap_cons, <- fmap_S_seq, <- list_fmap_compose.
  f_equal; [f_equal; lia|]. apply list_fmap_ext. intros ? j ?. simpl. f_equal. lia.
Qed.

Lemma length_frame_paths folder first n : length (frame_paths folder first n) = n.
Proof. unfold frame_paths. by rewrite length_fmap, length_seq. Qed.

(** When every blend succeeds, the loop saves them in order: round [j]
    blends at [alpha + (j + 1) * increment] and writes under the number
    [i + 1 + j]. *)
Lemma blend_loop_Ok (self : Blender.t P) (folder : string) (increment : Qc) (rounds : nat) :
  ∀ (i : Z) (st : Blender.frame_state) (blends : nat → image P),
  (∀ j, (j < rounds)%nat →
     Blender.getBlendedImage polygon self
       (Blender.alpha_acc st + of_int (Z.of_nat (S j)) * increment) = Ok (blends j)) →
  ∃ st',
    Blender.blend_loop polygon self folder increment rounds i st = (st', Ok ())
    ∧ saved (Blender.fs_world st')
      = saved (Blender.fs_world st)
        ++ zip (frame_paths folder (i + 1) rounds) (blends <$> seq 0 rounds)
    ∧ Blender.imageList st' = Blender.imageList st ++ (blends <$> seq 0 rounds)
    ∧ Blender.fileList st' = Blender.fileList st ++ frame_paths folder (i + 1) rounds.
Proof.
  induction rounds as [|rounds IH]; intros i st blends Hblends.
  { exists st. simpl. by rewrite !app_nil_r. }
  cbn [Blender.blend_loop].
  pose proof (Hblends 0%nat ltac:(lia)) as H0.
  replace (Blender.alpha_acc st + of_int (Z.of_nat 1) * increment)
    with (Blender.alpha_acc st + increment) in H0
    by (change (of_int (Z.of_nat 1)) with (of_int 1); unfold of_int;
        rewrite Z2Qc_inj_1; ring).
  rewrite H0.
  edestruct (IH (i + 1)%Z) with (blends := λ j, blends (S j))
    as (st' & -> & Hsaved & Himages & Hfiles).
  { intros j Hj. cbn [Blender.alpha_acc].
    rewrite <- (Hblends (S j)) by lia. f_equal.
    rewrite (of_int_succ (S j)). ring. }
  exists st'. split; [done|].
  cbn [Blender.fs_world Blender.imageList Blender.fileList Blender._SaveImage saved]
    in Hsaved, Himages, Hfiles.
  rewrite Hsaved, Himages, Hfiles, frame_paths_S. cbn [seq].
  rewrite !fmap_cons, <- !fmap_S_seq, <- !list_fmap_compose, <- !app_assoc.
  done.
Qed.

Lemma reversed_loop_spec (folder : string) (images : list (image P)) :
  ∀ (seqNum : Z) (st : Blender.frame_state),
  let st' := Blender.reversed_loop folder images seqNum st in
  saved (Blender.fs_world st')
  = saved (Blender.fs_world st)
    ++ zip (frame_paths folder seqNum (length images)) images
  ∧ Blender.fileList st'
    = Blender.fileList st ++ frame_paths folder seqNum (length images)
  ∧ Blender.imageList st' = Blender.imageList st.
Proof.
  induction images as [|image images IH]; intros seqNum st.
  { simpl. by rewrite !app_nil_r. }
  cbn [Blender.reversed_loop length]. rewrite frame_paths_S.
  match goal with |- context [Blender.reversed_loop folder images ?n ?st1] =>
    destruct (IH n st1) as (-> & -> & ->)
  end.
  cbn [Blender.fs_world Blender.imageList Blender.fileList Blender._SaveImage saved].
  by rewrite <- !app_assoc.
Qed.

Lemma zip_forward (self : Blender.t P) (folder : string) (L : Z)
    (blends : nat → image P) (n : nat) :
  zip (forward_paths folder L n) (forward_images self blends n)
  = [(frame_path folder 1, Blender.startImage self)]%list
    ++ zip (frame_paths folder 1 n) (blends <$> seq 0 n)
    ++ [(frame_path folder L, Blender.endImage self)]%list.
Proof.
  unfold forward_paths, forward_images. cbn [app zip zip_with]. f_equal.
  by rewrite zip_with_app by (by rewrite length_frame_paths, length_fmap, length_seq).
Qed.

(** A run of [generateMorphVideo] in which every blend succeeds. *)
Lemma generateMorphVideo_Ok (self : Blender.t P) (folder : string) (L : Z)
    (includeReversed : bool) (w : world P) (blends : nat → image P) :
  (L ≠ 1)%Z →
  (∀ j, (j < Z.to_nat (L - 2))%nat →
     Blender.getBlendedImage polygon self
       (of_int (Z.of_nat (S j)) * (1 / of_int ((L - 2) + 1))) = Ok (blends j)) →
  let n := Z.to_nat (L - 2) in
  let files := forward_paths folder L n
               ++ (if includeReversed then frame_paths folder (L + 1) (S (S n)) else []) in
  ∃ w',
    Blender.generateMorphVideo polygon self folder L includeReversed w = (w', Ok files)
    ∧ saved w'
      = saved w
        ++ zip files (forward_images self blends n
                      ++ reverse (forward_images self blends n)).
Proof.
  intros HL Hblends n files. unfold Blender.generateMorphVideo.
  rewrite decide_False by lia.
  match goal with |- context [Blender.blend_loop _ _ _ ?inc ?rounds ?i ?st0] =>
    destruct (blend_loop_Ok self folder inc rounds i st0 blends)
      as (st1 & -> & Hsaved & Himages & Hfiles)
  end.
  { intros j Hj. rewrite <- (Hblends j Hj). f_equal. simpl. ring. }
  cbn [Blender.fs_world Blender.imageList Blender.fileList Blender._SaveImage saved]
    in Hsaved, Himages, Hfiles.
  fold n in Hsaved, Himages, Hfiles.
  assert (length (forward_images self blends n) = S (S n)) as Hlen.
  { unfold forward_images. rewrite !length_app, length_fmap, length_seq. simpl. lia. }
  assert (length (forward_paths folder L n) = S (S n)) as Hlen'.
  { unfold forward_paths. rewrite !length_app, length_frame_paths. simpl. lia. }
  destruct includeReversed.
  - match goal with |- context [Blender.reversed_loop folder ?imgs ?num ?st2] =>
      destruct (reversed_loop_spec folder imgs num st2) as (Hsaved3 & Hfiles3 & _);
      set (st3 := Blender.reversed_loop folder imgs num st2) in *
    end.
    cbn [Blender.fs_world Blender.imageList Blender.fileList Blender._SaveImage saved]
      in Hsaved3, Hfiles3.
    rewrite Hsaved, Himages in Hsaved3. rewrite Himages, Hfiles in Hfiles3.
    change (0 + 1)%Z with 1%Z in *.
    change ([Blender.startImage self]%list ++ (blends <$> seq 0 n))
      with (Blender.startImage self :: (blends <$> seq 0 n)) in *.
    assert ((Blender.startImage self :: (blends <$> seq 0 n)) ++ [Blender.endImage self]%list
            = forward_images self blends n) as Hfwd by done.
    rewrite Hfwd, length_reverse, Hlen in Hsaved3, Hfiles3.
    assert (Blender.fileList st3 = files) as ->.
    { rewrite Hfiles3. unfold files, forward_paths. by rewrite <- !app_assoc. }
    eexists. split; [done|]. cbn [Blender.write_video saved]. rewrite Hsaved3.
    unfold files. rewrite zip_with_app, zip_forward by congruence.
    by rewrite <- !app_assoc.
  - eexists. split.
    { rewrite Hfiles. unfold files, forward_paths. rewrite app_nil_r, <- !app_assoc. done. }
    cbn [Blender.write_video Blender.fs_world Blender._SaveImage saved]. rewrite Hsaved.
    unfold files. rewrite app_nil_r.
    rewrite <- (app_nil_r (forward_paths folder L n)) at 1.
    rewrite zip_with_app, zip_forward by congruence. cbn [zip_with]. rewrite app_nil_r.
    change (0 + 1)%Z with 1%Z.
    by rewrite <- !app_assoc.
Qed.

(** From three frames on, the first blend is saved under the path of the
    start image. *)
Lemma forward_paths_collide (folder : string) (L : Z) (n : nat) :
  (1 ≤ n)%nat →
  forward_paths folder L n !! 0%nat = Some (frame_path folder 1)
  ∧ forward_paths folder L n !! 1%nat = Some (frame_path folder 1).
Proof.
  intros Hn. destruct n as [|n]; [lia|]. unfold forward_paths.
  rewrite frame_paths_S. done.
Qed.

End sequence_facts.
End SequenceFacts.

(** * The claims of the specification *)

Import LinAlg LinAlgFacts AffineFacts NumPy NumPyFacts PixelFacts ImageFacts
  SciPyFacts WarpFacts SequenceFacts.

(** ** The affine fit (C5, C6) *)





(** ** The warp and the blend (C1, C2, C7, C10) *)

Section warp_claims.
Context {P : Type} `{Pixel P}.
Variable polygon : points → nat → nat → bool.

(** C2, as amended.  A pixel of the mask whose point in the source image lies
    outside of that image is written like every other pixel of the mask:
    whatever it held, it holds afterwards the [uint8] that [nan] is cast to,
    0 in every channel.  No exception is raised ([transform] is total). *)
Theorem transform_out_of_bounds_stores_zero (self : Affine.t) (src dst : image P)
    (r c : nat) (old : P) :
  rectangular dst → getpixel dst r c = Some old →
  polygon (Affine.vertices self) c r = true →
  SciPy.out_of_bounds (height src) (Affine.valuePoint self (r, c)).1
  || SciPy.out_of_bounds (width src) (Affine.valuePoint self (r, c)).2 = true →
  getpixel (Affine.transform polygon self src dst) r c = Some (pixel_of (λ _, 0%Z)).
Proof.
  intros Hrect Hold Hmask Hoob.
  destruct (getpixel_lt _ _ _ _ Hrect Hold) as [Hr Hc].
  rewrite getpixel_transform, decide_True, Hold by done. simpl.
  by rewrite sample_out_of_bounds.
Qed.

(** C10.  A pixel of the blended frame that lies in the mask of no triangle
    of the triangulation (placed at the target points) is 0 in every
    channel. *)
Theorem uncovered_pixels_are_black (self : Blender.t P) (alpha : Qc)
    (tp : points) (frame : image P) (r c : nat) (p : P) :
  Blender.getBlendedImage polygon self alpha = Ok frame →
  Blender.targetPoints self alpha = Ok tp →
  Blender.covered polygon tp (Blender.triangles self) r c = false →
  getpixel frame r c = Some p →
  Forall (λ v, v = 0%Z) (chans p).
Proof.
  unfold Blender.getBlendedImage. intros Hblend Htp Hcov Hp.
  rewrite Htp in Hblend. simpl in Hblend.
  destruct (Blender.warp_all _ _ _ _ _) as [[ts te]|] eqn:Hwarp; [|done].
  simpl in Hblend.
  destruct (warp_all_outside _ _ _ _ _ _ _ _ Hwarp Hcov) as [Hts Hte]. simpl in Hts, Hte.
  destruct (cross_dissolve_Ok_inv _ _ _ _ Hblend) as [_ ->].
  rewrite getpixel_zip_with, Hts, Hte, !getpixel_Image_new in Hp.
  repeat case_decide; try done. injection Hp as <-.
  rewrite dissolve_pixel_black, chans_pixel_of. by apply Forall_fmap, Forall_true.
Qed.

(** What the two blends at the ends of the range hold, when they succeed. *)
Lemma blend_at_the_ends_Ok (self : Blender.t P) (frame0 frame1 : image P) :
  length (Blender.startPoints self) = length (Blender.endPoints self) →
  rectangular (Blender.startImage self) → uint8_image (Blender.startImage self) →
  (2 ≤ height (Blender.startImage self))%nat → (2 ≤ width (Blender.startImage self))%nat →
  rectangular (Blender.endImage self) → uint8_image (Blender.endImage self) →
  (2 ≤ height (Blender.endImage self))%nat → (2 ≤ width (Blender.endImage self))%nat →
  Blender.getBlendedImage polygon self 0 = Ok frame0 →
  Blender.getBlendedImage polygon self 1 = Ok frame1 →
  (∀ r c p, getpixel (Blender.startImage self) r c = Some p →
     getpixel frame0 r c
     = Some (if Blender.covered polygon (Blender.startPoints self)
                  (Blender.triangles self) r c
             then p else pixel_of (λ _, 0%Z)))
  ∧ (∀ r c p, getpixel (Blender.endImage self) r c = Some p →
     getpixel frame1 r c
     = Some (if Blender.covered polygon (Blender.endPoints self)
                  (Blender.triangles self) r c
             then p else pixel_of (λ _, 0%Z))).
Proof.
  intros Hlen Hrs Hus Hhs Hws Hre Hue Hhe Hwe H0 H1.
  unfold Blender.getBlendedImage in H0, H1.
  rewrite targetPoints_0 in H0 by done. rewrite targetPoints_1 in H1 by done.
  simpl in H0, H1.
  destruct (rectangular_Image_new (P := P) (width (Blender.startImage self))
              (height (Blender.startImage self))) as [_ Hns].
  destruct (rectangular_Image_new (P := P) (width (Blender.endImage self))
              (height (Blender.endImage self))) as [_ Hne].
  rewrite <- shape_rectangular in Hns, Hne by done.
  assert (∀ k : nat, (k < nchan)%nat → (0 ≤ ch (pixel_of (P := P) (λ _, 0%Z)) k < 256)%Z)
    as Hblack by (intros k Hk; rewrite ch_pixel_of by done; lia).
  split.
  - destruct (Blender.warp_all _ _ _ _ _) as [[ts te]|] eqn:Hwarp in H0; [|done].
    simpl in H0. intros r c p Hp.
    destruct (cross_dissolve_Ok_inv _ _ _ _ H0) as [Hshape ->].
    destruct (warp_all_shape _ _ _ _ _ _ Hwarp) as [Hs1 _]. simpl in Hs1.
    pose proof (warp_all_copy_start polygon self _ (Blender.triangles self) r c p
                  Hrs Hus Hhs Hws Hp (λ _, eq_refl) _ _ Hwarp Hns) as Hts.
    simpl in Hts. rewrite getpixel_Image_new in Hts.
    destruct (getpixel_lt _ _ _ _ Hrs Hp) as [Hr Hc].
    rewrite decide_True in Hts by done.
    destruct (getpixel_is_Some_shape ts te r c Hshape) as [q Hq].
    { rewrite Hts. by destruct (Blender.covered _ _ _ _ _). }
    rewrite getpixel_zip_with, Hts, Hq.
    destruct (Blender.covered _ _ _ _ _); f_equal; apply dissolve_pixel_0; try done.
    intros k Hk. by apply (uint8_image_getpixel _ r c p k Hus Hp).
  - destruct (Blender.warp_all _ _ _ _ _) as [[ts te]|] eqn:Hwarp in H1; [|done].
    simpl in H1. intros r c p Hp.
    destruct (cross_dissolve_Ok_inv _ _ _ _ H1) as [Hshape ->].
    pose proof (warp_all_copy_end polygon self _ (Blender.triangles self) r c p
                  Hre Hue Hhe Hwe Hp (λ _, eq_refl) _ _ Hwarp Hne) as Hte.
    simpl in Hte. rewrite getpixel_Image_new in Hte.
    destruct (getpixel_lt _ _ _ _ Hre Hp) as [Hr Hc].
    rewrite decide_True in Hte by done.
    destruct (getpixel_is_Some_shape te ts r c (eq_sym Hshape)) as [q Hq].
    { rewrite Hte. by destruct (Blender.covered _ _ _ _ _). }
    rewrite getpixel_zip_with, Hte, Hq.
    destruct (Blender.covered _ _ _ _ _); f_equal; apply dissolve_pixel_1; try done.
    intros k Hk. by apply (uint8_image_getpixel _ r c p k Hue Hp).
Qed.

Lemma getBlendedImage_succeeds (self : Blender.t P) (alpha : Qc) (tp : points) :
  Blender.valid self →
  Blender.targetPoints self alpha = Ok tp →
  Forall (Blender.nondegenerate tp) (Blender.triangles self) →
  ∃ frame, Blender.getBlendedImage polygon self alpha = Ok frame.
Proof.
  intros (Hlen & Htris & Hrs & Hus & Hue & Hshape & Hh & Hw) Htp Hnd.
  destruct (rectangular_shape _ _ (eq_sym Hshape) Hrs) as (Hre & Hhe & Hwe).
  unfold Blender.getBlendedImage. rewrite Htp. cbn [rbind].
  edestruct (warp_all_succeeds polygon self tp (Blender.triangles self))
    as [[ts te] Hwarp].
  { eapply Forall_impl; [exact (List.Forall_and Htris Hnd)|]. by intros tri [[??]?]. }
  rewrite Hwarp. cbn [rbind fst snd].
  destruct (warp_all_shape _ _ _ _ _ _ Hwarp) as [Hs He]. simpl in Hs, He.
  unfold Blender.cross_dissolve.
  rewrite bool_decide_eq_true_2; [by eexists|].
  by rewrite Hs, He, !shape_Image_new, Hhe, Hwe.
Qed.



End warp_claims.

(** The run for the edge policy: the triangle [large] of a source of three
    columns is warped onto the triangle [small]; the pixel of row 0 and
    column 2 is in the mask and comes from column 4 of the source. *)
Lemma example_out_of_bounds :
  ∃ a, Affine.__init__ Example.large Example.small = Ok a
    ∧ Reference.polygon (Affine.vertices a) 2 0 = true
    ∧ SciPy.out_of_bounds (height Example.ramp) (Affine.valuePoint a (0, 2)%nat).1
      || SciPy.out_of_bounds (width Example.ramp) (Affine.valuePoint a (0, 2)%nat).2
      = true.
Proof.
  assert ((a ←ᵣ Affine.__init__ Example.large Example.small;
           Ok (Reference.polygon (Affine.vertices a) 2 0,
               SciPy.out_of_bounds (height Example.ramp) (Affine.valuePoint a (0, 2)%nat).1
               || SciPy.out_of_bounds (width Example.ramp)
                    (Affine.valuePoint a (0, 2)%nat).2))
          = Ok (true, true)) as Hrun by (by vm_compute).
  destruct (Affine.__init__ Example.large Example.small) as [a|]; [|done].
  exists a. split; [done|]. cbn [rbind] in Hrun.
  assert (∀ x y : bool * bool, Ok x = Ok y → x = y) as Hinj by (by intros ?? [= ->]).
  apply Hinj in Hrun. split; [exact (f_equal fst Hrun)|exact (f_equal snd Hrun)].
Qed.

Lemma transform_out_of_bounds_stores_zero_witness :
  ∃ a, Affine.__init__ Example.large Example.small = Ok a
    ∧ (rectangular Example.sevens ∧ getpixel Example.sevens 0 2 = Some 7%Z
       ∧ Reference.polygon (Affine.vertices a) 2 0 = true
       ∧ SciPy.out_of_bounds (height Example.ramp) (Affine.valuePoint a (0, 2)%nat).1
         || SciPy.out_of_bounds (width Example.ramp) (Affine.valuePoint a (0, 2)%nat).2
         = true)
    ∧ getpixel (Affine.transform Reference.polygon a Example.ramp Example.sevens) 0 2
      = Some 0%Z.
Proof.
  destruct example_out_of_bounds as (a & Ha & H3 & H4).
  exists a. split; [done|].
  assert (rectangular Example.sevens) as H1 by (by repeat constructor).
  assert (getpixel Example.sevens 0 2 = Some 7%Z) as H2 by reflexivity.
  split; [exact (conj H1 (conj H2 (conj H3 H4)))|].
  exact (transform_out_of_bounds_stores_zero Reference.polygon a Example.ramp
           Example.sevens 0 2 7%Z H1 H2 H3 H4).
Defined.

(** C2 fails as stated: the pixel of row 0 and column 2 is in the mask, its
    point in the source is out of bounds, it held 7 and holds 0 after the
    call; it has not kept its value. *)
Lemma transform_out_of_bounds_counterexample :
  (a ←ᵣ Affine.__init__ Example.large Example.small;
   Ok (Reference.polygon (Affine.vertices a) 2 0,
       SciPy.out_of_bounds (width Example.ramp) (Affine.valuePoint a (0, 2)%nat).2,
       getpixel Example.sevens 0 2,
       getpixel (Affine.transform Reference.polygon a Example.ramp Example.sevens) 0 2))
  = Ok (true, true, Some 7%Z, Some 0%Z).
Proof. by vm_compute. Qed.

(** *** Runs of the example session *)

Lemma example_session_built :
  Blender.__init__ Reference.Delaunay (ndarray Example.ramp) (ndarray Example.small)
    (ndarray Example.sevens) (ndarray Example.small)
  = ([Example.small]%list, Ok Example.session).
Proof. by vm_compute. Qed.

Lemma example_blend_0 :
  Blender.getBlendedImage Reference.polygon Example.session 0
  = Ok [[1; 2; 3]; [4; 5; 0]; [7; 0; 0]]%Z.
Proof. by vm_compute. Qed.

Lemma example_blend_1 :
  Blender.getBlendedImage Reference.polygon Example.session 1
  = Ok [[7; 7; 7]; [7; 7; 0]; [7; 0; 0]]%Z.
Proof. by vm_compute. Qed.

Lemma example_blend_half :
  Blender.getBlendedImage Reference.polygon Example.session (Q2Qc (1 # 2))
  = Ok [[4; 4; 5]; [5; 6; 0]; [7; 0; 0]]%Z.
Proof. by vm_compute. Qed.

(** A colour run: the three channels are warped and blended alike. *)
Lemma example_colour_blend_half :
  ColorBlender.getBlendedImage Reference.polygon Example.colour_session (Q2Qc (1 # 2))
  = Ok [[(4, 8, 251); (4, 9, 250); (5, 10, 250)];
        [(5, 11, 249); (6, 12, 249); (0, 0, 0)];
        [(7, 14, 248); (0, 0, 0); (0, 0, 0)]]%Z.
Proof. by vm_compute. Qed.

Lemma example_images :
  (rectangular Example.ramp ∧ uint8_image Example.ramp)
  ∧ (rectangular Example.sevens ∧ uint8_image Example.sevens).
Proof.
  split; (split; [by repeat constructor|]);
    repeat (constructor; try (repeat constructor; lia)).
Qed.


Lemma example_session_is_valid : Blender.valid Example.session.
Proof.
  destruct example_images as [[Hrs Hus] [Hre Hue]].
  assert (area2 Example.small ≠ 0) as Harea
    by (intros Heq; apply (f_equal this) in Heq; vm_compute in Heq; discriminate).
  split; [done|]. split; [by repeat constructor|].
  split; [done|]. split; [done|]. split; [done|]. split; [done|].
  split; unfold height, width; simpl; lia.
Qed.


(** The pixel of row 2 and column 2 of the frame at [alpha = 1/2]. *)
Lemma uncovered_pixels_are_black_witness :
  (Blender.getBlendedImage Reference.polygon Example.session (Q2Qc (1 # 2))
   = Ok [[4; 4; 5]; [5; 6; 0]; [7; 0; 0]]%Z
   ∧ Blender.targetPoints Example.session (Q2Qc (1 # 2)) = Ok Example.small
   ∧ Blender.covered Reference.polygon Example.small
       (Blender.triangles Example.session) 2 2 = false
   ∧ getpixel [[4; 4; 5]; [5; 6; 0]; [7; 0; 0]]%Z 2 2 = Some 0%Z)
  ∧ Forall (λ v, v = 0%Z) (chans 0%Z).
Proof.
  assert (Blender.targetPoints Example.session (Q2Qc (1 # 2)) = Ok Example.small) as Htp.
  { unfold Blender.targetPoints. rewrite decide_True by done. f_equal.
    simpl. unfold Blender.lerp, Example.p. simpl.
    repeat (apply (f_equal2 cons); [apply (f_equal2 pair); apply Qc_is_canon; reflexivity|]).
    done. }
  assert (Blender.covered Reference.polygon Example.small
            (Blender.triangles Example.session) 2 2 = false) as Hcov by (by vm_compute).
  split; [split; [exact example_blend_half|done]|].
  exact (uncovered_pixels_are_black Reference.polygon Example.session (Q2Qc (1 # 2))
           Example.small _ 2 2 0%Z example_blend_half Htp Hcov eq_refl).
Defined.



(** ** The sequence of frames (C3, C4, C8) *)

Section sequence_claims.
Context {P : Type} `{Pixel P}.
Variable polygon : points → nat → nat → bool.

(** C3, as amended.  No length is rejected before the first frame.  With
    [sequenceLength = 1] the start image is saved as frame 1 and the
    division by [(1 - 2) + 1] then raises [ZeroDivisionError]; with
    [sequenceLength <= 0] nothing is raised: the start image is saved as
    frame 1, the end image under the number [sequenceLength], and with
    [includeReversed] both once more, under the next two numbers. *)
Theorem short_sequences_are_not_rejected (self : Blender.t P) (folder : string)
    (includeReversed : bool) (w : world P) :
  Blender.generateMorphVideo polygon self folder 1 includeReversed w
  = (Blender._SaveImage (Blender.startImage self) (frame_path folder 1) w,
     Err ZeroDivisionError)
  ∧ ∀ sequenceLength : Z, (sequenceLength ≤ 0)%Z →
      ∃ w' files,
        Blender.generateMorphVideo polygon self folder sequenceLength includeReversed w
        = (w', Ok files)
        ∧ saved w'
          = saved w
            ++ [(frame_path folder 1, Blender.startImage self);
                (frame_path folder sequenceLength, Blender.endImage self)]
            ++ (if includeReversed
                then [(frame_path folder (sequenceLength + 1), Blender.endImage self);
                      (frame_path folder (sequenceLength + 2), Blender.startImage self)]
                else []).
Proof.
  split; [done|]. intros L HL. unfold Blender.generateMorphVideo.
  rewrite decide_False by lia.
  replace (Z.to_nat (L - 2)) with 0%nat by lia. cbn [Blender.blend_loop].
  eexists _, _. split; [done|].
  destruct includeReversed; cbn; rewrite <- ?app_assoc; [|done].
  unfold frame_path. by replace (L + 1 + 1)%Z with (L + 2)%Z by lia.
Qed.


End sequence_claims.

Lemma short_sequences_are_not_rejected_witness :
  (0 ≤ 0)%Z
  ∧ ∃ w' files,
      Blender.generateMorphVideo Reference.polygon Example.session "out" 0 false
        empty_world = (w', Ok files)
      ∧ saved w'
        = saved empty_world
          ++ [(frame_path "out" 1, Example.ramp); (frame_path "out" 0, Example.sevens)]
          ++ [].
Proof.
  split; [lia|].
  apply (proj2 (short_sequences_are_not_rejected Reference.polygon Example.session
                  "out" false empty_world) 0%Z). lia.
Defined.

(** C3 fails as stated: with [sequenceLength = 1] a frame is on the disk when
    the exception is raised, and it is a [ZeroDivisionError]; with
    [sequenceLength = 0] the call returns and two frames are written. *)
Lemma short_sequence_counterexample :
  (let run := Blender.generateMorphVideo Reference.polygon Example.session "out" 1 true
                empty_world in
   run.2 = Err ZeroDivisionError
   ∧ (saved run.1).*1 = ["out/frame001.jpg"]%list
   ∧ disk run.1 !! "out/frame001.jpg" = Some Example.ramp)
  ∧ (let run := Blender.generateMorphVideo Reference.polygon Example.session "out" 0 true
                  empty_world in
     run.2 = Ok ["out/frame001.jpg"; "out/frame000.jpg";
                 "out/frame001.jpg"; "out/frame002.jpg"]).
Proof. split; [split; [|split]|]; by vm_compute. Qed.

(** C4 fails on the code.  With [sequenceLength = 3] and no reversed pass
    the three frames are saved under two names: the blend at 1/2 is written
    to [frame001.jpg], over the start image; [frame002.jpg] is never
    written, and the video reads the blend twice. *)
Theorem forward_pass_reuses_frame_1 :
  let run := Blender.generateMorphVideo Reference.polygon Example.session "out" 3 false
               empty_world in
  run.2 = Ok ["out/frame001.jpg"; "out/frame001.jpg"; "out/frame003.jpg"]
  ∧ (saved run.1).*2
    = [Example.ramp; [[4; 4; 5]; [5; 6; 0]; [7; 0; 0]]%Z; Example.sevens]
  ∧ disk run.1 !! "out/frame001.jpg" = Some [[4; 4; 5]; [5; 6; 0]; [7; 0; 0]]%Z
  ∧ disk run.1 !! "out/frame002.jpg" = None
  ∧ video run.1
    = [Some [[4; 4; 5]; [5; 6; 0]; [7; 0; 0]]%Z;
       Some [[4; 4; 5]; [5; 6; 0]; [7; 0; 0]]%Z; Some Example.sevens].
Proof. repeat split; by vm_compute. Qed.

(** The alphas of the specification for [sequenceLength = 5]: the three
    blends are taken at 1/4, 1/2 and 3/4. *)
Lemma example_blends_5 :
  ∀ j, (j < Z.to_nat (5 - 2))%nat →
    Blender.getBlendedImage Reference.polygon Example.session
      (of_int (Z.of_nat (S j)) * (1 / of_int ((5 - 2) + 1)))
    = Ok (nth j [ [[2; 3; 4]; [4; 5; 0]; [7; 0; 0]];
                  [[4; 4; 5]; [5; 6; 0]; [7; 0; 0]];
                  [[5; 5; 6]; [6; 6; 0]; [7; 0; 0]] ]%Z []).
Proof. intros [|[|[|j]]] Hj; [by vm_compute..|simpl in Hj; lia]. Qed.


(** ** The construction of a session (C9) *)

Section init_claims.
Context {P : Type} `{Pixel P}.
Variable Delaunay : points → result (list (nat * nat * nat)).

(** C9, as amended.  [Blender.__init__] tests that its four arguments are
    arrays and nothing else: it raises [TypeError], without triangulating,
    when one is not; otherwise it triangulates the start points exactly
    once, whatever the end points are, and it fails only if the
    triangulation does, with the error of the triangulation. *)
Theorem init_checks_types_only (startImage : pyobj (image P)) (startPoints : pyobj points)
    (endImage : pyobj (image P)) (endPoints : pyobj points) :
  let run := Blender.__init__ Delaunay startImage startPoints endImage endPoints in
  (is_ndarray startImage && is_ndarray startPoints
   && is_ndarray endImage && is_ndarray endPoints = false →
   run = ([], Err TypeError))
  ∧ (∀ si sp ei ep,
       startImage = ndarray si → startPoints = ndarray sp →
       endImage = ndarray ei → endPoints = ndarray ep →
       run.1 = [sp]%list
       ∧ (∀ e, run.2 = Err e ↔ Delaunay sp = Err e)
       ∧ (∀ tris, Delaunay sp = Ok tris →
            run.2 = Ok {| Blender.startImage := si; Blender.startPoints := sp;
                          Blender.endImage := ei; Blender.endPoints := ep;
                          Blender.triangles := tris |})).
Proof.
  split.
  - by destruct startImage, startPoints, endImage, endPoints.
  - intros si sp ei ep -> -> -> ->. simpl. split; [done|]. split.
    + intros e. destruct (Delaunay sp); simpl; split; congruence.
    + by intros tris ->.
Qed.

End init_claims.

Lemma init_checks_types_only_witness :
  (is_ndarray (ndarray Example.ramp) && is_ndarray (other (A := points))
   && is_ndarray (ndarray Example.sevens) && is_ndarray (ndarray Example.small) = false)
  ∧ Blender.__init__ Reference.Delaunay (ndarray Example.ramp) other
      (ndarray Example.sevens) (ndarray Example.small)
    = ([], Err TypeError).
Proof.
  split; [done|].
  apply (proj1 (init_checks_types_only Reference.Delaunay (ndarray Example.ramp) other
                  (ndarray Example.sevens) (ndarray Example.small))). done.
Defined.

(** C9 fails as stated: three start points and two end points make a
    session. *)
Lemma init_accepts_unequal_point_sets_counterexample :
  let endPoints := [Example.p 0 0; Example.p 2 0]%list in
  (Blender.__init__ Reference.Delaunay (ndarray Example.ramp) (ndarray Example.small)
     (ndarray Example.sevens) (ndarray endPoints)).2
  = Ok {| Blender.startImage := Example.ramp; Blender.startPoints := Example.small;
          Blender.endImage := Example.sevens; Blender.endPoints := endPoints;
          Blender.triangles := [(0, 1, 2)%nat]%list |}
  ∧ length Example.small = 3%nat ∧ length endPoints = 2%nat.
Proof. split; [by vm_compute|done]. Qed.

(** * Further properties of the code

    Properties of [Morphing.py] that the specification does not state,
    read off the code. *)

(** ** The affine fit *)

Module FitFacts.

Lemma solve_error (A : list vec) (b : vec) e : solve A b = Err e → e = LinAlgError.
Proof. unfold solve. destruct (gauss _ _); [done|]. by intros [= <-]. Qed.

Lemma mapM_error {A B} (f : A → result B) (l : list A) e e0 :
  (∀ a e', f a = Err e' → e' = e0) → mapM f l = Err e → e = e0.
Proof.
  intros Hf. induction l as [|a l IH]; simpl; [done|].
  destruct (f a) as [b|e'] eqn:Ha; simpl.
  - destruct (mapM f l) as [bs|e'']; simpl; [done|]. intros [= <-]. by apply IH.
  - intros [= <-]. by eapply Hf.
Qed.

Lemma inv_error (M : list vec) e : inv M = Err e → e = LinAlgError.
Proof.
  unfold inv. destruct (mapM _ _) as [cols|e'] eqn:Hm; simpl; [done|].
  intros [= <-]. eapply mapM_error; [|exact Hm]. intros j e''. apply solve_error.
Qed.

Lemma CreateMatrix_error (S T : points) e :
  Affine._CreateMatrix S T = Err e → e = LinAlgError.
Proof.
  unfold Affine._CreateMatrix. destruct (solve _ _) as [H|e'] eqn:Hs; simpl; [done|].
  intros [= <-]. by eapply solve_error.
Qed.

(** With three points on each side, [Affine.__init__] fails with
    [LinAlgError] or not at all. *)
Lemma init_error (S T : points) e :
  length S = 3%nat → length T = 3%nat →
  Affine.__init__ S T = Err e → e = LinAlgError.
Proof.
  intros HS HT. unfold Affine.__init__. rewrite bool_decide_eq_true_2 by done. simpl.
  destruct (Affine._CreateMatrix S T) as [M|e'] eqn:HM; simpl.
  - destruct (inv M) as [N|e'] eqn:HN; simpl; [done|]. intros [= <-]. by eapply inv_error.
  - intros [= <-]. by eapply CreateMatrix_error.
Qed.

(** The matrix of a singular linear part has no inverse. *)
Lemma inv_singular (h0 h1 h2 h3 h4 h5 : Qc) :
  h0 * h4 - h1 * h3 = 0 →
  inv (Affine.affine_matrix h0 h1 h2 h3 h4 h5) = Err LinAlgError.
Proof.
  intros Hdet.
  assert (∃ k, length k = 3%nat ∧ k ≠ replicate 3 0
             ∧ matvec (Affine.affine_matrix h0 h1 h2 h3 h4 h5) k = replicate 3 0)
    as (k & Hk & Hnz & Hker).
  { assert (∀ u v : Qc, (u, v) ≠ (0, 0) → [u; v; 0] ≠ [0; 0; 0]) as Hne.
    { intros u v Huv Heq. apply Huv. apply cons_inv in Heq as [-> Heq].
      by apply cons_inv in Heq as [-> _]. }
    assert (∀ u v : Qc, h0 * u + h1 * v = 0 → h3 * u + h4 * v = 0 →
              matvec (Affine.affine_matrix h0 h1 h2 h3 h4 h5) [u; v; 0] = [0; 0; 0])
      as Hker.
    { intros u v E0 E1. unfold Affine.affine_matrix.
      cbn [matvec dot fmap list_fmap zip_with foldr].
      apply (f_equal2 cons); [etransitivity; [|exact E0]; ring|].
      apply (f_equal2 cons); [etransitivity; [|exact E1]; ring|].
      apply (f_equal2 cons); [ring|done]. }
    destruct (decide (h0 = 0)) as [H0|H0]; [destruct (decide (h1 = 0)) as [H1|H1]|].
    - subst h0 h1.
      destruct (decide (h3 = 0)) as [H3|H3]; [destruct (decide (h4 = 0)) as [H4|H4]|].
      + subst h3 h4. exists [1; 0; 0]. split; [done|]. split.
        * apply Hne. intros Heq. by apply (f_equal fst) in Heq.
        * apply Hker; ring.
      + exists [h4; - h3; 0]. split; [done|]. split.
        * apply Hne. intros Heq. by apply (f_equal fst) in Heq.
        * apply Hker; ring.
      + exists [h4; - h3; 0]. split; [done|]. split.
        * apply Hne. intros Heq. apply (f_equal snd) in Heq. simpl in Heq.
          apply H3. transitivity (- - h3); [ring|]. rewrite Heq. ring.
        * apply Hker; ring.
    - exists [h1; - h0; 0]. split; [done|]. split.
      + apply Hne. intros Heq. by apply (f_equal fst) in Heq.
      + apply Hker; [ring|]. transitivity (- (h0 * h4 - h1 * h3)); [ring|].
        rewrite Hdet. ring.
    - exists [h1; - h0; 0]. split; [done|]. split.
      + apply Hne. intros Heq. apply (f_equal snd) in Heq. simpl in Heq.
        apply H0. transitivity (- - h0); [ring|]. rewrite Heq. ring.
      + apply Hker; [ring|]. transitivity (- (h0 * h4 - h1 * h3)); [ring|].
        rewrite Hdet. ring. }
  unfold inv. cbn [length Affine.affine_matrix seq mapM].
  fold (Affine.affine_matrix h0 h1 h2 h3 h4 h5).
  by rewrite (solve_singular (Affine.affine_matrix h0 h1 h2 h3 h4 h5) (unit_vec 3 0) k
                eq_refl (affine_matrix_shape _ _ _ _ _ _) Hk Hnz Hker).
Qed.

(** A matrix that [inv] inverts has a regular linear part, and the inverse
    is one on both sides. *)
Lemma inv_Ok_det (h0 h1 h2 h3 h4 h5 : Qc) (N : list vec) :
  inv (Affine.affine_matrix h0 h1 h2 h3 h4 h5) = Ok N → h0 * h4 - h1 * h3 ≠ 0.
Proof.
  intros HN Hdet. by rewrite (inv_singular _ _ _ _ _ _ Hdet) in HN.
Qed.

Lemma inv_affine_matrix_r h0 h1 h2 h3 h4 h5 N (x y w : Qc) :
  inv (Affine.affine_matrix h0 h1 h2 h3 h4 h5) = Ok N →
  matvec (Affine.affine_matrix h0 h1 h2 h3 h4 h5) (matvec N [x; y; w]) = [x; y; w].
Proof.
  intros HN.
  destruct (inv_Ok_inv (Affine.affine_matrix h0 h1 h2 h3 h4 h5) N eq_refl HN)
    as (c0 & c1 & c2 & H0 & H1 & H2 & ->).
  destruct (solve_Ok_inv (Affine.affine_matrix h0 h1 h2 h3 h4 h5) (unit_vec 3 0) _ eq_refl
              (affine_matrix_shape _ _ _ _ _ _) H0) as (L0 & S0 & _).
  destruct (solve_Ok_inv (Affine.affine_matrix h0 h1 h2 h3 h4 h5) (unit_vec 3 1) _ eq_refl
              (affine_matrix_shape _ _ _ _ _ _) H1) as (L1 & S1 & _).
  destruct (solve_Ok_inv (Affine.affine_matrix h0 h1 h2 h3 h4 h5) (unit_vec 3 2) _ eq_refl
              (affine_matrix_shape _ _ _ _ _ _) H2) as (L2 & S2 & _).
  destruct c0 as [|c00 [|c01 [|c02 [|??]]]]; try done.
  destruct c1 as [|c10 [|c11 [|c12 [|??]]]]; try done.
  destruct c2 as [|c20 [|c21 [|c22 [|??]]]]; try done.
  change (unit_vec 3 0) with ([1; 0; 0] : vec) in *.
  change (unit_vec 3 1) with ([0; 1; 0] : vec) in *.
  change (unit_vec 3 2) with ([0; 0; 1] : vec) in *.
  clear HN H0 H1 H2 L0 L1 L2.
  unfold Affine.affine_matrix, column in *. unroll.
  apply cons_inv in S0 as [A0 S0]. apply cons_inv in S0 as [B0 S0].
  apply cons_inv in S0 as [C0 _].
  apply cons_inv in S1 as [A1 S1]. apply cons_inv in S1 as [B1 S1].
  apply cons_inv in S1 as [C1 _].
  apply cons_inv in S2 as [A2 S2]. apply cons_inv in S2 as [B2 S2].
  apply cons_inv in S2 as [C2 _].
  apply (f_equal2 cons); [|apply (f_equal2 cons); [|apply (f_equal2 cons); [|done]]].
  - transitivity (x * (h0 * c00 + (h1 * c01 + (h2 * c02 + 0)))
                  + y * (h0 * c10 + (h1 * c11 + (h2 * c12 + 0)))
                  + w * (h0 * c20 + (h1 * c21 + (h2 * c22 + 0)))); [ring|].
    rewrite A0, A1, A2. ring.
  - transitivity (x * (h3 * c00 + (h4 * c01 + (h5 * c02 + 0)))
                  + y * (h3 * c10 + (h4 * c11 + (h5 * c12 + 0)))
                  + w * (h3 * c20 + (h4 * c21 + (h5 * c22 + 0)))); [ring|].
    rewrite B0, B1, B2. ring.
  - transitivity (x * (0 * c00 + (0 * c01 + (1 * c02 + 0)))
                  + y * (0 * c10 + (0 * c11 + (1 * c12 + 0)))
                  + w * (0 * c20 + (0 * c21 + (1 * c22 + 0)))); [ring|].
    rewrite C0, C1, C2. ring.
Qed.

(** What a constructed [Affine] holds. *)
Lemma init_Ok_fit (S T : points) (a : Affine.t) :
  Affine.__init__ S T = Ok a →
  ∃ h0 h1 h2 h3 h4 h5,
    Affine.matrix a = Affine.affine_matrix h0 h1 h2 h3 h4 h5
    ∧ (∀ i, (i < 3)%nat →
         h0 * px S i + h1 * py S i + h2 = px T i
         ∧ h3 * px S i + h4 * py S i + h5 = py T i)
    ∧ h0 * h4 - h1 * h3 ≠ 0
    ∧ inv (Affine.affine_matrix h0 h1 h2 h3 h4 h5) = Ok (Affine.inverseMatrix a).
Proof.
  intros Ha. destruct (init_Ok_inv _ _ _ Ha) as (HS & HT & _ & HM & HN).
  destruct (CreateMatrix_Ok_inv _ _ _ HM) as (h0 & h1 & h2 & h3 & h4 & h5 & HMeq & Hfit & _).
  exists h0, h1, h2, h3, h4, h5. rewrite HMeq in HN |- *.
  split; [done|]. split; [done|]. split; [|done]. by eapply inv_Ok_det.
Qed.

Lemma init_Ok_areas (S T : points) (a : Affine.t) :
  Affine.__init__ S T = Ok a → area2 S ≠ 0 ∧ area2 T ≠ 0.
Proof.
  intros Ha. destruct (init_Ok_inv _ _ _ Ha) as (HS & HT & _ & HM & _).
  destruct (init_Ok_fit _ _ _ Ha) as (h0 & h1 & h2 & h3 & h4 & h5 & _ & Hfit & Hdet & _).
  assert (area2 S ≠ 0) as HDs.
  { intros HD. destruct (system_A_singular S HS HD) as (k & Hk & Hnz & Hker).
    unfold Affine._CreateMatrix in HM.
    by rewrite (solve_singular (Affine.system_A S) (Affine.system_b T) k
                  eq_refl (system_A_shape S) Hk Hnz Hker) in HM. }
  split; [done|]. rewrite <- (fitted_determinant _ _ _ _ _ _ _ _ HS HT Hfit).
  intros Hz. apply Hdet. by apply (Qc_mul_zero_l _ _ HDs).
Qed.

Lemma init_flat_destination (S T : points) :
  length S = 3%nat → length T = 3%nat → area2 S ≠ 0 → area2 T = 0 →
  ∃ M, Affine._CreateMatrix S T = Ok M ∧ inv M = Err LinAlgError.
Proof.
  intros HS HT HDs HDt. destruct (CreateMatrix_regular S T HS HDs) as [M HM].
  exists M. split; [done|].
  destruct (CreateMatrix_Ok_inv _ _ _ HM) as (h0 & h1 & h2 & h3 & h4 & h5 & -> & Hfit & _).
  apply inv_singular. apply (Qc_mul_zero_l _ _ HDs).
  by rewrite (fitted_determinant _ _ _ _ _ _ _ _ HS HT Hfit).
Qed.

Lemma init_flat (S T : points) :
  length S = 3%nat → length T = 3%nat → area2 S = 0 ∨ area2 T = 0 →
  Affine.__init__ S T = Err LinAlgError.
Proof.
  intros HS HT Hflat.
  destruct (Affine.__init__ S T) as [a|e] eqn:Ha.
  - destruct (init_Ok_areas _ _ _ Ha). tauto.
  - f_equal. exact (init_error S T e HS HT Ha).
Qed.

(** The inverse of the matrix of an affine map is the matrix of an affine
    map. *)
Lemma inv_Ok_affine (h0 h1 h2 h3 h4 h5 : Qc) (N : list vec) :
  inv (Affine.affine_matrix h0 h1 h2 h3 h4 h5) = Ok N →
  ∃ g0 g1 g2 g3 g4 g5, N = Affine.affine_matrix g0 g1 g2 g3 g4 g5.
Proof.
  intros HN.
  destruct (inv_Ok_inv (Affine.affine_matrix h0 h1 h2 h3 h4 h5) N eq_refl HN)
    as (c0 & c1 & c2 & H0 & H1 & H2 & ->).
  destruct (solve_Ok_inv (Affine.affine_matrix h0 h1 h2 h3 h4 h5) (unit_vec 3 0) _ eq_refl
              (affine_matrix_shape _ _ _ _ _ _) H0) as (L0 & S0 & _).
  destruct (solve_Ok_inv (Affine.affine_matrix h0 h1 h2 h3 h4 h5) (unit_vec 3 1) _ eq_refl
              (affine_matrix_shape _ _ _ _ _ _) H1) as (L1 & S1 & _).
  destruct (solve_Ok_inv (Affine.affine_matrix h0 h1 h2 h3 h4 h5) (unit_vec 3 2) _ eq_refl
              (affine_matrix_shape _ _ _ _ _ _) H2) as (L2 & S2 & _).
  destruct c0 as [|c00 [|c01 [|c02 [|??]]]]; try done.
  destruct c1 as [|c10 [|c11 [|c12 [|??]]]]; try done.
  destruct c2 as [|c20 [|c21 [|c22 [|??]]]]; try done.
  change (unit_vec 3 0) with ([1; 0; 0] : vec) in *.
  change (unit_vec 3 1) with ([0; 1; 0] : vec) in *.
  change (unit_vec 3 2) with ([0; 0; 1] : vec) in *.
  clear HN H0 H1 H2 L0 L1 L2.
  unfold Affine.affine_matrix, column in *. unroll.
  apply cons_inv in S0 as [_ S0]. apply cons_inv in S0 as [_ S0].
  apply cons_inv in S0 as [C0 _].
  apply cons_inv in S1 as [_ S1]. apply cons_inv in S1 as [_ S1].
  apply cons_inv in S1 as [C1 _].
  apply cons_inv in S2 as [_ S2]. apply cons_inv in S2 as [_ S2].
  apply cons_inv in S2 as [C2 _].
  assert (c02 = 0) as -> by (rewrite <- C0; ring).
  assert (c12 = 0) as -> by (rewrite <- C1; ring).
  assert (c22 = 1) as -> by (rewrite <- C2; ring).
  by exists c00, c10, c20, c01, c11, c21.
Qed.

(** The stored inverse is the affine map that takes the corners of the
    destination back to the corners of the source. *)
Lemma init_Ok_inverse (S T : points) (a : Affine.t) :
  Affine.__init__ S T = Ok a →
  ∃ g0 g1 g2 g3 g4 g5,
    Affine.inverseMatrix a = Affine.affine_matrix g0 g1 g2 g3 g4 g5
    ∧ ∀ i, (i < 3)%nat →
        g0 * px T i + g1 * py T i + g2 = px S i
        ∧ g3 * px T i + g4 * py T i + g5 = py S i.
Proof.
  intros Ha.
  destruct (init_Ok_fit _ _ _ Ha) as (h0 & h1 & h2 & h3 & h4 & h5 & HM & Hfit & Hdet & HN).
  destruct (inv_Ok_affine _ _ _ _ _ _ _ HN) as (g0 & g1 & g2 & g3 & g4 & g5 & Hg).
  exists g0, g1, g2, g3, g4, g5. split; [done|]. intros i Hi.
  destruct (Hfit i Hi) as [E F].
  pose proof (inv_affine_matrix h0 h1 h2 h3 h4 h5 _ (px S i) (py S i) 1 Hdet HN) as Hinv.
  rewrite Hg in Hinv. unfold Affine.affine_matrix in Hinv.
  cbn [matvec dot fmap list_fmap zip_with foldr] in Hinv.
  apply cons_inv in Hinv as [X Hinv]. apply cons_inv in Hinv as [Y _].
  rewrite <- E, <- F. split.
  - etransitivity; [|exact X]. ring.
  - etransitivity; [|exact Y]. ring.
Qed.

Lemma affine_matrix_eq (g0 g1 g2 g3 g4 g5 h0 h1 h2 h3 h4 h5 : Qc) :
  [g0; g1; g2; g3; g4; g5] = [h0; h1; h2; h3; h4; h5] →
  Affine.affine_matrix g0 g1 g2 g3 g4 g5 = Affine.affine_matrix h0 h1 h2 h3 h4 h5.
Proof.
  intros Heq.
  apply cons_inv in Heq as [-> Heq]. apply cons_inv in Heq as [-> Heq].
  apply cons_inv in Heq as [-> Heq]. apply cons_inv in Heq as [-> Heq].
  apply cons_inv in Heq as [-> Heq]. by apply cons_inv in Heq as [-> _].
Qed.

(** The fit in the other direction is the stored inverse. *)
Lemma init_swap (S T : points) (a a' : Affine.t) :
  Affine.__init__ S T = Ok a → Affine.__init__ T S = Ok a' →
  Affine.matrix a' = Affine.inverseMatrix a.
Proof.
  intros Ha Ha'.
  destruct (init_Ok_inverse _ _ _ Ha) as (g0 & g1 & g2 & g3 & g4 & g5 & -> & Hback).
  destruct (init_Ok_inv _ _ _ Ha') as (_ & _ & _ & HM' & _).
  destruct (CreateMatrix_Ok_inv _ _ _ HM')
    as (h0 & h1 & h2 & h3 & h4 & h5 & -> & _ & Huniq).
  symmetry. apply affine_matrix_eq, Huniq, Hback.
Qed.

(** *** Triangles moved by whole pixels *)

Lemma px_shift (dx dy : Z) (S : points) (i : nat) :
  (i < length S)%nat → px (shift dx dy S) i = px S i + of_int dx.
Proof.
  intros Hi. unfold px, shift, points, point in *. rewrite list_lookup_fmap.
  destruct (lookup_lt_is_Some_2 S i Hi) as [p ->]. done.
Qed.

Lemma py_shift (dx dy : Z) (S : points) (i : nat) :
  (i < length S)%nat → py (shift dx dy S) i = py S i + of_int dy.
Proof.
  intros Hi. unfold py, shift, points, point in *. rewrite list_lookup_fmap.
  destruct (lookup_lt_is_Some_2 S i Hi) as [p ->]. done.
Qed.

(** The inverse of a shift is the shift back. *)
Lemma init_shift (dx dy : Z) (S : points) (a : Affine.t) :
  Affine.__init__ S (shift dx dy S) = Ok a →
  Affine.inverseMatrix a = Affine.affine_matrix 1 0 (- of_int dx) 0 1 (- of_int dy).
Proof.
  intros Ha.
  destruct (init_Ok_inv _ _ _ Ha) as (HS & HT & _).
  destruct (init_Ok_areas _ _ _ Ha) as [HDs HDt].
  destruct (init_regular _ _ HT HS HDt HDs) as [a' Ha'].
  rewrite <- (init_swap _ _ _ _ Ha Ha').
  destruct (init_Ok_inv _ _ _ Ha') as (_ & _ & _ & HM' & _).
  destruct (CreateMatrix_Ok_inv _ _ _ HM')
    as (h0 & h1 & h2 & h3 & h4 & h5 & -> & _ & Huniq).
  symmetry. apply affine_matrix_eq, Huniq. intros i Hi.
  rewrite px_shift, py_shift by lia. split; ring.
Qed.

Section sample.
Context {P : Type} `{Pixel P}.

(** A sample taken on a point of the grid of the source image is the pixel
    at that point. *)
Lemma sample_grid (self : Affine.t) (src : image P) (rc : nat * nat) (r0 c0 : nat) (p : P) :
  Affine.valuePoint self rc = (of_int (Z.of_nat r0), of_int (Z.of_nat c0)) →
  rectangular src → uint8_image src →
  (2 ≤ height src)%nat → (2 ≤ width src)%nat →
  getpixel src r0 c0 = Some p →
  Affine.sample self src rc = p.
Proof.
  intros Hvp Hrect Hu8 Hh Hw Hp. unfold Affine.sample. rewrite Hvp.
  transitivity (pixel_of (ch p)); [|apply pixel_of_ch].
  apply pixel_of_ext. intros k Hk.
  rewrite (interpn_grid _ _ _ p) by done.
  apply astype_round_of_int. by eapply uint8_image_getpixel.
Qed.

End sample.

End FitFacts.
Import FitFacts.











Section checks.
Context {P : Type} `{Pixel P}.
Variable polygon : points → nat → nat → bool.

(** X6.  The tests of [Affine] on its arguments.  The constructor raises
    [ValueError] when one argument is not an array, has not the shape
    [(3, 2)] or has not the dtype [float64], and it does so before it solves
    anything; on two arrays that pass the tests it is the fit of their rows,
    which never raises [ValueError].  [transform] raises [TypeError] when one
    image is not an array and is the warp otherwise. *)
Theorem affine_checks_its_arguments (source destination : pyobj array)
    (self : Affine.t) (sourceImage destinationImage : pyobj (image P)) :
  (PyAffine.__init__ source destination = Err ValueError
   ↔ PyAffine.accepted source && PyAffine.accepted destination = false)
  ∧ (∀ s d, source = ndarray s → destination = ndarray d →
       PyAffine.accepted source && PyAffine.accepted destination = true →
       length (points_of s) = 3%nat ∧ length (points_of d) = 3%nat
       ∧ PyAffine.__init__ source destination
         = Affine.__init__ (points_of s) (points_of d))
  ∧ (PyAffine.transform polygon self sourceImage destinationImage = Err TypeError
     ↔ is_ndarray sourceImage && is_ndarray destinationImage = false)
  ∧ (∀ src dst, sourceImage = ndarray src → destinationImage = ndarray dst →
       PyAffine.transform polygon self sourceImage destinationImage
       = Ok (Affine.transform polygon self src dst)).
Proof.
  assert (∀ s d, PyAffine.accepted (ndarray s) && PyAffine.accepted (ndarray d) = true →
            length (points_of s) = 3%nat ∧ length (points_of d) = 3%nat
            ∧ PyAffine.__init__ (ndarray s) (ndarray d)
              = Affine.__init__ (points_of s) (points_of d)) as Hok.
  { intros s d Hacc. apply andb_prop in Hacc as [Hs Hd].
    apply andb_prop in Hs as [Hs1 Hs2]. apply andb_prop in Hd as [Hd1 Hd2].
    apply bool_decide_eq_true in Hs1, Hs2, Hd1, Hd2.
    unfold points_of. rewrite Hs1, Hd1. split; [done|]. split; [done|].
    unfold PyAffine.__init__, points_of.
    rewrite !bool_decide_eq_false_2 by tauto. by rewrite Hs1, Hd1. }
  split; [|split; [|split]].
  - split.
    + intros Herr.
      destruct (PyAffine.accepted source && PyAffine.accepted destination) eqn:Hacc;
        [|done].
      destruct source as [s|]; [|done]. destruct destination as [d|];
        [|by rewrite andb_false_r in Hacc].
      destruct (Hok s d Hacc) as (Hs & Hd & Heq). rewrite Heq in Herr.
      by pose proof (init_error _ _ _ Hs Hd Herr).
    + intros Hacc. destruct source as [s|]; [|done]. destruct destination as [d|]; [|done].
      unfold PyAffine.__init__. simpl in Hacc.
      destruct (decide (shape s ≠ [3; 2]%nat ∨ shape d ≠ [3; 2]%nat)) as [Hshape|Hshape];
        [by rewrite bool_decide_eq_true_2|rewrite bool_decide_eq_false_2 by done].
      destruct (decide (array_dtype s ≠ float64 ∨ array_dtype d ≠ float64))
        as [Hdtype|Hdtype];
        [by rewrite bool_decide_eq_true_2|exfalso].
      assert (shape s = [3; 2]%nat) as Hs1
        by (destruct (decide (shape s = [3; 2]%nat)); tauto).
      assert (shape d = [3; 2]%nat) as Hd1
        by (destruct (decide (shape d = [3; 2]%nat)); tauto).
      assert (array_dtype s = float64) as Hs2
        by (destruct (decide (array_dtype s = float64)); tauto).
      assert (array_dtype d = float64) as Hd2
        by (destruct (decide (array_dtype d = float64)); tauto).
      by rewrite !bool_decide_eq_true_2 in Hacc.
  - intros s d -> ->. apply Hok.
  - destruct sourceImage, destinationImage; simpl; split; done.
  - by intros src dst -> ->.
Qed.

End checks.

(** ** The warp *)

Module OrderFacts.
Section order_facts.
Context {P : Type} `{Pixel P}.
Variable polygon : points → nat → nat → bool.

Lemma height_shape (img img' : image P) :
  length <$> img = length <$> img' → height img = height img'.
Proof.
  intros Hshape. unfold height.
  by rewrite <- (length_fmap length img), Hshape, length_fmap.
Qed.

Lemma width_shape (img img' : image P) :
  length <$> img = length <$> img' → width img = width img'.
Proof.
  intros Hshape. unfold width. destruct img as [|row img], img' as [|row' img']; try done.
  simpl in *. by injection Hshape as ->.
Qed.

(** Two warps in a row, pixel by pixel. *)
Lemma getpixel_transform_twice (a1 a2 : Affine.t) (src1 src2 dst : image P) (r c : nat) :
  getpixel (Affine.transform polygon a2 src2 (Affine.transform polygon a1 src1 dst)) r c
  = if decide ((r < height dst)%nat ∧ (c < width dst)%nat
               ∧ polygon (Affine.vertices a2) c r = true)
    then (λ _, Affine.sample a2 src2 (r, c)) <$> getpixel dst r c
    else if decide ((r < height dst)%nat ∧ (c < width dst)%nat
                    ∧ polygon (Affine.vertices a1) c r = true)
         then (λ _, Affine.sample a1 src1 (r, c)) <$> getpixel dst r c
         else getpixel dst r c.
Proof.
  rewrite getpixel_transform.
  rewrite (height_shape _ dst), (width_shape _ dst) by apply shape_transform.
  rewrite getpixel_transform.
  repeat case_decide; try done. by destruct (getpixel dst r c).
Qed.

End order_facts.
End OrderFacts.
Import OrderFacts.

Module RangeFacts.

(** Inequalities between rationals in canonical form, read as inequalities
    between fractions. *)
Ltac qc2q :=
  unfold Qcle, Qclt, Qcminus, Qcplus, Qcmult, Qcopp, of_int, Qc_of_Z, Q2Qc, this in *;
  rewrite ?Qred_correct in *.

Lemma lerp_range (t u v lo hi : Qc) :
  0 <= t → t <= 1 → lo <= u → u <= hi → lo <= v → v <= hi →
  lo <= (1 - t) * u + t * v ∧ (1 - t) * u + t * v <= hi.
Proof.
  intros Ht0 Ht1 Hu0 Hu1 Hv0 Hv1. qc2q. split; nra.
Qed.

Lemma floor_spec (q : Qc) : of_int (floor q) <= q ∧ q < of_int (floor q + 1).
Proof.
  unfold floor. split; qc2q; [apply Qfloor_le|apply Qlt_floor].
Qed.

Lemma ceil_spec (q : Qc) : of_int (ceil q - 1) < q ∧ q <= of_int (ceil q).
Proof.
  unfold ceil. split; qc2q; [apply Qceiling_lt|apply Qle_ceiling].
Qed.

Lemma of_int_le (a b : Z) : (a ≤ b)%Z ↔ of_int a <= of_int b.
Proof. apply Z2Qc_inj_le. Qed.

Lemma of_int_lt (a b : Z) : (a < b)%Z ↔ of_int a < of_int b.
Proof. apply Z2Qc_inj_lt. Qed.

(** Inside the grid, [find_indices] returns a cell of the grid and a
    position in the cell. *)
Lemma find_indices_in_bounds (n : nat) (x : Qc) :
  (2 ≤ n)%nat → SciPy.out_of_bounds n x = false →
  ∃ i t, SciPy.find_indices n x = (i, t)
       ∧ (0 ≤ i ≤ Z.of_nat n - 2)%Z ∧ 0 <= t ∧ t <= 1.
Proof.
  intros Hn Hoob. unfold SciPy.out_of_bounds in Hoob.
  apply orb_false_elim in Hoob as [H0 H1].
  apply bool_decide_eq_false in H0, H1.
  apply Qcnot_lt_le in H0, H1.
  destruct (ceil_spec x) as [Hc0 Hc1].
  assert (0 ≤ ceil x)%Z as Hc_lo.
  { apply of_int_le. rewrite of_int_0. by eapply Qcle_trans. }
  assert (ceil x - 1 < Z.of_nat n - 1)%Z as Hc_hi.
  { apply of_int_lt. by eapply Qclt_le_trans. }
  unfold SciPy.find_indices.
  replace (Z.min (Z.max (ceil x) 0) (Z.of_nat n) - 1)%Z with (ceil x - 1)%Z by lia.
  destruct (decide (ceil x - 1 < 0)%Z) as [Hneg|Hpos].
  - rewrite (decide_False (P := (Z.of_nat n - 2 < 0)%Z)) by lia.
    eexists _, _. split; [done|]. split; [lia|].
    assert (ceil x = 0%Z) as Hz by lia. rewrite Hz, of_int_0 in Hc1.
    rewrite of_int_0. clear -H0 Hc1. qc2q. split; lra.
  - rewrite (decide_False (P := (Z.of_nat n - 2 < ceil x - 1)%Z)) by lia.
    eexists _, _. split; [done|]. split; [lia|].
    replace (of_int (ceil x)) with (of_int (ceil x - 1) + 1) in Hc1
      by (unfold of_int; rewrite Z2Qc_inj_sub, Z2Qc_inj_1; ring).
    clear -Hc0 Hc1. generalize dependent (of_int (ceil x - 1)). intros y Hc0 Hc1.
    qc2q. split; lra.
Qed.

Section range.
Context {P : Type} `{Pixel P}.

Lemma ch_range (p : P) (k : nat) :
  Forall (λ v, 0 ≤ v < 256)%Z (chans p) → (0 ≤ ch p k < 256)%Z.
Proof.
  intros Hp. unfold ch. destruct (chans p !! k) as [v|] eqn:Hv; simpl; [|lia].
  rewrite Forall_forall in Hp. by apply Hp, list_elem_of_lookup_2 with k.
Qed.

Lemma value_at_range (values : image P) (i j : Z) (k : nat) :
  uint8_image values →
  0 <= SciPy.value_at values i j k ∧ SciPy.value_at values i j k <= of_int 255.
Proof.
  intros Hu8. unfold SciPy.value_at.
  destruct (getpixel values _ _) as [p|] eqn:Hp; [|by vm_compute].
  assert (0 ≤ ch p k < 256)%Z as Hch.
  { apply ch_range. unfold uint8_image, getpixel in *.
    destruct (values !! Z.to_nat i) as [row|] eqn:Hr; [|done]. simpl in Hp.
    rewrite Forall_forall in Hu8. specialize (Hu8 row (list_elem_of_lookup_2 _ _ _ Hr)).
    rewrite Forall_forall in Hu8. exact (Hu8 p (list_elem_of_lookup_2 _ _ _ Hp)). }
  rewrite <- of_int_0. split; apply (proj1 (of_int_le _ _)); lia.
Qed.

(** Inside the grid the interpolant of 8-bit samples is a number between 0
    and 255. *)
Lemma interpn_range (values : image P) (xi : Qc * Qc) (k : nat) :
  uint8_image values → (2 ≤ height values)%nat → (2 ≤ width values)%nat →
  SciPy.out_of_bounds (height values) xi.1 || SciPy.out_of_bounds (width values) xi.2
  = false →
  ∃ q, SciPy.interpn values xi k = Some q ∧ 0 <= q ∧ q <= of_int 255.
Proof.
  intros Hu8 Hh Hw Hoob. unfold SciPy.interpn. destruct xi as [y x]. simpl in Hoob.
  rewrite Hoob. apply orb_false_elim in Hoob as [Hy Hx].
  destruct (find_indices_in_bounds _ y Hh Hy) as (i & ty & -> & _ & Hty0 & Hty1).
  destruct (find_indices_in_bounds _ x Hw Hx) as (j & tx & -> & _ & Htx0 & Htx1).
  eexists. split; [done|].
  destruct (value_at_range values i j k Hu8) as [A0 A1].
  destruct (value_at_range values i (j + 1) k Hu8) as [B0 B1].
  destruct (value_at_range values (i + 1) j k Hu8) as [C0 C1].
  destruct (value_at_range values (i + 1) (j + 1) k Hu8) as [D0 D1].
  destruct (lerp_range tx _ _ 0 (of_int 255) Htx0 Htx1 A0 A1 B0 B1) as [E0 E1].
  destruct (lerp_range tx _ _ 0 (of_int 255) Htx0 Htx1 C0 C1 D0 D1) as [F0 F1].
  destruct (lerp_range ty _ _ 0 (of_int 255) Hty0 Hty1 E0 E1 F0 F1) as [G0 G1].
  match goal with |- 0 <= ?q ∧ _ =>
    replace q with ((1 - ty) * ((1 - tx) * SciPy.value_at values i j k
                                + tx * SciPy.value_at values i (j + 1) k)
                    + ty * ((1 - tx) * SciPy.value_at values (i + 1) j k
                            + tx * SciPy.value_at values (i + 1) (j + 1) k)) by ring
  end.
  done.
Qed.

End range.

(** Rounding a number between 0 and [hi] gives a whole number between 0
    and [hi], at most one half away. *)
Lemma round_range (q : Qc) (hi : Z) :
  0 <= q → q <= of_int hi →
  ∃ z, round q = of_int z ∧ (0 ≤ z ≤ hi)%Z
     ∧ q - Q2Qc (1 # 2) <= of_int z ∧ of_int z <= q + Q2Qc (1 # 2).
Proof.
  intros Hq0 Hq1. destruct (floor_spec q) as [Hf0 Hf1].
  assert (0 ≤ floor q ≤ hi)%Z as Hf by (apply floor_range; [by rewrite of_int_0|done]).
  replace (of_int (floor q + 1)) with (of_int (floor q) + 1) in Hf1
    by (unfold of_int; rewrite Z2Qc_inj_add, Z2Qc_inj_1; ring).
  assert (Q2Qc (1 # 2) <= q - of_int (floor q) → (floor q + 1 ≤ hi)%Z) as Hup.
  { intros Hd. apply Z.lt_succ_r. unfold Z.succ.
    destruct (decide (floor q = hi)) as [Heq|]; [|lia]. exfalso.
    rewrite Heq in Hd. clear -Hd Hq1. generalize dependent (of_int hi). intros y Hq1 Hd.
    assert (Q2Qc (1 # 2) <= 0) as Hbad.
    { eapply Qcle_trans; [exact Hd|]. qc2q. lra. }
    by vm_compute in Hbad. }
  assert (of_int (floor q + 1) = of_int (floor q) + 1) as Hsucc
    by (unfold of_int; rewrite Z2Qc_inj_add, Z2Qc_inj_1; ring).
  unfold round. cbv zeta.
  destruct (decide (q - of_int (floor q) < Q2Qc (1 # 2))) as [Hlt|Hge].
  { exists (floor q). split; [done|]. split; [lia|].
    clear -Hf0 Hlt. generalize dependent (of_int (floor q)). intros y Hf0 Hlt.
    assert (this (Q2Qc (1 # 2)) == 1 # 2)%Q as Hhalf by (apply Qred_correct).
    unfold Qcle, Qclt, Qcminus, Qcplus, Qcopp in *. simpl this in *.
    rewrite ?Qred_correct in *. simpl in Hhalf. split; lra. }
  apply Qcnot_lt_le in Hge. specialize (Hup Hge).
  assert (q - Q2Qc (1 # 2) <= of_int (floor q) + 1
          ∧ of_int (floor q) + 1 <= q + Q2Qc (1 # 2)) as Hnext.
  { clear -Hf0 Hf1 Hge. generalize dependent (of_int (floor q)). intros y Hf0 Hf1 Hge.
    unfold Qcle, Qclt, Qcminus, Qcplus, Qcopp in *. simpl this in *.
    rewrite ?Qred_correct in *. split; lra. }
  destruct (decide (Q2Qc (1 # 2) < q - of_int (floor q))) as [Hgt|Hle].
  { exists (floor q + 1)%Z. split; [done|]. split; [lia|]. by rewrite Hsucc. }
  apply Qcnot_lt_le in Hle.
  destruct (Z.even (floor q)).
  - exists (floor q). split; [done|]. split; [lia|].
    clear -Hf0 Hle. generalize dependent (of_int (floor q)). intros y Hf0 Hle.
    unfold Qcle, Qclt, Qcminus, Qcplus, Qcopp in *. simpl this in *.
    rewrite ?Qred_correct in *. split; lra.
  - exists (floor q + 1)%Z. split; [done|]. split; [lia|]. by rewrite Hsucc.
Qed.

End RangeFacts.
Import RangeFacts.

Section transform_extras.
Context {P : Type} `{Pixel P}.
Variable polygon : points → nat → nat → bool.

(** X7.  [transform] writes the pixels of the destination image that the
    mask of the destination triangle selects, each with its sample, and no
    other: every other pixel keeps its value, and the image keeps its
    shape. *)
Theorem transform_writes_the_mask_only (self : Affine.t) (src dst : image P) :
  length <$> Affine.transform polygon self src dst = length <$> dst
  ∧ ∀ r c,
      getpixel (Affine.transform polygon self src dst) r c
      = if decide ((r < height dst)%nat ∧ (c < width dst)%nat
                   ∧ polygon (Affine.vertices self) c r = true)
        then (λ _, Affine.sample self src (r, c)) <$> getpixel dst r c
        else getpixel dst r c.
Proof.
  split; [apply shape_transform|]. intros r c. apply getpixel_transform.
Qed.

End transform_extras.

Section shift_extras.
Context {P : Type} `{Pixel P}.
Variable polygon : points → nat → nat → bool.


End shift_extras.


Section order_extras.
Context {P : Type} `{Pixel P}.
Variable polygon : points → nat → nat → bool.

(** X9.  Two warps into one destination image, in either order: a pixel
    holds the sample of the warp made last among those whose mask selects
    it, and its old value if none does.  The two orders therefore agree on
    every pixel that the two masks do not both select. *)
Theorem warps_commute_outside_shared_pixels (a1 a2 : Affine.t)
    (src1 src2 dst : image P) (r c : nat) (p : P) :
  rectangular dst → getpixel dst r c = Some p →
  let t12 := Affine.transform polygon a2 src2 (Affine.transform polygon a1 src1 dst) in
  let t21 := Affine.transform polygon a1 src1 (Affine.transform polygon a2 src2 dst) in
  let in1 := polygon (Affine.vertices a1) c r in
  let in2 := polygon (Affine.vertices a2) c r in
  getpixel t12 r c
  = Some (if in2 then Affine.sample a2 src2 (r, c)
          else if in1 then Affine.sample a1 src1 (r, c) else p)
  ∧ getpixel t21 r c
    = Some (if in1 then Affine.sample a1 src1 (r, c)
            else if in2 then Affine.sample a2 src2 (r, c) else p)
  ∧ (in1 && in2 = false → getpixel t12 r c = getpixel t21 r c).
Proof.
  intros Hrect Hp t12 t21 in1 in2.
  destruct (getpixel_lt _ _ _ _ Hrect Hp) as [Hr Hc].
  subst t12 t21 in1 in2. rewrite !getpixel_transform_twice, Hp.
  destruct (polygon (Affine.vertices a1) c r), (polygon (Affine.vertices a2) c r);
    simpl; repeat case_decide; first [done | exfalso; intuition discriminate].
Qed.

End order_extras.

Lemma warps_commute_outside_shared_pixels_witness :
  ∃ a1 a2, Affine.__init__ Example.small Example.small = Ok a1
    ∧ Affine.__init__ Example.large Example.small = Ok a2
    ∧ (rectangular Example.sevens ∧ getpixel Example.sevens 0 2 = Some 7%Z)
    ∧ getpixel (Affine.transform Reference.polygon a2 Example.ramp
                  (Affine.transform Reference.polygon a1 Example.ramp Example.sevens)) 0 2
      = Some (if Reference.polygon (Affine.vertices a2) 2 0
              then Affine.sample a2 Example.ramp (0, 2)%nat
              else if Reference.polygon (Affine.vertices a1) 2 0
                   then Affine.sample a1 Example.ramp (0, 2)%nat else 7%Z).
Proof.
  destruct (Affine.__init__ Example.small Example.small) as [a1|] eqn:Ha1;
    [|by vm_compute in Ha1].
  destruct (Affine.__init__ Example.large Example.small) as [a2|] eqn:Ha2;
    [|by vm_compute in Ha2].
  exists a1, a2. split; [done|]. split; [done|].
  destruct example_images as [_ [Hre _]].
  split; [exact (conj Hre eq_refl)|].
  exact (proj1 (warps_commute_outside_shared_pixels Reference.polygon a1 a2 Example.ramp
                  Example.ramp Example.sevens 0 2 7%Z Hre eq_refl)).
Defined.

Section range_extras.
Context {P : Type} `{Pixel P}.

(** X10.  A sample that [transform] takes inside an 8-bit source image is
    stored without loss: the bilinear interpolant lies between 0 and 255,
    and the stored channel is this number rounded to a nearest integer (at
    most one half away), a value of [uint8] that the cast does not wrap. *)
Theorem samples_are_rounded_without_wrapping (self : Affine.t) (src : image P)
    (rc : nat * nat) (k : nat) :
  uint8_image src → (2 ≤ height src)%nat → (2 ≤ width src)%nat →
  SciPy.out_of_bounds (height src) (Affine.valuePoint self rc).1
  || SciPy.out_of_bounds (width src) (Affine.valuePoint self rc).2 = false →
  (k < nchan)%nat →
  ∃ q, SciPy.interpn src (Affine.valuePoint self rc) k = Some q
     ∧ 0 <= q ∧ q <= of_int 255
     ∧ round q = of_int (ch (Affine.sample self src rc) k)
     ∧ (0 ≤ ch (Affine.sample self src rc) k ≤ 255)%Z
     ∧ q - Q2Qc (1 # 2) <= of_int (ch (Affine.sample self src rc) k)
     ∧ of_int (ch (Affine.sample self src rc) k) <= q + Q2Qc (1 # 2).
Proof.
  intros Hu8 Hh Hw Hoob Hk.
  destruct (interpn_range src (Affine.valuePoint self rc) k Hu8 Hh Hw Hoob)
    as (q & Hq & Hq0 & Hq1).
  destruct (round_range q 255 Hq0 Hq1) as (z & Hz & Hrange & Hlo & Hhi).
  assert (ch (Affine.sample self src rc) k = z) as ->.
  { unfold Affine.sample. rewrite ch_pixel_of, Hq by done. simpl. rewrite Hz.
    apply astype_uint8_of_int. lia. }
  exists q. by rewrite Hz.
Qed.

End range_extras.

Lemma samples_are_rounded_without_wrapping_witness :
  ∃ a, Affine.__init__ Example.large Example.small = Ok a
    ∧ (uint8_image Example.ramp ∧ (2 ≤ height Example.ramp)%nat
       ∧ (2 ≤ width Example.ramp)%nat
       ∧ SciPy.out_of_bounds (height Example.ramp) (Affine.valuePoint a (1, 0)%nat).1
         || SciPy.out_of_bounds (width Example.ramp) (Affine.valuePoint a (1, 0)%nat).2
         = false
       ∧ (0 < nchan (P := Z))%nat)
    ∧ ∃ q, SciPy.interpn Example.ramp (Affine.valuePoint a (1, 0)%nat) 0 = Some q
        ∧ 0 <= q ∧ q <= of_int 255
        ∧ round q = of_int (ch (Affine.sample a Example.ramp (1, 0)%nat) 0)
        ∧ (0 ≤ ch (Affine.sample a Example.ramp (1, 0)%nat) 0 ≤ 255)%Z
        ∧ q - Q2Qc (1 # 2) <= of_int (ch (Affine.sample a Example.ramp (1, 0)%nat) 0)
        ∧ of_int (ch (Affine.sample a Example.ramp (1, 0)%nat) 0) <= q + Q2Qc (1 # 2).
Proof.
  assert ((a ←ᵣ Affine.__init__ Example.large Example.small;
           Ok (SciPy.out_of_bounds (height Example.ramp) (Affine.valuePoint a (1, 0)%nat).1
               || SciPy.out_of_bounds (width Example.ramp)
                    (Affine.valuePoint a (1, 0)%nat).2))
          = Ok false) as Hrun by (by vm_compute).
  destruct (Affine.__init__ Example.large Example.small) as [a|] eqn:Ha; [|done].
  exists a. split; [done|]. cbn [rbind] in Hrun.
  assert (∀ x y : bool, Ok x = Ok y → x = y) as Hinj by (by intros ?? [= ->]).
  apply Hinj in Hrun.
  destruct example_images as [[_ Hus] _].
  assert (2 ≤ height Example.ramp)%nat as Hh by (unfold height; simpl; lia).
  assert (2 ≤ width Example.ramp)%nat as Hw by (unfold width; simpl; lia).
  assert (0 < nchan (P := Z))%nat as Hk by (simpl; lia).
  split; [exact (conj Hus (conj Hh (conj Hw (conj Hrun Hk))))|].
  exact (samples_are_rounded_without_wrapping a Example.ramp (1, 0)%nat 0 Hus Hh Hw Hrun Hk).
Defined.

(** ** The blend *)

Module BlendFacts.
Section blend_facts.
Context {P : Type} `{Pixel P}.
Variable polygon : points → nat → nat → bool.

Lemma shape_zip_with (f : P → P → P) (ts te : image P) :
  length <$> ts = length <$> te →
  length <$> zip_with (zip_with f) ts te = length <$> ts.
Proof.
  revert te. induction ts as [|rs ts IH]; intros [|re te] Hshape; try done.
  simpl in *. apply cons_inv in Hshape as [Hrow Hshape].
  rewrite IH by done. f_equal. rewrite length_zip_with. lia.
Qed.

(** The shape of a frame is the shape of the two blank images. *)
Lemma getBlendedImage_shape (self : Blender.t P) (alpha : Qc) (frame : image P) :
  Blender.getBlendedImage polygon self alpha = Ok frame →
  length <$> frame
  = replicate (height (Blender.startImage self)) (width (Blender.startImage self)).
Proof.
  unfold Blender.getBlendedImage.
  destruct (Blender.targetPoints self alpha) as [tp|]; [|done]. cbn [rbind].
  destruct (Blender.warp_all _ _ _ _ _) as [[ts te]|] eqn:Hwarp; [|done]. cbn [rbind fst snd].
  intros Hframe. destruct (cross_dissolve_Ok_inv _ _ _ _ Hframe) as [Hshape ->].
  destruct (warp_all_shape _ _ _ _ _ _ Hwarp) as [Hs _]. simpl in Hs.
  by rewrite shape_zip_with, Hs, shape_Image_new.
Qed.

Lemma targetPoints_unequal (self : Blender.t P) (alpha : Qc) :
  length (Blender.startPoints self) ≠ length (Blender.endPoints self) →
  length (Blender.startPoints self) ≠ 1%nat → length (Blender.endPoints self) ≠ 1%nat →
  Blender.targetPoints self alpha = Err ValueError.
Proof.
  intros Hne Hs He. unfold Blender.targetPoints. rewrite decide_False by done.
  destruct (Blender.startPoints self) as [|p [|??]], (Blender.endPoints self) as [|q [|??]];
    done.
Qed.

Lemma length_targetPoints (self : Blender.t P) (alpha : Qc) (tp : points) :
  length (Blender.startPoints self) = length (Blender.endPoints self) →
  Blender.targetPoints self alpha = Ok tp →
  length tp = length (Blender.startPoints self).
Proof.
  intros Hlen. unfold Blender.targetPoints. rewrite decide_True by done.
  intros [= <-]. rewrite length_zip_with. lia.
Qed.

Lemma corners_in_range (a : points) (tri : nat * nat * nat) :
  (tri.1.1 < length a ∧ tri.1.2 < length a ∧ tri.2 < length a)%nat →
  ∃ T, Blender.corners a tri = Ok T.
Proof.
  intros (H0 & H1 & H2). unfold Blender.corners, points, point in *.
  destruct (lookup_lt_is_Some_2 a _ H0) as [p0 ->].
  destruct (lookup_lt_is_Some_2 a _ H1) as [p1 ->].
  destruct (lookup_lt_is_Some_2 a _ H2) as [p2 ->]. by eexists.
Qed.

(** One round of the loop, on a triangle whose corners exist: it raises on a
    flat triangle, [LinAlgError], and on no other. *)
Lemma warp_triangle_cases (self : Blender.t P) (tp : points)
    (targets : image P * image P) (tri : nat * nat * nat) (S E T : points) :
  Blender.corners (Blender.startPoints self) tri = Ok S →
  Blender.corners (Blender.endPoints self) tri = Ok E →
  Blender.corners tp tri = Ok T →
  if decide (area2 S ≠ 0 ∧ area2 E ≠ 0 ∧ area2 T ≠ 0)
  then ∃ targets', Blender.warp_triangle polygon self tp targets tri = Ok targets'
  else Blender.warp_triangle polygon self tp targets tri = Err LinAlgError.
Proof.
  intros HS HE HT. unfold Blender.warp_triangle. rewrite HS, HE, HT. cbn [rbind].
  pose proof (corners_length _ _ _ HS) as HlS.
  pose proof (corners_length _ _ _ HE) as HlE.
  pose proof (corners_length _ _ _ HT) as HlT.
  case_decide as Hnd.
  - destruct Hnd as (HDs & HDe & HDt).
    destruct (init_regular S T) as [a1 ->]; [done..|].
    destruct (init_regular E T) as [a2 ->]; [done..|]. cbn [rbind]. by eexists.
  - destruct (Affine.__init__ S T) as [a1|e1] eqn:Ha1; cbn [rbind].
    + destruct (init_Ok_areas _ _ _ Ha1) as [HDs HDt].
      rewrite (init_flat E T); [done..|].
      destruct (decide (area2 E = 0)); [by left|]. tauto.
    + f_equal. by eapply (init_error S T).
Qed.

Lemma warp_all_flat (self : Blender.t P) (tp : points) (tris : list (nat * nat * nat)) :
  length tp = length (Blender.startPoints self) →
  length (Blender.endPoints self) = length (Blender.startPoints self) →
  Forall (λ tri : nat * nat * nat,
            (tri.1.1 < length (Blender.startPoints self)
             ∧ tri.1.2 < length (Blender.startPoints self)
             ∧ tri.2 < length (Blender.startPoints self))%nat) tris →
  Exists (λ tri, ¬ (Blender.nondegenerate (Blender.startPoints self) tri
                    ∧ Blender.nondegenerate (Blender.endPoints self) tri
                    ∧ Blender.nondegenerate tp tri)) tris →
  ∀ targets, Blender.warp_all polygon self tp targets tris = Err LinAlgError.
Proof.
  intros Htp Hep Hrange Hflat.
  induction Hrange as [|tri tris Hin _ IH]; [by inversion Hflat|]. intros targets.
  cbn [Blender.warp_all].
  destruct (corners_in_range (Blender.startPoints self) tri Hin) as [S HS].
  destruct (corners_in_range (Blender.endPoints self) tri) as [E HE];
    [by rewrite Hep|].
  destruct (corners_in_range tp tri) as [T HT]; [by rewrite Htp|].
  pose proof (warp_triangle_cases self tp targets tri S E T HS HE HT) as Hcases.
  case_decide as Hnd.
  - destruct Hcases as [targets' ->]. cbn [rbind]. apply IH.
    apply Exists_cons in Hflat as [Hhere|Hlater]; [|done].
    exfalso. apply Hhere. unfold Blender.nondegenerate. by rewrite HS, HE, HT.
  - by rewrite Hcases.
Qed.

Lemma zip_with_lerp_same (alpha : Qc) (pts : points) :
  zip_with (Blender.lerp alpha) pts pts = pts.
Proof.
  induction pts as [|[x y] pts IH]; [done|]. simpl. rewrite IH. f_equal.
  unfold Blender.lerp. simpl. f_equal; ring.
Qed.

End blend_facts.
End BlendFacts.
Import BlendFacts.

Module PixelwiseFacts.
Section pixelwise.
Context {P : Type} `{Pixel P}.
Variable polygon : points → nat → nat → bool.

Lemma warp_all_app (self : Blender.t P) (tp : points) (l1 l2 : list (nat * nat * nat)) :
  ∀ targets,
  Blender.warp_all polygon self tp targets (l1 ++ l2)
  = (targets' ←ᵣ Blender.warp_all polygon self tp targets l1;
     Blender.warp_all polygon self tp targets' l2).
Proof.
  induction l1 as [|tri l1 IH]; intros targets; [done|].
  cbn [app Blender.warp_all].
  destruct (Blender.warp_triangle polygon self tp targets tri) as [targets1|]; [|done].
  cbn [rbind]. apply IH.
Qed.

Lemma getpixel_shape_Some (img : image P) (w h r c : nat) :
  length <$> img = replicate h w → (r < h)%nat → (c < w)%nat →
  is_Some (getpixel img r c).
Proof.
  intros Hshape Hr Hc.
  apply (getpixel_is_Some_shape (Image_new w h) img r c).
  { by rewrite shape_Image_new. }
  rewrite getpixel_Image_new, decide_True by done. by eexists.
Qed.

Lemma dims_of_shape (img : image P) (w h : nat) :
  length <$> img = replicate h w → (0 < h)%nat → height img = h ∧ width img = w.
Proof.
  intros Hshape Hh. split.
  - unfold height. by rewrite <- (length_fmap length img), Hshape, length_replicate.
  - unfold width. destruct h as [|h]; [lia|]. destruct img as [|row img]; [done|].
    simpl in *. by injection Hshape as -> _.
Qed.

(** One round of the loop, on a pixel of the mask of its triangle. *)
Lemma warp_triangle_inside (self : Blender.t P) (tp : points)
    (targets targets' : image P * image P) (tri : nat * nat * nat)
    (S E T : points) (a1 a2 : Affine.t) (r c : nat) :
  Blender.corners (Blender.startPoints self) tri = Ok S →
  Blender.corners (Blender.endPoints self) tri = Ok E →
  Blender.corners tp tri = Ok T →
  Affine.__init__ S T = Ok a1 → Affine.__init__ E T = Ok a2 →
  Blender.warp_triangle polygon self tp targets tri = Ok targets' →
  polygon T c r = true →
  (r < height targets.1)%nat → (c < width targets.1)%nat →
  (r < height targets.2)%nat → (c < width targets.2)%nat →
  getpixel targets'.1 r c
  = (λ _, Affine.sample a1 (Blender.startImage self) (r, c)) <$> getpixel targets.1 r c
  ∧ getpixel targets'.2 r c
    = (λ _, Affine.sample a2 (Blender.endImage self) (r, c)) <$> getpixel targets.2 r c.
Proof.
  intros HS HE HT Ha1 Ha2. unfold Blender.warp_triangle.
  rewrite HS, HE, HT. cbn [rbind]. rewrite Ha1, Ha2. cbn [rbind].
  intros [= <-] Hin Hr1 Hc1 Hr2 Hc2. cbn [fst snd].
  destruct (init_Ok_inv _ _ _ Ha1) as (_ & HT1 & Hd1 & _).
  destruct (init_Ok_inv _ _ _ Ha2) as (_ & HT2 & Hd2 & _).
  rewrite !getpixel_transform, !vertices_destination, Hd1, Hd2 by congruence.
  by rewrite !decide_True.
Qed.

End pixelwise.
End PixelwiseFacts.
Import PixelwiseFacts.

Module ChannelFacts.
Section channel_facts.
Context {P : Type} `{Pixel P}.
Variable polygon : points → nat → nat → bool.
Variable k : nat.
Hypothesis Hk : (k < nchan)%nat.

Lemma height_channel (img : image P) : height (channel k img) = height img.
Proof. unfold height, channel. by rewrite length_fmap. Qed.

Lemma width_channel (img : image P) : width (channel k img) = width img.
Proof. unfold width, channel. destruct img as [|row img]; [done|]. simpl. by rewrite length_fmap. Qed.

Lemma getpixel_channel (img : image P) (r c : nat) :
  getpixel (channel k img) r c = (λ p, ch p k) <$> getpixel img r c.
Proof.
  unfold getpixel, channel. rewrite list_lookup_fmap.
  destruct (img !! r) as [row|]; [|done]. simpl. by rewrite list_lookup_fmap.
Qed.

Lemma value_at_channel (img : image P) (i j : Z) :
  SciPy.value_at (channel k img) i j 0 = SciPy.value_at img i j k.
Proof.
  unfold SciPy.value_at. rewrite getpixel_channel.
  by destruct (getpixel img _ _).
Qed.

Lemma interpn_channel (img : image P) (xi : Qc * Qc) :
  SciPy.interpn (channel k img) xi 0%nat = SciPy.interpn img xi k.
Proof.
  unfold SciPy.interpn. destruct xi as [y x].
  rewrite height_channel, width_channel.
  destruct (_ || _); [done|].
  destruct (SciPy.find_indices _ y) as [i ty], (SciPy.find_indices _ x) as [j tx].
  by rewrite !value_at_channel.
Qed.

Lemma sample_channel (self : Affine.t) (src : image P) (rc : nat * nat) :
  Affine.sample self (channel k src) rc = ch (Affine.sample self src rc) k.
Proof.
  unfold Affine.sample. rewrite ch_pixel_of by done. by rewrite <- interpn_channel.
Qed.

Lemma Mask_channel (self : Affine.t) (dst : image P) :
  Affine._Mask polygon self (channel k dst) = Affine._Mask polygon self dst.
Proof. unfold Affine._Mask. by rewrite height_channel, width_channel. Qed.

Lemma setpixel_channel (img : image P) (r c : nat) (p : P) :
  setpixel (channel k img) r c (ch p k) = channel k (setpixel img r c p).
Proof.
  unfold setpixel, channel. rewrite list_lookup_fmap.
  destruct (img !! r) as [row|]; [|done]. simpl.
  by rewrite !list_fmap_insert.
Qed.

Lemma assign_channel (sparse : list (nat * nat)) :
  ∀ (values : list P) (dst : image P),
  Affine.assign (channel k dst) sparse ((λ p, ch p k) <$> values)
  = channel k (Affine.assign dst sparse values).
Proof.
  unfold Affine.assign.
  induction sparse as [|[r c] sparse IH]; intros [|v values] dst; try done.
  cbn [fmap list_fmap zip zip_with foldl fst snd].
  rewrite setpixel_channel. apply IH.
Qed.

Lemma transform_channel (self : Affine.t) (src dst : image P) :
  Affine.transform polygon self (channel k src) (channel k dst)
  = channel k (Affine.transform polygon self src dst).
Proof.
  unfold Affine.transform. rewrite Mask_channel, <- assign_channel. f_equal.
  rewrite <- list_fmap_compose. apply list_fmap_ext. intros ? rc _. apply sample_channel.
Qed.

Lemma warp_triangle_channel (self : Blender.t P) (tp : points)
    (targets : image P * image P) (tri : nat * nat * nat) :
  Blender.warp_triangle polygon (channel_session k self) tp (channels2 k targets) tri
  = rmap (channels2 k) (Blender.warp_triangle polygon self tp targets tri).
Proof.
  unfold Blender.warp_triangle. cbn [channel_session Blender.startPoints Blender.endPoints
    Blender.startImage Blender.endImage channels2 fst snd].
  destruct (Blender.corners (Blender.startPoints self) tri) as [S|]; [|done].
  destruct (Blender.corners (Blender.endPoints self) tri) as [E|]; [|done].
  destruct (Blender.corners tp tri) as [T|]; [|done]. cbn [rbind].
  destruct (Affine.__init__ S T) as [a1|]; [|done]. cbn [rbind].
  destruct (Affine.__init__ E T) as [a2|]; [|done]. cbn [rbind rmap].
  unfold channels2. cbn [fst snd]. by rewrite !transform_channel.
Qed.

Lemma warp_all_channel (self : Blender.t P) (tp : points) (tris : list (nat * nat * nat)) :
  ∀ targets,
  Blender.warp_all polygon (channel_session k self) tp (channels2 k targets) tris
  = rmap (channels2 k) (Blender.warp_all polygon self tp targets tris).
Proof.
  induction tris as [|tri tris IH]; intros targets; [done|].
  cbn [Blender.warp_all]. rewrite warp_triangle_channel.
  destruct (Blender.warp_triangle polygon self tp targets tri) as [targets'|]; [|done].
  cbn [rmap rbind]. apply IH.
Qed.

Lemma Image_new_channel (w h : nat) :
  channel k (Image_new (P := P) w h) = Image_new w h.
Proof.
  unfold channel, Image_new. rewrite !fmap_replicate. by rewrite ch_pixel_of.
Qed.

Lemma shape_channel (img : image P) : length <$> channel k img = length <$> img.
Proof.
  unfold channel. rewrite <- list_fmap_compose. apply list_fmap_ext.
  intros ? row _. simpl. by rewrite length_fmap.
Qed.

Lemma dissolve_pixel_channel (alpha : Qc) (p q : P) :
  Blender.dissolve_pixel alpha (ch p k) (ch q k) = ch (Blender.dissolve_pixel alpha p q) k.
Proof. unfold Blender.dissolve_pixel. by rewrite ch_pixel_of. Qed.

Lemma zip_with_channel (alpha : Qc) (ts : image P) :
  ∀ te,
  zip_with (zip_with (Blender.dissolve_pixel alpha)) (channel k ts) (channel k te)
  = channel k (zip_with (zip_with (Blender.dissolve_pixel alpha)) ts te).
Proof.
  induction ts as [|rs ts IH]; intros [|re te]; try done.
  unfold channel in *. cbn [fmap list_fmap zip_with]. rewrite <- IH. f_equal.
  clear IH. revert re. induction rs as [|p rs IH]; intros [|q re]; try done.
  cbn [fmap list_fmap zip_with]. by rewrite <- IH, dissolve_pixel_channel.
Qed.

Lemma cross_dissolve_channel (alpha : Qc) (ts te : image P) :
  Blender.cross_dissolve alpha (channel k ts) (channel k te)
  = rmap (channel k) (Blender.cross_dissolve alpha ts te).
Proof.
  unfold Blender.cross_dissolve. rewrite !shape_channel.
  case_bool_decide; [|done]. simpl. by rewrite zip_with_channel.
Qed.

Lemma getBlendedImage_channel (self : Blender.t P) (alpha : Qc) :
  Blender.getBlendedImage polygon (channel_session k self) alpha
  = rmap (channel k) (Blender.getBlendedImage polygon self alpha).
Proof.
  unfold Blender.getBlendedImage.
  change (Blender.targetPoints (channel_session k self) alpha)
    with (Blender.targetPoints self alpha).
  destruct (Blender.targetPoints self alpha) as [tp|]; [|done]. cbn [rbind].
  cbn [channel_session Blender.startImage Blender.endImage Blender.triangles].
  rewrite !height_channel, !width_channel.
  rewrite <- !Image_new_channel.
  pose proof (warp_all_channel self tp (Blender.triangles self)
                (Image_new (width (Blender.startImage self)) (height (Blender.startImage self)),
                 Image_new (width (Blender.endImage self)) (height (Blender.endImage self))))
    as Hwarp.
  unfold channels2 in Hwarp at 1. cbn [fst snd] in Hwarp.
  change (Blender.triangles (channel_session k self)) with (Blender.triangles self).
  rewrite Hwarp.
  destruct (Blender.warp_all polygon self tp _ _) as [[ts te]|]; [|done].
  cbn [rmap rbind channels2 fst snd]. apply cross_dissolve_channel.
Qed.

End channel_facts.
End ChannelFacts.
Import ChannelFacts.

Section blend_extras.
Context {P : Type} `{Pixel P}.
Variable Delaunay : points → result (list (nat * nat * nat)).
Variable polygon : points → nat → nat → bool.

(** X11.  For two images of one shape, a frame that [getBlendedImage]
    returns has the shape of the images, whatever [alpha] and the points
    are. *)
Theorem blend_keeps_the_shape (self : Blender.t P) (alpha : Qc) (frame : image P) :
  rectangular (Blender.startImage self) →
  length <$> Blender.endImage self = length <$> Blender.startImage self →
  Blender.getBlendedImage polygon self alpha = Ok frame →
  length <$> frame = length <$> Blender.startImage self.
Proof.
  intros Hrect _ Hframe.
  by rewrite (getBlendedImage_shape polygon self alpha frame Hframe), shape_rectangular.
Qed.

(** X12.  Point sets of different lengths (none of them a single point, which
    numpy would broadcast) are accepted by [Blender.__init__] and rejected by
    every blend: [getBlendedImage] raises the [ValueError] of the sum of the
    two arrays, before it warps anything. *)
Theorem unequal_point_sets_fail_at_blend_time (si ei : image P) (sp ep : points)
    (self : Blender.t P) (alpha : Qc) :
  (Blender.__init__ Delaunay (ndarray si) (ndarray sp) (ndarray ei) (ndarray ep)).2
  = Ok self →
  length sp ≠ length ep → length sp ≠ 1%nat → length ep ≠ 1%nat →
  Blender.getBlendedImage polygon self alpha = Err ValueError.
Proof.
  simpl. destruct (Delaunay sp) as [tris|]; [|done]. simpl. intros [= <-] Hne Hs He.
  unfold Blender.getBlendedImage. by rewrite targetPoints_unequal.
Qed.



(** X15.  A pixel of a frame that lies in the mask of a triangle, and in the
    mask of no triangle that comes later in the list, is the cross-dissolve
    of two samples: the one that the transform from the start triangle to
    the target triangle takes in the start image, and the one that the
    transform from the end triangle takes in the end image. *)
Theorem covered_pixel_blends_two_samples (self : Blender.t P) (alpha : Qc)
    (tp : points) (frame : image P) (pre post : list (nat * nat * nat))
    (tri : nat * nat * nat) (S E T : points) (a1 a2 : Affine.t) (r c : nat) :
  Blender.getBlendedImage polygon self alpha = Ok frame →
  Blender.targetPoints self alpha = Ok tp →
  Blender.triangles self = pre ++ tri :: post →
  Blender.corners (Blender.startPoints self) tri = Ok S →
  Blender.corners (Blender.endPoints self) tri = Ok E →
  Blender.corners tp tri = Ok T →
  Affine.__init__ S T = Ok a1 → Affine.__init__ E T = Ok a2 →
  polygon T c r = true →
  Blender.covered polygon tp post r c = false →
  (r < height (Blender.startImage self))%nat →
  (c < width (Blender.startImage self))%nat →
  getpixel frame r c
  = Some (Blender.dissolve_pixel alpha
            (Affine.sample a1 (Blender.startImage self) (r, c))
            (Affine.sample a2 (Blender.endImage self) (r, c))).
Proof.
  intros Hframe Htp Htris HS HE HT Ha1 Ha2 Hin Hpost Hr Hc.
  unfold Blender.getBlendedImage in Hframe. rewrite Htp, Htris in Hframe.
  cbn [rbind] in Hframe. rewrite warp_all_app in Hframe.
  destruct (Blender.warp_all polygon self tp _ pre) as [tg1|] eqn:Hpre; [|done].
  cbn [rbind Blender.warp_all] in Hframe.
  destruct (Blender.warp_triangle polygon self tp tg1 tri) as [tg2|] eqn:Htri; [|done].
  cbn [rbind] in Hframe.
  destruct (Blender.warp_all polygon self tp tg2 post) as [[ts te]|] eqn:Hpst; [|done].
  cbn [rbind fst snd] in Hframe.
  destruct (cross_dissolve_Ok_inv _ _ _ _ Hframe) as [Hshape ->].
  destruct (warp_all_shape _ _ _ _ _ _ Hpre) as [Hs1 He1]. cbn [fst snd] in Hs1, He1.
  destruct (warp_triangle_shape _ _ _ _ _ _ Htri) as [Hs2 He2].
  destruct (warp_all_shape _ _ _ _ _ _ Hpst) as [Hs3 He3]. cbn [fst snd] in Hs3, He3.
  rewrite shape_Image_new in Hs1, He1.
  assert (length <$> tg1.2 = length <$> tg1.1) as Hsame by congruence.
  destruct (warp_all_outside _ _ _ _ _ _ _ _ Hpst Hpost) as [Hts Hte].
  cbn [fst snd] in Hts, Hte.
  assert (replicate (height (Blender.startImage self)) (width (Blender.startImage self))
          = replicate (height (Blender.endImage self)) (width (Blender.endImage self)))
    as Hdims by congruence.
  assert (height (Blender.endImage self) = height (Blender.startImage self)) as Hhe.
  { apply (f_equal length) in Hdims. by rewrite !length_replicate in Hdims. }
  assert (width (Blender.endImage self) = width (Blender.startImage self)) as Hwe.
  { rewrite Hhe in Hdims. destruct (height (Blender.startImage self)); [lia|].
    simpl in Hdims. by injection Hdims as ->. }
  rewrite Hhe, Hwe in He1.
  destruct (dims_of_shape tg1.1 _ _ Hs1 ltac:(lia)) as [Hh1 Hw1].
  destruct (dims_of_shape tg1.2 _ _ He1 ltac:(lia)) as [Hh2 Hw2].
  destruct (warp_triangle_inside polygon self tp tg1 tg2 tri S E T a1 a2 r c
              HS HE HT Ha1 Ha2 Htri Hin) as [Hp1 Hp2]; [lia..|].
  destruct (getpixel_shape_Some tg1.1 _ _ r c Hs1) as [p1 Hq1]; [done..|].
  destruct (getpixel_shape_Some tg1.2 _ _ r c He1) as [p2 Hq2]; [lia..|].
  rewrite Hq1 in Hp1. rewrite Hq2 in Hp2.
  by rewrite getpixel_zip_with, Hts, Hte, Hp1, Hp2.
Qed.

End blend_extras.

Section channel_extras.
Variable polygon : points → nat → nat → bool.


End channel_extras.

Lemma blend_keeps_the_shape_witness :
  (rectangular (Blender.startImage Example.session)
   ∧ length <$> Blender.endImage Example.session
     = length <$> Blender.startImage Example.session
   ∧ Blender.getBlendedImage Reference.polygon Example.session Example.half
     = Ok [[4; 4; 5]; [5; 6; 0]; [7; 0; 0]]%Z)
  ∧ length <$> [[4; 4; 5]; [5; 6; 0]; [7; 0; 0]]%Z
    = length <$> Blender.startImage Example.session.
Proof.
  destruct example_images as [[Hrs _] _].
  split; [exact (conj Hrs (conj eq_refl example_blend_half))|].
  exact (blend_keeps_the_shape Reference.polygon Example.session Example.half _
           Hrs eq_refl example_blend_half).
Defined.

Lemma example_mismatched_built :
  (Blender.__init__ Reference.Delaunay (ndarray Example.ramp) (ndarray Example.small)
     (ndarray Example.sevens) (ndarray Example.short)).2
  = Ok Example.mismatched.
Proof. by vm_compute. Qed.

Lemma unequal_point_sets_fail_at_blend_time_witness :
  ((Blender.__init__ Reference.Delaunay (ndarray Example.ramp) (ndarray Example.small)
      (ndarray Example.sevens) (ndarray Example.short)).2
   = Ok Example.mismatched
   ∧ length Example.small ≠ length Example.short
   ∧ length Example.small ≠ 1%nat ∧ length Example.short ≠ 1%nat)
  ∧ Blender.getBlendedImage Reference.polygon Example.mismatched Example.half
    = Err ValueError.
Proof.
  assert (length Example.small ≠ length Example.short) as H1 by (simpl; lia).
  assert (length Example.small ≠ 1%nat) as H2 by (simpl; lia).
  assert (length Example.short ≠ 1%nat) as H3 by (simpl; lia).
  split; [exact (conj example_mismatched_built (conj H1 (conj H2 H3)))|].
  exact (unequal_point_sets_fail_at_blend_time Reference.Delaunay Reference.polygon
           Example.ramp Example.sevens Example.small Example.short Example.mismatched
           Example.half example_mismatched_built H1 H2 H3).
Defined.

(** Half way between [small] and [crossed] the second and the third
    landmark meet. *)
Lemma example_crossing_target :
  Blender.targetPoints Example.crossing Example.half
  = Ok [Example.p 0 0; Example.p 1 1; Example.p 1 1].
Proof.
  unfold Blender.targetPoints. rewrite decide_True by done. f_equal.
  simpl. unfold Blender.lerp, Example.p. simpl.
  repeat (apply (f_equal2 cons); [apply (f_equal2 pair); apply Qc_is_canon; reflexivity|]).
  done.
Qed.



Lemma example_half_target :
  Blender.targetPoints Example.session Example.half = Ok Example.small.
Proof.
  unfold Blender.targetPoints. rewrite decide_True by done. f_equal.
  simpl. unfold Blender.lerp, Example.p. simpl.
  repeat (apply (f_equal2 cons); [apply (f_equal2 pair); apply Qc_is_canon; reflexivity|]).
  done.
Qed.

Lemma covered_pixel_blends_two_samples_witness :
  ∃ a, Affine.__init__ Example.small Example.small = Ok a
    ∧ (Blender.getBlendedImage Reference.polygon Example.session Example.half
       = Ok [[4; 4; 5]; [5; 6; 0]; [7; 0; 0]]%Z
       ∧ Blender.targetPoints Example.session Example.half = Ok Example.small
       ∧ Blender.triangles Example.session = [] ++ (0, 1, 2)%nat :: []
       ∧ Blender.corners Example.small (0, 1, 2)%nat = Ok Example.small
       ∧ Reference.polygon Example.small 0 1 = true
       ∧ Blender.covered Reference.polygon Example.small [] 1 0 = false
       ∧ (1 < height (Blender.startImage Example.session))%nat
       ∧ (0 < width (Blender.startImage Example.session))%nat)
    ∧ getpixel [[4; 4; 5]; [5; 6; 0]; [7; 0; 0]]%Z 1 0
      = Some (Blender.dissolve_pixel Example.half
                (Affine.sample a (Blender.startImage Example.session) (1, 0)%nat)
                (Affine.sample a (Blender.endImage Example.session) (1, 0)%nat)).
Proof.
  destruct (Affine.__init__ Example.small Example.small) as [a|] eqn:Ha;
    [|by vm_compute in Ha].
  exists a. split; [done|].
  assert (Reference.polygon Example.small 0 1 = true) as Hin by (by vm_compute).
  assert (1 < height (Blender.startImage Example.session))%nat as Hr
    by (unfold height; simpl; lia).
  assert (0 < width (Blender.startImage Example.session))%nat as Hc
    by (unfold width; simpl; lia).
  split; [exact (conj example_blend_half (conj example_half_target (conj eq_refl
                   (conj eq_refl (conj Hin (conj eq_refl (conj Hr Hc)))))))|].
  exact (covered_pixel_blends_two_samples Reference.polygon Example.session Example.half
           Example.small _ [] [] (0, 1, 2)%nat Example.small Example.small Example.small
           a a 1 0 example_blend_half example_half_target eq_refl eq_refl eq_refl eq_refl
           Ha Ha Hin eq_refl Hr Hc).
Defined.


(** ** The sequence of frames *)

Module NameFacts.

Lemma list_ascii_app (s1 s2 : string) :
  String.list_ascii_of_string (s1 +:+ s2) = String.list_ascii_of_string s1 ++ String.list_ascii_of_string s2.
Proof. induction s1 as [|c s1 IH]; [done|]. simpl. by rewrite IH. Qed.

Lemma list_ascii_inj (s1 s2 : string) :
  String.list_ascii_of_string s1 = String.list_ascii_of_string s2 → s1 = s2.
Proof.
  intros Heq. rewrite <- (String.string_of_list_ascii_of_string s1), Heq.
  apply String.string_of_list_ascii_of_string.
Qed.

Lemma list_ascii_zeros (n : nat) :
  String.list_ascii_of_string (String.concat "" (replicate n "0")) = replicate n "0"%char.
Proof.
  induction n as [|[|n] IH]; [done..|].
  change (replicate (S (S n)) "0") with ("0" :: replicate (S n) "0").
  change (String.concat "" ("0" :: replicate (S n) "0"))
    with ("0" +:+ "" +:+ String.concat "" (replicate (S n) "0")).
  rewrite !list_ascii_app, IH. done.
Qed.

(** The decimal digits of a positive number start with a digit that is not
    zero. *)
Lemma pretty_N_go_head (x : N) :
  ∀ s, (0 < x)%N →
  ∃ d s', (1 ≤ d < 10)%N ∧ pretty_N_go x s = String (pretty_N_char d) s'.
Proof.
  induction (N.lt_wf_0 x) as [x _ IH]; intros s Hx.
  rewrite pretty_N_go_step by done.
  destruct (decide (x < 10)%N) as [Hsmall|Hbig].
  - rewrite N.div_small, pretty_N_go_0, N.mod_small by done.
    exists x, s. split; [lia|done].
  - apply IH; [apply N.div_lt; lia|]. apply N.div_str_pos. lia.
Qed.

Lemma digits_head (x : N) :
  (0 < x)%N →
  ∃ c l, String.list_ascii_of_string (pretty x) = c :: l ∧ c ≠ "0"%char ∧ c ≠ "-"%char.
Proof.
  intros Hx. unfold pretty, pretty_N. rewrite decide_False by lia.
  destruct (pretty_N_go_head x "" Hx) as (d & s' & Hd & ->).
  eexists _, _. split; [done|].
  assert (d = 1 ∨ d = 2 ∨ d = 3 ∨ d = 4 ∨ d = 5 ∨ d = 6 ∨ d = 7 ∨ d = 8 ∨ d = 9)%N
    as Hcases by lia.
  destruct Hcases as [->|[->|[->|[->|[->|[->|[->|[->| ->]]]]]]]]; by compute.
Qed.

Lemma zeros_inj (p q : nat) (c c' : ascii) (l l' : list ascii) :
  c ≠ "0"%char → c' ≠ "0"%char →
  replicate p "0"%char ++ c :: l = replicate q "0"%char ++ c' :: l' →
  c :: l = c' :: l'.
Proof.
  intros Hc Hc'. revert q. induction p as [|p IH]; intros [|q] Heq; simpl in *.
  - done.
  - injection Heq as -> _. done.
  - injection Heq as <- _. done.
  - injection Heq as Heq. by apply (IH q).
Qed.

(** The digits, padded with zeros, determine the number. *)
Lemma padded_digits_inj (p q : nat) (a b : N) :
  replicate p "0"%char ++ String.list_ascii_of_string (pretty a)
  = replicate q "0"%char ++ String.list_ascii_of_string (pretty b) → a = b.
Proof.
  intros Heq.
  assert (∀ (n : nat) (x : N) , (0 < x)%N →
            replicate n "0"%char ++ String.list_ascii_of_string (pretty 0%N)
            ≠ replicate q "0"%char ++ String.list_ascii_of_string (pretty x)) as Hzero.
  { clear. intros n x Hx Heq. destruct (digits_head x Hx) as (c & l & Hd & Hc & _).
    rewrite Hd in Heq.
    assert (c ∈ replicate n "0"%char ++ String.list_ascii_of_string (pretty 0%N)) as Hin.
    { rewrite Heq. apply elem_of_app. right. left. }
    apply elem_of_app in Hin as [Hin|Hin].
    - by apply elem_of_replicate in Hin as [-> _].
    - change (String.list_ascii_of_string (pretty 0%N)) with ["0"%char]%list in Hin.
      by apply list_elem_of_singleton in Hin. }
  destruct (decide (a = 0%N)) as [->|Ha]; [destruct (decide (b = 0%N)) as [->|Hb]|
    destruct (decide (b = 0%N)) as [->|Hb]].
  - done.
  - exfalso. apply (Hzero p b); [lia|done].
  - exfalso. clear Hzero.
    assert (∀ (n : nat) (x : N) , (0 < x)%N →
              replicate n "0"%char ++ String.list_ascii_of_string (pretty 0%N)
              ≠ replicate p "0"%char ++ String.list_ascii_of_string (pretty x)) as Hzero.
    { clear. intros n x Hx Heq. destruct (digits_head x Hx) as (c & l & Hd & Hc & _).
      rewrite Hd in Heq.
      assert (c ∈ replicate n "0"%char ++ String.list_ascii_of_string (pretty 0%N)) as Hin.
      { rewrite Heq. apply elem_of_app. right. left. }
      apply elem_of_app in Hin as [Hin|Hin].
      - by apply elem_of_replicate in Hin as [-> _].
      - change (String.list_ascii_of_string (pretty 0%N)) with ["0"%char]%list in Hin.
        by apply list_elem_of_singleton in Hin. }
    apply (Hzero q a); [lia|done].
  - destruct (digits_head a) as (c & l & Hda & Hc & _); [lia|].
    destruct (digits_head b) as (c' & l' & Hdb & Hc' & _); [lia|].
    rewrite Hda, Hdb in Heq. apply zeros_inj in Heq; [|done..].
    rewrite <- Hda, <- Hdb in Heq. apply list_ascii_inj in Heq.
    by apply (inj pretty).
Qed.

Lemma digits_no_dash (p : nat) (x : N) :
  head (replicate p "0"%char ++ String.list_ascii_of_string (pretty x)) ≠ Some "-"%char.
Proof.
  destruct p as [|p]; [|done]. simpl.
  destruct (decide (x = 0%N)) as [->|Hx]; [done|].
  destruct (digits_head x) as (c & l & -> & _ & Hc); [lia|]. simpl. congruence.
Qed.

Lemma list_ascii_format (number : Z) :
  ∃ p, String.list_ascii_of_string (format_03d number)
       = (if decide (number < 0)%Z then ["-"%char]%list else [])
         ++ replicate p "0"%char ++ String.list_ascii_of_string (pretty (Z.abs_N number)).
Proof.
  unfold format_03d. cbv zeta.
  destruct (decide (number < 0)%Z); eexists; by rewrite !list_ascii_app, list_ascii_zeros.
Qed.

Lemma format_03d_inj : Inj (=) (=) format_03d.
Proof.
  intros a b Heq. apply (f_equal String.list_ascii_of_string) in Heq.
  destruct (list_ascii_format a) as [p Ha], (list_ascii_format b) as [q Hb].
  rewrite Ha, Hb in Heq. clear Ha Hb.
  destruct (decide (a < 0)%Z) as [Hna|Hna], (decide (b < 0)%Z) as [Hnb|Hnb]; simpl in Heq.
  - injection Heq as Heq. apply padded_digits_inj in Heq. lia.
  - exfalso. apply (digits_no_dash q (Z.abs_N b)). by rewrite <- Heq.
  - exfalso. apply (digits_no_dash p (Z.abs_N a)). by rewrite Heq.
  - apply padded_digits_inj in Heq. lia.
Qed.

Lemma FrameName_inj : Inj (=) (=) Blender._FrameName.
Proof.
  intros a b Heq. unfold Blender._FrameName in Heq.
  apply (inj (String.app "frame")) in Heq.
  apply (f_equal String.list_ascii_of_string) in Heq. rewrite !list_ascii_app in Heq.
  apply app_inv_tail in Heq. by apply list_ascii_inj, format_03d_inj in Heq.
Qed.

Lemma frame_path_inj (folder : string) : Inj (=) (=) (frame_path folder).
Proof.
  intros a b Heq. unfold frame_path in Heq.
  apply (inj (String.app folder)), (inj (String.app "/")) in Heq.
  by apply FrameName_inj.
Qed.

End NameFacts.
Import NameFacts.

Module WorldFacts.
Section world_facts.
Context {P : Type} `{Pixel P}.
Variable polygon : points → nat → nat → bool.

Lemma extends_refl (st : Blender.frame_state (P := P)) : extends st st.
Proof. exists []. by rewrite !app_nil_r. Qed.

Lemma extends_trans (st1 st2 st3 : Blender.frame_state (P := P)) :
  extends st1 st2 → extends st2 st3 → extends st1 st3.
Proof.
  intros (n1 & S1 & D1 & V1 & F1) (n2 & S2 & D2 & V2 & F2). exists (n1 ++ n2).
  rewrite S2, S1, D2, D1, V2, V1, F2, F1, fmap_app, !app_assoc.
  unfold write_all. by rewrite foldl_app.
Qed.

Lemma blend_loop_extends (self : Blender.t P) (folder : string) (increment : Qc)
    (rounds : nat) :
  ∀ (i : Z) (st : Blender.frame_state),
  extends st (Blender.blend_loop polygon self folder increment rounds i st).1.
Proof.
  induction rounds as [|rounds IH]; intros i st; cbn [Blender.blend_loop].
  { apply extends_refl. }
  destruct (Blender.getBlendedImage polygon self _) as [image|e].
  - eapply extends_trans; [|apply IH]. by eexists [(_, image)]%list.
  - exists []. by rewrite !app_nil_r.
Qed.

Lemma reversed_loop_extends (folder : string) (images : list (image P)) :
  ∀ (seqNum : Z) (st : Blender.frame_state),
  extends st (Blender.reversed_loop folder images seqNum st).
Proof.
  induction images as [|image images IH]; intros seqNum st; cbn [Blender.reversed_loop].
  { apply extends_refl. }
  eapply extends_trans; [|apply IH]. by eexists [(_, image)]%list.
Qed.

(** The world after a call of [generateMorphVideo]: the files are those
    that were saved, in order; the list of files that is returned names them
    in that order; frames are appended to the video only when no exception
    is raised, each as it is read back from its file. *)
Lemma generateMorphVideo_world (self : Blender.t P) (folder : string) (L : Z)
    (includeReversed : bool) (w w' : world P) (r : result (list string)) :
  Blender.generateMorphVideo polygon self folder L includeReversed w = (w', r) →
  ∃ new, saved w' = saved w ++ new ∧ disk w' = write_all new (disk w)
    ∧ head new = Some (frame_path folder 1, Blender.startImage self)
    ∧ match r with
      | Ok files => files = new.*1
                    ∧ video w' = video w ++ ((λ im, disk w' !! im) <$> files)
      | Err _ => video w' = video w
      end.
Proof.
  unfold Blender.generateMorphVideo.
  set (name1 := folder +:+ "/" +:+ Blender._FrameName 1).
  set (st0 := {| Blender.fs_world := _ |}).
  assert (∀ st, extends st0 st →
            ∃ new, saved (Blender.fs_world st) = saved w ++ new
                 ∧ disk (Blender.fs_world st) = write_all new (disk w)
                 ∧ head new = Some (frame_path folder 1, Blender.startImage self)
                 ∧ video (Blender.fs_world st) = video w
                 ∧ Blender.fileList st = new.*1) as Hfrom.
  { intros st (new & Hs & Hd & Hv & Hf).
    exists ((name1, Blender.startImage self) :: new).
    rewrite Hs, Hd, Hv, Hf. cbn [Blender.fs_world Blender.fileList Blender._SaveImage
      saved disk video st0]. by rewrite <- app_assoc. }
  case_decide as Hdiv.
  { intros [= <- <-].
    destruct (Hfrom st0 (extends_refl _)) as (new & Hs & Hd & Hh & Hv & _).
    by exists new. }
  pose proof (blend_loop_extends self folder (1 / of_int (L - 2 + 1))
                (Z.to_nat (L - 2)) 0 st0) as E1.
  destruct (Blender.blend_loop _ _ _ _ _ _ _) as [st1 [[]|e]]; cbn [fst] in E1.
  - set (st2 := {| Blender.fs_world := Blender._SaveImage _ _ (Blender.fs_world st1) |}).
    assert (extends st0 st2) as E2.
    { eapply extends_trans; [exact E1|]. by eexists [(_, Blender.endImage self)]%list. }
    set (st3 := if includeReversed then _ else _).
    assert (extends st0 st3) as E3.
    { unfold st3. destruct includeReversed; [|done].
      eapply extends_trans; [exact E2|]. apply reversed_loop_extends. }
    intros [= <- <-]. destruct (Hfrom st3 E3) as (new & Hs & Hd & Hh & Hv & Hf).
    exists new. cbn [Blender.write_video saved disk video]. by rewrite Hv, Hf.
  - intros [= <- <-]. destruct (Hfrom st1 E1) as (new & Hs & Hd & Hh & Hv & _).
    by exists new.
Qed.

(** *** Reading a file back *)

Lemma lookup_write_all_notin (entries : list (string * image P)) (p : string) :
  ∀ d, p ∉ entries.*1 → write_all entries d !! p = d !! p.
Proof.
  induction entries as [|[q v] entries IH]; intros d Hnotin; [done|].
  cbn [write_all foldl fst snd]. apply not_elem_of_cons in Hnotin as [Hne Hnotin].
  fold (write_all entries (<[q:=v]> d)). rewrite IH by done.
  by apply lookup_insert_ne.
Qed.

Lemma lookup_write_all_in (entries : list (string * image P)) (p : string) :
  ∀ d, p ∈ entries.*1 → is_Some (write_all entries d !! p).
Proof.
  induction entries as [|[q v] entries IH]; intros d Hin; [by apply elem_of_nil in Hin|].
  cbn [write_all foldl fst snd]. fold (write_all entries (<[q:=v]> d)).
  destruct (decide (p ∈ entries.*1)) as [Hlater|Hlater]; [by apply IH|].
  rewrite lookup_write_all_notin by done.
  apply elem_of_cons in Hin as [->|Hin]; [|done]. rewrite lookup_insert_eq. by eexists.
Qed.

Lemma elem_of_fst_zip (paths : list string) (imgs : list (image P)) (p : string) :
  p ∈ (zip paths imgs).*1 → p ∈ paths.
Proof.
  revert imgs. induction paths as [|q paths IH]; intros [|v imgs]; simpl;
    try (by intros ?%elem_of_nil).
  intros [->|Hin]%elem_of_cons; [left|right; by eapply IH].
Qed.

Lemma lookup_write_all_zip (paths : list string) :
  ∀ (imgs : list (image P)) (d : gmap string (image P)) (i : nat) (p : string)
    (v : image P),
  NoDup paths → paths !! i = Some p → imgs !! i = Some v →
  write_all (zip paths imgs) d !! p = Some v.
Proof.
  induction paths as [|q paths IH]; intros [|v0 imgs] d i p v Hnd Hp Hv; try done.
  apply NoDup_cons in Hnd as [Hq Hnd].
  cbn [zip zip_with write_all foldl fst snd]. fold (write_all (zip paths imgs) (<[q:=v0]> d)).
  destruct i as [|i]; simpl in Hp, Hv.
  - injection Hp as ->. injection Hv as ->.
    rewrite lookup_write_all_notin; [by apply lookup_insert_eq|].
    intros Hin. by apply Hq, (elem_of_fst_zip _ imgs).
  - by apply (IH imgs _ i).
Qed.

Lemma reread_zip (paths : list string) (imgs : list (image P))
    (d : gmap string (image P)) :
  NoDup paths → (length paths ≤ length imgs)%nat →
  (λ im, write_all (zip paths imgs) d !! im) <$> paths
  = Some <$> take (length paths) imgs.
Proof.
  intros Hnd Hlen. apply list_eq. intros i. rewrite !list_lookup_fmap.
  destruct (paths !! i) as [p|] eqn:Hp; simpl.
  - pose proof (lookup_lt_Some _ _ _ Hp) as Hi.
    destruct (lookup_lt_is_Some_2 imgs i ltac:(lia)) as [v Hv].
    rewrite lookup_take_lt, Hv by done. simpl. f_equal.
    by apply (lookup_write_all_zip paths imgs d i).
  - apply lookup_ge_None in Hp. by rewrite lookup_take_ge.
Qed.

End world_facts.

(** *** The numbers of the frames *)

Lemma frame_paths_numbers (folder : string) (first : Z) (n : nat) :
  frame_paths folder first n
  = frame_path folder <$> ((λ j : nat, (first + Z.of_nat j)%Z) <$> seq 0 n).
Proof. unfold frame_paths. by rewrite <- list_fmap_compose. Qed.

Lemma elem_of_numbers (first : Z) (n : nat) (z : Z) :
  z ∈ (λ j : nat, (first + Z.of_nat j)%Z) <$> seq 0 n ↔ (first ≤ z < first + Z.of_nat n)%Z.
Proof.
  rewrite list_elem_of_fmap. setoid_rewrite elem_of_seq. split.
  - intros (j & -> & Hj). lia.
  - intros Hz. exists (Z.to_nat (z - first)). split; lia.
Qed.

Lemma NoDup_numbers (first : Z) (n : nat) :
  NoDup ((λ j : nat, (first + Z.of_nat j)%Z) <$> seq 0 n).
Proof. apply NoDup_fmap_2; [|apply NoDup_seq]. intros j j' Heq. lia. Qed.

End WorldFacts.
Import WorldFacts.

Module LoopFacts.
Section loop_facts.
Context {P : Type} `{Pixel P}.
Variable polygon : points → nat → nat → bool.

(** The loop stops at the first blend that raises; the blends before it
    are saved. *)
Lemma blend_loop_Err (self : Blender.t P) (folder : string) (increment : Qc)
    (blends : nat → image P) (e : exn) (j : nat) :
  ∀ (rounds : nat) (i : Z) (st : Blender.frame_state),
  (j < rounds)%nat →
  (∀ m, (m < j)%nat →
     Blender.getBlendedImage polygon self
       (Blender.alpha_acc st + of_int (Z.of_nat (S m)) * increment) = Ok (blends m)) →
  Blender.getBlendedImage polygon self
    (Blender.alpha_acc st + of_int (Z.of_nat (S j)) * increment) = Err e →
  ∃ st',
    Blender.blend_loop polygon self folder increment rounds i st = (st', Err e)
    ∧ saved (Blender.fs_world st')
      = saved (Blender.fs_world st)
        ++ zip (frame_paths folder (i + 1) j) (blends <$> seq 0 j).
Proof.
  revert blends. induction j as [|j IH]; intros blends [|rounds] i st Hj Hblends Herr;
    try lia; cbn [Blender.blend_loop].
  - replace (Blender.alpha_acc st + of_int (Z.of_nat 1) * increment)
      with (Blender.alpha_acc st + increment) in Herr
      by (change (of_int (Z.of_nat 1)) with (of_int 1); unfold of_int;
          rewrite Z2Qc_inj_1; ring).
    rewrite Herr. eexists. split; [done|]. simpl. by rewrite app_nil_r.
  - pose proof (Hblends 0%nat ltac:(lia)) as H0.
    replace (Blender.alpha_acc st + of_int (Z.of_nat 1) * increment)
      with (Blender.alpha_acc st + increment) in H0
      by (change (of_int (Z.of_nat 1)) with (of_int 1); unfold of_int;
          rewrite Z2Qc_inj_1; ring).
    rewrite H0.
    edestruct (IH (λ m, blends (S m)) rounds (i + 1)%Z) as (st' & -> & Hsaved).
    { lia. }
    { intros m Hm. cbn [Blender.alpha_acc].
      rewrite <- (Hblends (S m)) by lia. f_equal.
      rewrite (of_int_succ (S m)). ring. }
    { cbn [Blender.alpha_acc]. rewrite <- Herr. f_equal.
      rewrite (of_int_succ (S j)). ring. }
    exists st'. split; [done|].
    cbn [Blender.fs_world Blender._SaveImage saved] in Hsaved.
    rewrite Hsaved, frame_paths_S. cbn [seq].
    rewrite !fmap_cons, <- !fmap_S_seq, <- !list_fmap_compose, <- !app_assoc.
    done.
Qed.

End loop_facts.
End LoopFacts.
Import LoopFacts.

Module RereadFacts.

Lemma elem_of_tail_numbers (L : Z) (n : nat) (includeReversed : bool) (z : Z) :
  z ∈ tail_numbers L n includeReversed →
  (1 ≤ z ≤ Z.of_nat n ∨ z = L ∨ L + 1 ≤ z)%Z.
Proof.
  unfold tail_numbers. rewrite !elem_of_app, elem_of_numbers, list_elem_of_singleton.
  intros [?|[?|Hin]]; [lia|lia|]. destruct includeReversed.
  - apply elem_of_numbers in Hin. lia.
  - by apply elem_of_nil in Hin.
Qed.

Lemma NoDup_tail_numbers (L : Z) (n : nat) (includeReversed : bool) :
  (Z.of_nat n < L)%Z → NoDup (tail_numbers L n includeReversed).
Proof.
  intros Hn. unfold tail_numbers. apply NoDup_app. split; [apply NoDup_numbers|]. split.
  - intros z Hz%elem_of_numbers [Hin|Hin]%elem_of_cons; [lia|].
    destruct includeReversed; [|by apply elem_of_nil in Hin].
    apply elem_of_numbers in Hin. lia.
  - apply NoDup_cons. split.
    + destruct includeReversed; [|apply not_elem_of_nil].
      intros Hin%elem_of_numbers. lia.
    + destruct includeReversed; [apply NoDup_numbers|apply NoDup_nil_2].
Qed.

Lemma files_numbers (folder : string) (L : Z) (n : nat) (includeReversed : bool) :
  forward_paths folder L n
  ++ (if includeReversed then frame_paths folder (L + 1) (S (S n)) else [])
  = frame_path folder 1 :: (frame_path folder <$> tail_numbers L n includeReversed).
Proof.
  unfold forward_paths, tail_numbers. rewrite !fmap_app, <- !frame_paths_numbers.
  cbn [app fmap list_fmap]. rewrite <- !app_assoc. cbn [app]. do 3 f_equal.
  destruct includeReversed; [|done]. by rewrite frame_paths_numbers.
Qed.

End RereadFacts.
Import RereadFacts.

(** X17.  Two frame numbers never share a file name, and below 1000 the
    name is [frame], the three decimal digits of the number and [.jpg]. *)
Theorem frame_names_are_distinct_and_padded :
  (∀ a b : Z, Blender._FrameName a = Blender._FrameName b → a = b)
  ∧ (∀ (folder : string) (a b : Z), frame_path folder a = frame_path folder b → a = b)
  ∧ (∀ n : Z, (0 ≤ n < 1000)%Z →
       Blender._FrameName n = "frame" +:+ three_digits n +:+ ".jpg").
Proof.
  split; [exact FrameName_inj|]. split; [exact frame_path_inj|].
  assert (forallb (λ k : nat,
            bool_decide (Blender._FrameName (Z.of_nat k)
                         = "frame" +:+ three_digits (Z.of_nat k) +:+ ".jpg"))
            (seq 0 1000) = true) as Hall by (vm_compute; reflexivity).
  intros n Hn. rewrite forallb_forall in Hall.
  specialize (Hall (Z.to_nat n)). rewrite Z2Nat.id in Hall by lia.
  eapply bool_decide_eq_true_1, Hall, in_seq. lia.
Qed.

Section sequence_extras.
Context {P : Type} `{Pixel P}.
Variable polygon : points → nat → nat → bool.

(** X18.  What every call of [generateMorphVideo] does to the directory and
    to the video, whatever its arguments and whether it raises or not.  It
    saves files, the start image as frame 1 first, and touches no other
    file; when it raises, nothing is appended to the video; when it returns,
    the files it lists are those it saved, in the order of the calls, and
    the video receives one frame for each, read back from a file that
    exists. *)
Theorem a_run_saves_then_reads_back (self : Blender.t P) (folder : string) (L : Z)
    (includeReversed : bool) (w : world P) :
  let run := Blender.generateMorphVideo polygon self folder L includeReversed w in
  ∃ rest,
    let new := (frame_path folder 1, Blender.startImage self) :: rest in
    saved run.1 = saved w ++ new
    ∧ (∀ p, p ∉ new.*1 → disk run.1 !! p = disk w !! p)
    ∧ match run.2 with
      | Ok files =>
          files = new.*1
          ∧ video run.1 = video w ++ ((λ im, disk run.1 !! im) <$> files)
          ∧ Forall is_Some ((λ im, disk run.1 !! im) <$> files)
      | Err _ => video run.1 = video w
      end.
Proof.
  intros run.
  destruct (generateMorphVideo_world polygon self folder L includeReversed w run.1 run.2)
    as (new & Hsaved & Hdisk & Hhead & Hrest); [apply surjective_pairing|].
  destruct new as [|e rest]; [done|]. injection Hhead as ->.
  exists rest. cbv zeta. split; [done|]. split.
  - intros p Hp. rewrite Hdisk. by apply lookup_write_all_notin.
  - destruct run.2 as [files|]; [|done]. destruct Hrest as [-> Hvideo].
    split; [done|]. split; [done|].
    apply Forall_fmap, Forall_forall. intros p Hp. simpl. rewrite Hdisk.
    by apply lookup_write_all_in.
Qed.

(** X19.  A run of [generateMorphVideo] with [sequenceLength >= 2] in which
    every blend succeeds.  The blends are written under the numbers
    [1 .. sequenceLength - 2]: after the run the file of frame 1 holds the
    first blend (the start image only if there is no blend), from three
    frames on the file of frame [sequenceLength - 1] has not been written,
    and the video, whose frames are read back from the files, starts with
    the first blend twice. *)
Theorem video_reads_the_frames_back (self : Blender.t P) (folder : string) (L : Z)
    (includeReversed : bool) (w : world P) (blends : nat → image P) :
  (2 ≤ L)%Z →
  (∀ j, (j < Z.to_nat (L - 2))%nat →
     Blender.getBlendedImage polygon self
       (of_int (Z.of_nat (S j)) * (1 / of_int ((L - 2) + 1))) = Ok (blends j)) →
  let n := Z.to_nat (L - 2) in
  let first := default (Blender.startImage self) (head (blends <$> seq 0 n)) in
  ∃ w' files,
    Blender.generateMorphVideo polygon self folder L includeReversed w = (w', Ok files)
    ∧ disk w' !! frame_path folder 1 = Some first
    ∧ ((3 ≤ L)%Z →
       disk w' !! frame_path folder (L - 1) = disk w !! frame_path folder (L - 1))
    ∧ video w'
      = video w
        ++ (Some <$> first :: (blends <$> seq 0 n) ++ [Blender.endImage self]%list
                     ++ (if includeReversed
                         then reverse (forward_images self blends n) else [])).
Proof.
  intros HL Hblends n first.
  destruct (generateMorphVideo_Ok polygon self folder L includeReversed w blends
              ltac:(lia) Hblends) as (w' & Hrun & Hsaved).
  fold n in Hrun, Hsaved.
  destruct (generateMorphVideo_world polygon self folder L includeReversed w w' _ Hrun)
    as (new & Hnew & Hdisk & _ & _ & Hvideo).
  rewrite Hsaved in Hnew. apply app_inv_head in Hnew. subst new.
  rewrite files_numbers in Hrun, Hdisk, Hvideo.
  set (tailpaths := frame_path folder <$> tail_numbers L n includeReversed) in *.
  set (tailimgs := ((blends <$> seq 0 n) ++ [Blender.endImage self]%list)
                   ++ reverse (forward_images self blends n)).
  change (forward_images self blends n ++ reverse (forward_images self blends n))
    with (Blender.startImage self :: tailimgs) in Hdisk.
  cbn [zip zip_with write_all foldl fst snd] in Hdisk.
  fold (write_all (zip tailpaths tailimgs)
          (<[frame_path folder 1 := Blender.startImage self]> (disk w))) in Hdisk.
  assert (NoDup tailpaths) as Hnd.
  { apply NoDup_fmap_2; [apply frame_path_inj|]. apply NoDup_tail_numbers. lia. }
  assert (length (forward_images self blends n) = S (S n)) as Hfwd.
  { unfold forward_images. rewrite !length_app, length_fmap, length_seq. simpl. lia. }
  assert (length tailpaths = (n + 1 + if includeReversed then S (S n) else 0)%nat)
    as Hlenp.
  { unfold tailpaths, tail_numbers. rewrite length_fmap, !length_app, length_fmap, length_seq.
    destruct includeReversed; simpl; rewrite ?length_fmap, ?length_seq; lia. }
  assert (length tailimgs = (n + 1 + S (S n))%nat) as Hleni.
  { unfold tailimgs. rewrite !length_app, length_fmap, length_seq, length_reverse, Hfwd.
    simpl. lia. }
  assert (length tailpaths ≤ length tailimgs)%nat as Hle
    by (rewrite Hlenp, Hleni; destruct includeReversed; lia).
  assert (disk w' !! frame_path folder 1 = Some first) as Hfirst.
  { rewrite Hdisk. unfold first. destruct n as [|n'] eqn:Hn.
    - rewrite lookup_write_all_notin; [by rewrite lookup_insert_eq|].
      intros Hin%elem_of_fst_zip. unfold tailpaths in Hin.
      apply list_elem_of_fmap in Hin as (z & Hz%frame_path_inj & Hin). subst z.
      apply elem_of_tail_numbers in Hin. lia.
    - apply (lookup_write_all_zip tailpaths tailimgs _ 0%nat); [done|..]; done. }
  exists w'. eexists. split; [exact Hrun|]. split; [done|]. split.
  - intros HL3. rewrite Hdisk.
    rewrite lookup_write_all_notin.
    + apply lookup_insert_ne. intros Heq%frame_path_inj. lia.
    + intros Hin%elem_of_fst_zip. unfold tailpaths in Hin.
      apply list_elem_of_fmap in Hin as (z & Hz%frame_path_inj & Hin). subst z.
      apply elem_of_tail_numbers in Hin. lia.
  - rewrite Hvideo. f_equal. cbn [fmap list_fmap]. f_equal; [done|].
    rewrite Hdisk, reread_zip by done. f_equal.
    rewrite Hlenp. unfold tailimgs. destruct includeReversed.
    + rewrite take_ge; [by rewrite <- app_assoc|]. fold tailimgs. lia.
    + rewrite Nat.add_0_r, take_app_length'; [by rewrite app_nil_r|].
      rewrite length_app, length_fmap, length_seq. simpl. lia.
Qed.


End sequence_extras.

Lemma video_reads_the_frames_back_witness :
  let blends j := nth j [ [[2; 3; 4]; [4; 5; 0]; [7; 0; 0]];
                          [[4; 4; 5]; [5; 6; 0]; [7; 0; 0]];
                          [[5; 5; 6]; [6; 6; 0]; [7; 0; 0]] ]%Z [] in
  (2 ≤ 5)%Z
  ∧ ∃ w' files,
      Blender.generateMorphVideo Reference.polygon Example.session "out" 5 true
        empty_world = (w', Ok files)
      ∧ disk w' !! frame_path "out" 1
        = Some (default (Blender.startImage Example.session)
                  (head (blends <$> seq 0 (Z.to_nat (5 - 2)))))
      ∧ ((3 ≤ 5)%Z →
         disk w' !! frame_path "out" (5 - 1) = disk empty_world !! frame_path "out" (5 - 1))
      ∧ video w'
        = video empty_world
          ++ (Some <$> default (Blender.startImage Example.session)
                         (head (blends <$> seq 0 (Z.to_nat (5 - 2))))
                       :: (blends <$> seq 0 (Z.to_nat (5 - 2)))
                          ++ [Blender.endImage Example.session]%list
                          ++ reverse (forward_images Example.session blends
                                        (Z.to_nat (5 - 2)))).
Proof.
  intros blends. split; [lia|].
  apply (video_reads_the_frames_back Reference.polygon Example.session "out" 5 true
           empty_world blends); [lia|exact example_blends_5].
Defined.

Lemma example_crossing_fails :
  Blender.getBlendedImage Reference.polygon Example.crossing
    (of_int (Z.of_nat 1) * (1 / of_int ((3 - 2) + 1))) = Err LinAlgError.
Proof. by vm_compute. Qed.

